(** * Cachalot: managers, multi-level tiers and the Bloom pre-check

    A shallow embedding of the caching core: the Bloom filter
    ([src/BloomFilter.ts]), the Read-Through, Write-Through and
    Refresh-Ahead managers and the Multi-Level manager.

    Conventions of the embedding.
    - JavaScript strings are [string]; where the code looks at UTF-16 code
      units ([charCodeAt]) the key is the list of its code units.
    - Millisecond timestamps and durations are integers ([Z]).
    - A [number] that may be non-finite (the refresh-ahead factor) is
      [number]: NaN, the two infinities, or a finite value held as an exact
      rational.
    - An asynchronous method is a function from the mutable state to an
      outcome ([Ok] or [Throw]) and the new state; every call that leaves
      the process (storage, executor, logger, clock) is recorded in the
      [log] of the world, in program order. *)

From Stdlib Require Import ZArith QArith Ascii String List Lia Bool.
From stdpp Require Import base option list strings pretty gmap sorting.

Local Open Scope Z_scope.

(** ** JavaScript values *)

Inductive Error : Type :=
| JsError (message : string).

Inductive Result (A : Type) : Type :=
| Ok (a : A)
| Throw (e : Error).
Arguments Ok {A} a.
Arguments Throw {A} e.

(** A JavaScript [number]; finite values are exact rationals. *)
Inductive number : Type :=
| NaN
| PInf
| NInf
| Fin (q : Q).

Definition isFinite (x : number) : bool :=
  match x with Fin _ => true | _ => false end.

(** [x <= y] and [x >= y] of JavaScript; any comparison with NaN is false. *)
Definition num_leb (x y : number) : bool :=
  match x, y with
  | NaN, _ | _, NaN => false
  | NInf, _ => true
  | _, PInf => true
  | PInf, _ => false
  | _, NInf => false
  | Fin a, Fin b => Qle_bool a b
  end.

Definition num_geb (x y : number) : bool := num_leb y x.

(** [x > y]. *)
Definition num_gtb (x y : number) : bool :=
  match x, y with
  | NaN, _ | _, NaN => false
  | _, PInf => false
  | PInf, _ => true
  | NInf, _ => false
  | _, NInf => true
  | Fin a, Fin b => negb (Qle_bool a b)
  end.

(** Truthiness of a number: 0 and NaN are falsy. *)
Definition num_truthy (x : number) : bool :=
  match x with
  | NaN => false
  | Fin q => negb (Qeq_bool q 0)
  | _ => true
  end.

Definition num_sign (x : number) : option comparison :=
  match x with
  | NaN => None
  | PInf => Some Gt
  | NInf => Some Lt
  | Fin q => Some (q ?= 0)%Q
  end.

Definition num_mul (x y : number) : number :=
  match x, y with
  | Fin a, Fin b => Fin (a * b)
  | _, _ =>
      match num_sign x, num_sign y with
      | Some Eq, _ | _, Some Eq | None, _ | _, None => NaN
      | Some Gt, Some Gt | Some Lt, Some Lt => PInf
      | _, _ => NInf
      end
  end.

Definition num_add (x y : number) : number :=
  match x, y with
  | NaN, _ | _, NaN => NaN
  | PInf, NInf | NInf, PInf => NaN
  | PInf, _ | _, PInf => PInf
  | NInf, _ | _, NInf => NInf
  | Fin a, Fin b => Fin (a + b)
  end.

Definition num_of_Z (z : Z) : number := Fin (inject_Z z).

(** [x || 0] on numbers. *)
Definition num_or_zero (x : number) : number :=
  if num_truthy x then x else num_of_Z 0.

(** UTF-16 code units of a string (here: of its characters). *)
Definition charCodes (s : string) : list Z :=
  map (fun a => Z.of_N (N_of_ascii a)) (list_ascii_of_string s).

(** ** The Bloom filter ([src/BloomFilter.ts]) *)

Module BloomFilter.

Record t : Type := mk {
  bitArray : list Z;      (* Uint8Array *)
  size : Z;
  hashCount : Z;
  elementCount : Z
}.

(** ToInt32, the conversion the bit operators apply to their operands. *)
Definition toInt32 (z : Z) : Z :=
  let m := z mod 2 ^ 32 in
  if 2 ^ 31 <=? m then m - 2 ^ 32 else m.

(** One round of [hash]: [((hash << 5) - hash + char) & 0xffffffff]. *)
Definition hash_step (h char : Z) : Z :=
  toInt32 (toInt32 (Z.shiftl (toInt32 h) 5) - h + char).

Definition hash (key : list Z) (seed : Z) : Z :=
  Z.abs (fold_left hash_step key seed).

Definition getHashes (bf : t) (key : list Z) : list Z :=
  map (fun i => hash key (Z.of_nat i)) (seq 0 (Z.to_nat (hashCount bf))).

(** [h % size]; [None] is NaN (size 0). *)
Definition bitIndexOf (h sz : Z) : option Z :=
  if sz =? 0 then None else Some (Z.rem h sz).

(** [Math.floor(bitIndex / 8)] and [1 << (bitIndex % 8)]; a shift count
    is taken modulo 32 and the shift count of a NaN offset is 0. *)
Definition byteIndexOf (bitIndex : option Z) : option Z :=
  (fun b => b / 8) <$> bitIndex.

Definition bitMaskOf (bitIndex : option Z) : Z :=
  match bitIndex with
  | Some b => toInt32 (Z.shiftl 1 (Z.rem b 8 mod 32))
  | None => 1
  end.

(** [bitArray[byteIndex]] under a bit operator: a read out of range is
    [undefined], which the operator turns into 0. *)
Definition readByte (arr : list Z) (byteIndex : option Z) : Z :=
  match byteIndex with
  | Some b => if 0 <=? b then default 0 (arr !! Z.to_nat b) else 0
  | None => 0
  end.

(** [bitArray[byteIndex] = v]: stored modulo 256; ignored out of range. *)
Definition writeByte (arr : list Z) (byteIndex : option Z) (v : Z) : list Z :=
  match byteIndex with
  | Some b => if 0 <=? b then <[Z.to_nat b := v mod 256]> arr else arr
  | None => arr
  end.

Definition setBit (sz : Z) (arr : list Z) (h : Z) : list Z :=
  let bitIndex := bitIndexOf h sz in
  let byteIndex := byteIndexOf bitIndex in
  writeByte arr byteIndex (Z.lor (readByte arr byteIndex) (bitMaskOf bitIndex)).

Definition testBit (sz : Z) (arr : list Z) (h : Z) : bool :=
  let bitIndex := bitIndexOf h sz in
  let byteIndex := byteIndexOf bitIndex in
  negb (Z.land (readByte arr byteIndex) (bitMaskOf bitIndex) =? 0).

Definition add (bf : t) (key : list Z) : t :=
  let hashes := getHashes bf key in
  {| bitArray := fold_left (setBit (size bf)) hashes (bitArray bf);
     size := size bf;
     hashCount := hashCount bf;
     elementCount := elementCount bf + 1 |}.

Fixpoint mightContain_loop (sz : Z) (arr : list Z) (hashes : list Z) : bool :=
  match hashes with
  | [] => true
  | h :: rest =>
      if testBit sz arr h then mightContain_loop sz arr rest else false
  end.

Definition mightContain (bf : t) (key : list Z) : bool :=
  mightContain_loop (size bf) (bitArray bf) (getHashes bf key).

(** [clear()]; it also logs "Bloom filter cleared". *)
Definition clear (bf : t) : t :=
  {| bitArray := map (fun _ => 0) (bitArray bf);
     size := size bf;
     hashCount := hashCount bf;
     elementCount := 0 |}.

(** The constructor, from the [size] and [hashCount] it has computed (two
    floating-point formulas in [Math.log], outside this embedding):
    [new Uint8Array(Math.ceil(size / 8))], all zero; a negative length is a
    RangeError.  Its info log line is left to the caller's logger. *)
Definition create (sz hc : Z) : Result t :=
  let bytes := (sz + 7) / 8 in
  if bytes <? 0 then Throw (JsError "RangeError")
  else Ok {| bitArray := replicate (Z.to_nat bytes) 0;
             size := sz;
             hashCount := hc;
             elementCount := 0 |}.

Definition addAll (bf : t) (keys : list (list Z)) : t :=
  fold_left add keys bf.

End BloomFilter.

(** ** Records and options ([storage/Record], [storage/Storage]) *)

Record Tag : Type := mkTag {
  tag_name : string;
  tag_version : Z
}.

(** The stored envelope; [value] is [None] when the field is [undefined]. *)
Record CacheRecord (V : Type) : Type := mkRecord {
  key : string;
  value : option V;
  createdAt : Z;
  expiresIn : Z;
  permanent : bool;
  tags : list Tag
}.
Arguments mkRecord {V} _ _ _ _ _ _.
Arguments key {V} _.
Arguments value {V} _.
Arguments createdAt {V} _.
Arguments expiresIn {V} _.
Arguments permanent {V} _.
Arguments tags {V} _.

(** [tags?: string[] | (() => string[])]; a callable is given by the list
    it returns. *)
Inductive Tags : Type :=
| TagList (names : list string)
| TagFn (names : list string).

Definition resolveTags (t : Tags) : list string :=
  match t with TagList l => l | TagFn l => l end.

Inductive LockedKeyRetrieveStrategy : Type :=
| waitForResult
| runExecutorStrategy.

(** [WriteOptions] and [ReadWriteOptions]; an absent field is [None]. *)
Record WriteOptions : Type := mkOptions {
  opt_expiresIn : option Z;
  opt_tags : option Tags;
  opt_permanent : option bool;
  opt_lockedKeyRetrieveStrategy : option LockedKeyRetrieveStrategy
}.

Abbreviation ReadWriteOptions := WriteOptions (only parsing).

(** The empty options object [{}]. *)
Definition noOptions : WriteOptions := mkOptions None None None None.

Definition withPermanent (o : WriteOptions) (p : bool) : WriteOptions :=
  mkOptions (opt_expiresIn o) (opt_tags o) (Some p) (opt_lockedKeyRetrieveStrategy o).

Definition withExpiresIn (o : WriteOptions) (e : option Z) : WriteOptions :=
  mkOptions e (opt_tags o) (opt_permanent o) (opt_lockedKeyRetrieveStrategy o).

(** ** The world outside the process *)

Inductive LogLevel : Type := Trace | Info | Warn | LogError.

Inductive LogArg : Type :=
| Str (s : string)
| Err (e : Error).

(** What leaves the process, in program order. [R] is the type of cached
    values. *)
Inductive Event (R : Type) : Type :=
| Logged (lvl : LogLevel) (args : list LogArg)
| StorageGet (k : string)
| StorageIsOutdated (k : string)
| StorageSet (k : string) (v : R) (o : option WriteOptions)
| StorageLockKey (k : string)
| StorageReleaseKey (k : string)
| ExecutorRun
| LevelGet (level k : string)
| LevelSet (level k serialized : string) (ttl : option Z)
| LevelDel (level k : string).
Arguments Logged {R} _ _.
Arguments StorageGet {R} _.
Arguments StorageIsOutdated {R} _.
Arguments StorageSet {R} _ _ _.
Arguments StorageLockKey {R} _.
Arguments StorageReleaseKey {R} _.
Arguments ExecutorRun {R}.
Arguments LevelGet {R} _ _.
Arguments LevelSet {R} _ _ _ _.
Arguments LevelDel {R} _ _.

(** The log of events so far and the number of [Date.now()] readings taken. *)
Record World (R : Type) : Type := mkWorld {
  log : list (Event R);
  nowReads : nat
}.
Arguments mkWorld {R} _ _.
Arguments log {R} _.
Arguments nowReads {R} _.

(** The [Storage] a single-tier manager talks to: the answer of each
    operation.  Within one manager call every operation is issued at most
    once per key. *)
Record Storage (R : Type) : Type := mkStorage {
  storage_get : string -> Result (option (CacheRecord string));
  storage_isOutdated : CacheRecord string -> Result bool;
  storage_set : string -> R -> option WriteOptions -> Result (CacheRecord R);
  storage_lockKey : string -> Result bool;
  storage_releaseKey : string -> Result bool
}.
Arguments mkStorage {R} _ _ _ _ _.
Arguments storage_get {R} _ _.
Arguments storage_isOutdated {R} _ _.
Arguments storage_set {R} _ _ _ _.
Arguments storage_lockKey {R} _ _.
Arguments storage_releaseKey {R} _ _.

(** The raw key/value shape of a backend, used by the tiers. *)
Record StorageAdapter : Type := mkAdapter {
  adapter_get : string -> Result (option string);
  adapter_set : string -> string -> option Z -> Result bool;
  adapter_del : string -> Result bool
}.

(** An executor is a thunk; it is given by the outcome of calling it. *)
Definition Executor (R : Type) : Type := Result R.

Record ExecutorContext (R : Type) : Type := mkContext {
  ctx_key : string;
  ctx_executor : Executor R;
  ctx_options : ReadWriteOptions
}.
Arguments mkContext {R} _ _ _.
Arguments ctx_key {R} _.
Arguments ctx_executor {R} _.
Arguments ctx_options {R} _.

(** ** Methods as state transformers with exceptions *)

Definition M (S A : Type) : Type := S -> Result A * S.

Definition ret {S A : Type} (a : A) : M S A := fun s => (Ok a, s).

Definition throw {S A : Type} (e : Error) : M S A := fun s => (Throw e, s).

Definition bind {S A B : Type} (m : M S A) (k : A -> M S B) : M S B :=
  fun s =>
    match m s with
    | (Ok a, s') => k a s'
    | (Throw e, s') => (Throw e, s')
    end.

(** The result of an awaited call or of a throwing primitive. *)
Definition lift {S A : Type} (r : Result A) : M S A := fun s => (r, s).

(** [try { m } catch (e) { h e }] *)
Definition try_catch {S A : Type} (m : M S A) (h : Error -> M S A) : M S A :=
  fun s =>
    match m s with
    | (Ok a, s') => (Ok a, s')
    | (Throw e, s') => h e s'
    end.

(** [try { x = m } catch (e) { ... }] where the handler leaves the method:
    the outcome of [m] is handed to the continuation. *)
Definition attempt {S A : Type} (m : M S A) : M S (Result A) :=
  fun s => match m s with (r, s') => (Ok r, s') end.

(** [try { m } finally { f }] *)
Definition try_finally {S A : Type} (m : M S A) (f : M S unit) : M S A :=
  fun s =>
    match m s with
    | (r, s') =>
        match f s' with
        | (Ok _, s'') => (r, s'')
        | (Throw e, s'') => (Throw e, s'')
        end
    end.

Definition gets {S A : Type} (f : S -> A) : M S A := fun s => (Ok (f s), s).

Definition modify {S : Type} (f : S -> S) : M S unit := fun s => (Ok tt, f s).

Declare Scope method_scope.
Delimit Scope method_scope with method.
Notation "'let*' x ':=' m 'in' k" := (bind m (fun x => k))
  (at level 10, x binder, m at level 100, k at level 200) : method_scope.
Notation "'run' m 'in' k" := (bind m (fun _ => k))
  (at level 10, m at level 100, k at level 200) : method_scope.
Bind Scope method_scope with M.

(** What [BaseManager] gives every manager: a logger, a clock and the
    executor runner, all acting on the world held in the manager's state. *)
Class BaseManager (R S : Type) : Type := {
  world : S -> World R;
  with_world : World R -> S -> S
}.

Section Base.
Context {R S : Type} `{BaseManager R S}.

Definition emit (e : Event R) : M S unit :=
  modify (fun s => with_world (mkWorld (log (world s) ++ [e]) (nowReads (world s))) s).

Definition logger (lvl : LogLevel) (args : list LogArg) : M S unit :=
  emit (Logged lvl args).

(** [Date.now()], the next reading of the clock. *)
Definition dateNow (clock : nat -> Z) : M S Z :=
  fun s =>
    let w := world s in
    (Ok (clock (nowReads w)), with_world (mkWorld (log w) (Datatypes.S (nowReads w))) s).

(** [runExecutor(executor)] *)
Definition runExecutor (executor : Executor R) : M S R :=
  (run emit ExecutorRun in lift executor)%method.

End Base.

Definition dquote : string := String (ascii_of_nat 34) EmptyString.

(** Calls on the [Storage] of a single-tier manager. *)
Section StorageCalls.
Context {R S : Type} `{BaseManager R S}.
Variable storage : Storage R.

Definition call_get (k : string) : M S (option (CacheRecord string)) :=
  (run emit (StorageGet k) in lift (storage_get storage k))%method.

Definition call_isOutdated (record : CacheRecord string) : M S bool :=
  (run emit (StorageIsOutdated (key record)) in
   lift (storage_isOutdated storage record))%method.

Definition call_set (k : string) (v : R) (o : option WriteOptions) : M S (CacheRecord R) :=
  (run emit (StorageSet k v o) in lift (storage_set storage k v o))%method.

Definition call_lockKey (k : string) : M S bool :=
  (run emit (StorageLockKey k) in lift (storage_lockKey storage k))%method.

Definition call_releaseKey (k : string) : M S bool :=
  (run emit (StorageReleaseKey k) in lift (storage_releaseKey storage k))%method.

End StorageCalls.

(** [Number(x) || 0] for a finite integer [x]. *)
Definition or_zero (x : Z) : Z := if x =? 0 then 0 else x.

(** [deserialize(record.value)] once the record passed [isRecordValid]; the
    other cases are excluded by the type guard and would be a TypeError. *)
Definition deserializeValue {R S : Type} (deserialize : string -> Result R)
    (record : option (CacheRecord string)) : M S R :=
  match record with
  | Some r =>
      match value r with
      | Some v => lift (deserialize v)
      | None => throw (JsError "TypeError")
      end
  | None => throw (JsError "TypeError")
  end.

Definition msgBloomMiss (k : string) : string :=
  "Bloom filter indicates key " +:+ dquote +:+ k +:+ dquote
    +:+ " definitely doesn't exist, running executor directly".

Definition msgBloomMaybe (k what : string) : string :=
  "Bloom filter indicates key " +:+ dquote +:+ k +:+ dquote
    +:+ " might exist, checking " +:+ what.

Definition msgStorageFailed : string :=
  "Failed to get value from storage, falling back to executor".

(** [ManagerOptions] as far as the managers read them.  The constructor of
    [BloomFilter] sizes its bit array with floating-point logarithms; the
    managers take it as [newBloomFilter], which returns the filter and the
    info line the filter logs about its size, or throws (RangeError). *)
Record BloomFilterOptions : Type := mkBloomOptions {
  expectedElements : option number;
  falsePositiveRate : option number
}.

Record ManagerOptions : Type := mkManagerOptions {
  enableBloomFilter : bool;
  bloomFilterOptions : option BloomFilterOptions
}.

Definition num_or (x : option number) (d : number) : number :=
  match x with
  | Some n => if num_truthy n then n else d
  | None => d
  end.

(** The bloom-filter part shared by the constructors:
    [if (options.enableBloomFilter && options.bloomFilterOptions) ...]. *)
Definition initBloomFilter {R : Type}
    (newBloomFilter : number -> number -> Result (BloomFilter.t * string))
    (options : ManagerOptions) (who : string) (w : World R)
  : Result (option BloomFilter.t * World R) :=
  match enableBloomFilter options, bloomFilterOptions options with
  | true, Some bo =>
      match newBloomFilter (num_or (expectedElements bo) (num_of_Z 10000))
                           (num_or (falsePositiveRate bo) (Fin (1 # 100))) with
      | Ok (bf, initialized) =>
          Ok (Some bf,
              mkWorld (log w ++ [Logged Info [Str initialized];
                                 Logged Info [Str (who +:+ " initialized with Bloom filter")]])
                      (nowReads w))
      | Throw e => Throw e
      end
  | _, _ => Ok (None, w)
  end.

(** ** Read-Through manager ([managers/ReadThroughManager]) *)

Module ReadThroughManager.

Record t (R : Type) : Type := mk {
  bloomFilter : option BloomFilter.t;
  its_world : World R
}.
Arguments mk {R} _ _.
Arguments bloomFilter {R} _.
Arguments its_world {R} _.

#[global] Instance base (R : Type) : BaseManager R (t R) := {|
  world := its_world;
  with_world := fun w s => mk (bloomFilter s) w
|}.

Definition getName : string := "read-through".

Section Methods.
Context {R : Type}.
Variable storage : Storage R.
Variable clock : nat -> Z.
Variable deserialize : string -> Result R.
(** Inherited from [BaseManager]; its source is not among the files. *)
Variable updateCacheAndGetResult :
  ExecutorContext R -> ReadWriteOptions -> M (t R) R.

Definition constructor (newBloomFilter : number -> number -> Result (BloomFilter.t * string))
    (options : ManagerOptions) (w : World R) : Result (t R) :=
  match initBloomFilter newBloomFilter options "ReadThroughManager" w with
  | Ok (bf, w') => Ok (mk bf w')
  | Throw e => Throw e
  end.

(** [if (this.bloomFilter) this.bloomFilter.add(key)] *)
Definition bloomAdd (k : string) : M (t R) unit :=
  modify (fun s =>
    match bloomFilter s with
    | Some bf => mk (Some (BloomFilter.add bf (charCodes k))) (its_world s)
    | None => s
    end).

Definition isRecordValid (record : option (CacheRecord string)) : M (t R) bool :=
  (let* currentDate := dateNow clock in
   match record with
   | None => ret false
   | Some record =>
       let recordExpireDate := or_zero (createdAt record + expiresIn record) in
       let isExpired := negb (permanent record) && (currentDate >? recordExpireDate) in
       if isExpired then ret false
       else ret (bool_decide (is_Some (value record)))
   end)%method.

(** The part of [get] after the Bloom pre-check. *)
Definition get_from_storage (k : string) (executor : Executor R)
    (options : ReadWriteOptions) : M (t R) R :=
  (let* got := attempt (call_get storage k) in
   match got with
   | Throw e =>
       run logger LogError [Str msgStorageFailed; Err e] in
       runExecutor executor
   | Ok record =>
       let* valid := isRecordValid record in
       let* fresh :=
         (if valid then
            match record with
            | Some r => let* outdated := call_isOutdated storage r in ret (negb outdated)
            | None => ret false
            end
          else ret false) in
       if fresh then
         let* result := deserializeValue deserialize record in
         run bloomAdd k in
         ret result
       else
         let executorContext := mkContext k executor options in
         updateCacheAndGetResult executorContext options
   end)%method.

Definition get (k : string) (executor : Executor R)
    (options : ReadWriteOptions) : M (t R) R :=
  (let* bf := gets bloomFilter in
   match bf with
   | Some b =>
       let mightExist := BloomFilter.mightContain b (charCodes k) in
       if negb mightExist then
         run logger Trace [Str (msgBloomMiss k)] in
         runExecutor executor
       else
         run logger Trace [Str (msgBloomMaybe k "storage")] in
         get_from_storage k executor options
   | None => get_from_storage k executor options
   end)%method.

Definition set (k : string) (v : R) (options : option WriteOptions)
  : M (t R) (CacheRecord R) :=
  (let* record := call_set storage k v options in
   run bloomAdd k in
   ret record)%method.

End Methods.

End ReadThroughManager.

(** ** Write-Through manager ([managers/WriteThroughManager]) *)

Module WriteThroughManager.

Record t (R : Type) : Type := mk {
  bloomFilter : option BloomFilter.t;
  its_world : World R
}.
Arguments mk {R} _ _.
Arguments bloomFilter {R} _.
Arguments its_world {R} _.

#[global] Instance base (R : Type) : BaseManager R (t R) := {|
  world := its_world;
  with_world := fun w s => mk (bloomFilter s) w
|}.

Definition getName : string := "write-through".

Section Methods.
Context {R : Type}.
Variable storage : Storage R.
Variable deserialize : string -> Result R.
(** Inherited from [BaseManager]; its source is not among the files. *)
Variable updateCacheAndGetResult :
  ExecutorContext R -> ReadWriteOptions -> M (t R) R.

Definition constructor (newBloomFilter : number -> number -> Result (BloomFilter.t * string))
    (options : ManagerOptions) (w : World R) : Result (t R) :=
  match initBloomFilter newBloomFilter options "WriteThroughManager" w with
  | Ok (bf, w') => Ok (mk bf w')
  | Throw e => Throw e
  end.

Definition bloomAdd (k : string) : M (t R) unit :=
  modify (fun s =>
    match bloomFilter s with
    | Some bf => mk (Some (BloomFilter.add bf (charCodes k))) (its_world s)
    | None => s
    end).

Definition isRecordValid (record : option (CacheRecord string)) : bool :=
  match record with
  | None => false
  | Some record => bool_decide (is_Some (value record))
  end.

Definition get_from_storage (k : string) (executor : Executor R)
    (options : ReadWriteOptions) : M (t R) R :=
  (let* got := attempt (call_get storage k) in
   match got with
   | Throw e =>
       run logger LogError [Str msgStorageFailed; Err e] in
       runExecutor executor
   | Ok record =>
       if isRecordValid record then
         run logger Trace [Str "hit"; Str k] in
         let* result := deserializeValue deserialize record in
         run bloomAdd k in
         ret result
       else
         run logger Trace [Str "miss"; Str k] in
         let executorContext := mkContext k executor options in
         updateCacheAndGetResult executorContext options
   end)%method.

Definition get (k : string) (executor : Executor R)
    (options : ReadWriteOptions) : M (t R) R :=
  (let* bf := gets bloomFilter in
   match bf with
   | Some b =>
       let mightExist := BloomFilter.mightContain b (charCodes k) in
       if negb mightExist then
         run logger Trace [Str (msgBloomMiss k)] in
         runExecutor executor
       else
         run logger Trace [Str (msgBloomMaybe k "storage")] in
         get_from_storage k executor options
   | None => get_from_storage k executor options
   end)%method.

(** [{ ...options, permanent: true }] *)
Definition permanentOptions (options : option WriteOptions) : WriteOptions :=
  withPermanent (default noOptions options) true.

Definition set (k : string) (v : R) (options : option WriteOptions)
  : M (t R) (CacheRecord R) :=
  (let* record := call_set storage k v (Some (permanentOptions options)) in
   run bloomAdd k in
   ret record)%method.

End Methods.

End WriteThroughManager.

(** ** Refresh-Ahead manager ([managers/RefreshAheadManager]) *)

Module RefreshAheadManager.

Definition DEFAULT_REFRESH_AHEAD_FACTOR : number := Fin (8 # 10).

Record RefreshAheadManagerOptions : Type := mkOptions {
  refreshAheadFactorOption : option number;
  managerOptions : ManagerOptions
}.

Record t (R : Type) : Type := mk {
  refreshAheadFactor : number;
  bloomFilter : option BloomFilter.t;
  its_world : World R
}.
Arguments mk {R} _ _ _.
Arguments refreshAheadFactor {R} _.
Arguments bloomFilter {R} _.
Arguments its_world {R} _.

#[global] Instance base (R : Type) : BaseManager R (t R) := {|
  world := its_world;
  with_world := fun w s => mk (refreshAheadFactor s) (bloomFilter s) w
|}.

Definition getName : string := "refresh-ahead".

Section Methods.
Context {R : Type}.
Variable storage : Storage R.
Variable clock : nat -> Z.
Variable deserialize : string -> Result R.
(** Inherited from [BaseManager]; its source is not among the files. *)
Variable updateCacheAndGetResult :
  ExecutorContext R -> ReadWriteOptions -> M (t R) R.

Definition constructor (newBloomFilter : number -> number -> Result (BloomFilter.t * string))
    (options : RefreshAheadManagerOptions) (w : World R) : Result (t R) :=
  let factor := num_or (refreshAheadFactorOption options) DEFAULT_REFRESH_AHEAD_FACTOR in
  if isFinite factor && num_leb factor (num_of_Z 0) then
    Throw (JsError "Refresh-Ahead factor should be more than 0")
  else if isFinite factor && num_geb factor (num_of_Z 1) then
    Throw (JsError "Refresh-Ahead factor should be under 1")
  else
    match initBloomFilter newBloomFilter (managerOptions options) "RefreshAheadManager" w with
    | Ok (bf, w') => Ok (mk factor bf w')
    | Throw e => Throw e
    end.

Definition bloomAdd (k : string) : M (t R) unit :=
  modify (fun s =>
    match bloomFilter s with
    | Some bf =>
        mk (refreshAheadFactor s) (Some (BloomFilter.add bf (charCodes k))) (its_world s)
    | None => s
    end).

Definition isRecordValid (record : option (CacheRecord string)) : M (t R) bool :=
  (let* currentDate := dateNow clock in
   match record with
   | None => ret false
   | Some record =>
       let recordExpireDate := or_zero (createdAt record + expiresIn record) in
       let isExpired := negb (permanent record) && (currentDate >? recordExpireDate) in
       if isExpired then ret false
       else ret (bool_decide (is_Some (value record)))
   end)%method.

Definition isRecordExpireSoon (record : option (CacheRecord string)) : M (t R) bool :=
  (let* currentDate := dateNow clock in
   match record with
   | None => ret false
   | Some record =>
       let* factor := gets refreshAheadFactor in
       let recordExpireDate :=
         num_or_zero (num_add (num_of_Z (createdAt record))
                              (num_mul (num_of_Z (expiresIn record)) factor)) in
       ret (negb (permanent record) && num_gtb (num_of_Z currentDate) recordExpireDate)
   end)%method.

Definition refresh (k : string) (context : ExecutorContext R)
    (options : WriteOptions) : M (t R) unit :=
  (let refreshAheadKey := "refreshAhead:" +:+ k in
   let* isExecutorLockSuccessful := call_lockKey storage refreshAheadKey in
   if (isExecutorLockSuccessful : bool) then
     try_finally
       (try_catch
          (run logger Trace [Str ("refresh " +:+ dquote +:+ k +:+ dquote)] in
           let* executorResult := runExecutor (ctx_executor context) in
           let* _ := call_set storage k executorResult (Some options) in
           ret tt)
          (fun e => logger LogError [Err e]))
       (let* _ := call_releaseKey storage refreshAheadKey in ret tt)
   else ret tt)%method.

(** [promise.catch(err => this.logger.error(err))] on a promise that is
    not awaited: the detached work is run at the point where it is
    started, and its failure never reaches the caller. *)
Definition detached (m : M (t R) unit) : M (t R) unit :=
  try_catch m (fun err => logger LogError [Err err]).

Definition get_from_storage (k : string) (executor : Executor R)
    (options : ReadWriteOptions) : M (t R) R :=
  (let* got := attempt (call_get storage k) in
   match got with
   | Throw e =>
       run logger LogError [Str msgStorageFailed; Err e] in
       runExecutor executor
   | Ok record =>
       let executorContext := mkContext k executor options in
       let* valid := isRecordValid record in
       let* fresh :=
         (if valid then
            match record with
            | Some r => let* outdated := call_isOutdated storage r in ret (negb outdated)
            | None => ret false
            end
          else ret false) in
       if fresh then
         let* result := deserializeValue deserialize record in
         run bloomAdd k in
         let* soon := isRecordExpireSoon record in
         run (if soon then detached (refresh k executorContext options) else ret tt) in
         ret result
       else
         updateCacheAndGetResult executorContext options
   end)%method.

Definition get (k : string) (executor : Executor R)
    (options : ReadWriteOptions) : M (t R) R :=
  (let* bf := gets bloomFilter in
   match bf with
   | Some b =>
       let mightExist := BloomFilter.mightContain b (charCodes k) in
       if negb mightExist then
         run logger Trace [Str (msgBloomMiss k)] in
         runExecutor executor
       else
         run logger Trace [Str (msgBloomMaybe k "storage")] in
         get_from_storage k executor options
   | None => get_from_storage k executor options
   end)%method.

Definition set (k : string) (v : R) (options : option WriteOptions)
  : M (t R) (CacheRecord R) :=
  (let* record := call_set storage k v options in
   run bloomAdd k in
   ret record)%method.

End Methods.

End RefreshAheadManager.

(** ** Multi-Level manager ([managers/MultiLevelManager]) *)

Module MultiLevelManager.

Record CacheLevel : Type := mkLevel {
  name : string;
  storage : StorageAdapter;
  priority : Z;
  ttl : option Z;
  enabled : bool
}.

Inductive FallbackStrategy : Type :=
| executor
| next_level
| fail.

Record MultiLevelManagerOptions : Type := mkOptions {
  levelsOption : list CacheLevel;
  fallbackStrategy : option FallbackStrategy;
  managerOptions : ManagerOptions
}.

Record Counters : Type := mkCounters {
  hits : Z;
  misses : Z;
  sets : Z;
  dels : Z
}.

Record t (R : Type) : Type := mk {
  bloomFilter : option BloomFilter.t;
  levels : list CacheLevel;
  metrics : gmap string Counters;
  options : MultiLevelManagerOptions;
  its_world : World R
}.
Arguments mk {R} _ _ _ _ _.
Arguments bloomFilter {R} _.
Arguments levels {R} _.
Arguments metrics {R} _.
Arguments options {R} _.
Arguments its_world {R} _.

#[global] Instance base (R : Type) : BaseManager R (t R) := {|
  world := its_world;
  with_world := fun w s => mk (bloomFilter s) (levels s) (metrics s) (options s) w
|}.

Definition getName : string := "multi-level".

(** [[...levels].sort((a, b) => a.priority - b.priority)]: a stable sort. *)
Fixpoint insertLevel (x : CacheLevel) (sorted : list CacheLevel) : list CacheLevel :=
  match sorted with
  | [] => [x]
  | y :: rest =>
      if priority x <=? priority y then x :: y :: rest
      else y :: insertLevel x rest
  end.

Definition sortLevels (ls : list CacheLevel) : list CacheLevel :=
  foldr insertLevel [] ls.

Definition zeroCounters : Counters := mkCounters 0 0 0 0.

Definition withEnabled (l : CacheLevel) (b : bool) : CacheLevel :=
  mkLevel (name l) (storage l) (priority l) (ttl l) b.

(** [levels.findIndex(level => level.enabled)], -1 when there is none. *)
Fixpoint findIndexEnabled (ls : list CacheLevel) : Z :=
  match ls with
  | [] => -1
  | l :: rest =>
      if enabled l then 0
      else
        let i := findIndexEnabled rest in
        if i <? 0 then -1 else i + 1
  end.

(** Truthiness of [string | null] and of [number | undefined]. *)
Definition truthyString (s : option string) : bool :=
  match s with
  | Some v => negb (String.eqb v "")
  | None => false
  end.

Definition truthyNumber (n : option Z) : bool :=
  match n with
  | Some v => negb (v =? 0)
  | None => false
  end.

Section Methods.
Context {R : Type}.
Variable clock : nat -> Z.
Variable deserialize : string -> Result R.
(** [JSON.stringify] *)
Variable serialize : R -> string.
(** [new Record(key, value, tags, options)]; the class is not among the
    files. *)
Variable newRecord : string -> R -> list Tag -> WriteOptions -> CacheRecord R.

Definition constructor (newBloomFilter : number -> number -> Result (BloomFilter.t * string))
    (opts : MultiLevelManagerOptions) (w : World R) : Result (t R) :=
  let sorted := sortLevels (levelsOption opts) in
  match initBloomFilter newBloomFilter (managerOptions opts) "MultiLevelManager" w with
  | Ok (bf, w') =>
      let m := foldl (fun acc level => <[name level := zeroCounters]> acc) ∅ sorted in
      Ok (mk bf sorted m opts
            (mkWorld (log w' ++ [Logged Info
                        [Str ("MultiLevelManager initialized with "
                                +:+ pretty (length sorted) +:+ " levels")]])
                     (nowReads w')))
  | Throw e => Throw e
  end.

(** [this.metrics[level.name].field++]; a missing entry is a TypeError. *)
Definition bump (f : Counters -> Counters) (levelName : string) : M (t R) unit :=
  fun s =>
    match metrics s !! levelName with
    | Some c =>
        (Ok tt, mk (bloomFilter s) (levels s) (<[levelName := f c]> (metrics s))
                   (options s) (its_world s))
    | None => (Throw (JsError "TypeError"), s)
    end.

Definition hit (c : Counters) : Counters :=
  mkCounters (hits c + 1) (misses c) (sets c) (dels c).
Definition miss (c : Counters) : Counters :=
  mkCounters (hits c) (misses c + 1) (sets c) (dels c).
Definition didSet (c : Counters) : Counters :=
  mkCounters (hits c) (misses c) (sets c + 1) (dels c).
Definition didDel (c : Counters) : Counters :=
  mkCounters (hits c) (misses c) (sets c) (dels c + 1).

Definition bloomAdd (k : string) : M (t R) unit :=
  modify (fun s =>
    match bloomFilter s with
    | Some bf =>
        mk (Some (BloomFilter.add bf (charCodes k))) (levels s) (metrics s)
           (options s) (its_world s)
    | None => s
    end).

Definition level_get (level : CacheLevel) (k : string) : M (t R) (option string) :=
  (run emit (LevelGet (name level) k) in
   lift (adapter_get (storage level) k))%method.

Definition level_set (level : CacheLevel) (k serialized : string) (e : option Z)
  : M (t R) bool :=
  (run emit (LevelSet (name level) k serialized e) in
   lift (adapter_set (storage level) k serialized e))%method.

Definition level_del (level : CacheLevel) (k : string) : M (t R) bool :=
  (run emit (LevelDel (name level) k) in
   lift (adapter_del (storage level) k))%method.

(** The loop of [populateHigherLevels] over [levels[0 .. foundLevelIndex)]. *)
Fixpoint populate_loop (k : string) (v : R) (opts : WriteOptions)
    (ls : list CacheLevel) : M (t R) unit :=
  match ls with
  | [] => ret tt
  | level :: rest =>
      (if negb (enabled level) then populate_loop k v opts rest
       else
         run try_catch
           (let levelOptions :=
              if truthyNumber (ttl level) then withExpiresIn opts (ttl level) else opts in
            let serializedValue := serialize v in
            let* _ := level_set level k serializedValue (opt_expiresIn levelOptions) in
            logger Trace [Str ("Warmed level: " +:+ name level +:+ " with key: " +:+ k)])
           (fun error =>
              logger Warn [Str ("Failed to warm level: " +:+ name level
                                  +:+ " with key: " +:+ k +:+ ":"); Err error]) in
         populate_loop k v opts rest)%method
  end.

Definition populateHigherLevels (k : string) (v : R) (opts : WriteOptions)
  : M (t R) unit :=
  (let* ls := gets levels in
   let foundLevelIndex := findIndexEnabled ls in
   if foundLevelIndex <=? 0 then ret tt
   else populate_loop k v opts (take (Z.to_nat foundLevelIndex) ls))%method.

(** The walk over the levels in [get]; [Some result] is the [return] from
    inside the loop, [None] is falling out of it. *)
Fixpoint walk (k : string) (opts : ReadWriteOptions) (ls : list CacheLevel)
  : M (t R) (option R) :=
  match ls with
  | [] => ret None
  | level :: rest =>
      (if negb (enabled level) then
         run logger Trace [Str ("Skipping disabled level: " +:+ name level)] in
         walk k opts rest
       else
         let* found :=
           try_catch
             (run logger Trace [Str ("Checking level: " +:+ name level
                                       +:+ " for key: " +:+ k)] in
              let* serializedValue := level_get level k in
              if truthyString serializedValue then
                run logger Trace [Str ("Hit in level: " +:+ name level
                                         +:+ " for key: " +:+ k)] in
                run bump hit (name level) in
                let* result := lift (deserialize (default "" serializedValue)) in
                run bloomAdd k in
                run populateHigherLevels k result opts in
                ret (Some result)
              else
                run bump miss (name level) in
                ret None)
             (fun error =>
                run logger Warn [Str ("Error accessing level " +:+ name level +:+ ":");
                                 Err error] in
                run bump miss (name level) in
                ret None) in
         match found with
         | Some result => ret (Some result)
         | None => walk k opts rest
         end)%method
  end.

(** The loop of [set]; [usedExpiresIn] is threaded through. *)
Fixpoint set_loop (k serializedValue : string) (opts : option WriteOptions)
    (ls : list CacheLevel) (usedExpiresIn : Z) : M (t R) Z :=
  match ls with
  | [] => ret usedExpiresIn
  | level :: rest =>
      (if negb (enabled level) then set_loop k serializedValue opts rest usedExpiresIn
       else
         let expiresIn :=
           match ttl level with
           | Some e => e
           | None => default 0 (opts ≫= opt_expiresIn)
           end in
         let usedExpiresIn' := if usedExpiresIn =? 0 then expiresIn else usedExpiresIn in
         run try_catch
           (let* success := level_set level k serializedValue (Some expiresIn) in
            if (success : bool) then
              run bump didSet (name level) in
              logger Trace [Str ("Successfully set key: " +:+ k
                                   +:+ " in level: " +:+ name level)]
            else ret tt)
           (fun error =>
              logger Warn [Str ("Failed to set key: " +:+ k +:+ " in level: "
                                  +:+ name level +:+ ":"); Err error]) in
         set_loop k serializedValue opts rest usedExpiresIn')%method
  end.

Definition set (k : string) (v : R) (opts : option WriteOptions)
  : M (t R) (CacheRecord R) :=
  (let serializedValue := serialize v in
   let* now := dateNow clock in
   let* ls := gets levels in
   let* usedExpiresIn := set_loop k serializedValue opts ls 0 in
   run bloomAdd k in
   let tags :=
     match opts ≫= opt_tags with
     | Some tagNames => map (fun n => mkTag n now) (resolveTags tagNames)
     | None => []
     end in
   ret (newRecord k v tags (withExpiresIn (default noOptions opts) (Some usedExpiresIn))))%method.

Fixpoint del_loop (k : string) (ls : list CacheLevel) (success : bool) : M (t R) bool :=
  match ls with
  | [] => ret success
  | level :: rest =>
      (if negb (enabled level) then del_loop k rest success
       else
         let failed error s :=
           run logger Warn [Str ("Failed to delete key: " +:+ k +:+ " from level: "
                                   +:+ name level +:+ ":"); Err error] in
           ret s in
         let deleted :=
           logger Trace [Str ("Deleted key: " +:+ k +:+ " from level: " +:+ name level)] in
         let* success' :=
           try_catch
             (let* result := level_del level k in
              if (result : bool) then
                (* [success = true] is assigned before [dels++] can throw *)
                try_catch
                  (run bump didDel (name level) in run deleted in ret true)
                  (fun error => failed error true)
              else run deleted in ret success)
             (fun error => failed error success) in
         del_loop k rest success')%method
  end.

Definition del (k : string) : M (t R) bool :=
  (let* ls := gets levels in del_loop k ls false)%method.

Definition handleExecutorFallback (k : string) (ex : Executor R)
    (opts : ReadWriteOptions) : M (t R) R :=
  (run logger Trace [Str ("Running executor for key: " +:+ k)] in
   let* result := runExecutor ex in
   let* _ := set k result (Some opts) in
   ret result)%method.

Definition handleNextLevelFallback (k : string) (ex : Executor R)
    (opts : ReadWriteOptions) : M (t R) R :=
  (run logger Trace [Str ("Trying next level fallback for key: " +:+ k)] in
   handleExecutorFallback k ex opts)%method.

(** The part of [get] after the Bloom pre-check. *)
Definition get_from_levels (k : string) (ex : Executor R)
    (opts : ReadWriteOptions) : M (t R) R :=
  (let* ls := gets levels in
   let* found := walk k opts ls in
   match found with
   | Some result => ret result
   | None =>
       run logger Trace [Str ("Cache miss for key: " +:+ k
                                +:+ ", using fallback strategy")] in
       let* o := gets options in
       match default executor (fallbackStrategy o) with
       | executor => handleExecutorFallback k ex opts
       | next_level => handleNextLevelFallback k ex opts
       | fail => throw (JsError ("Cache miss for key: " +:+ k))
       end
   end)%method.

Definition get (k : string) (ex : Executor R) (opts : ReadWriteOptions) : M (t R) R :=
  (let* bf := gets bloomFilter in
   match bf with
   | Some b =>
       let mightExist := BloomFilter.mightContain b (charCodes k) in
       if negb mightExist then
         run logger Trace [Str (msgBloomMiss k)] in
         runExecutor ex
       else
         run logger Trace [Str (msgBloomMaybe k "cache levels")] in
         get_from_levels k ex opts
   | None => get_from_levels k ex opts
   end)%method.

Definition getLevels (s : t R) : list CacheLevel := levels s.

(** [find] then the assignment to [level.enabled]. *)
Definition setLevelEnabled (levelName : string) (b : bool) (what : string)
  : M (t R) unit :=
  (let* ls := gets levels in
   match list_find (fun l => name l = levelName) ls with
   | Some (i, level) =>
       run modify (fun s => mk (bloomFilter s) (<[i := withEnabled level b]> (levels s))
                               (metrics s) (options s) (its_world s)) in
       logger Info [Str (what +:+ " level: " +:+ levelName)]
   | None => ret tt
   end)%method.

Definition enableLevel (levelName : string) : M (t R) unit :=
  setLevelEnabled levelName true "Enabled".

Definition disableLevel (levelName : string) : M (t R) unit :=
  setLevelEnabled levelName false "Disabled".

Definition getLevelStats (s : t R) : list (string * bool * Z) :=
  map (fun level => (name level, enabled level, priority level)) (levels s).

Definition getMetrics (s : t R) : gmap string Counters := metrics s.

End Methods.

End MultiLevelManager.

(** ** Vocabulary of the properties *)

(** The Bloom pre-check lets the call through to the storage: there is no
    filter, or the filter answers that the key might exist. *)
Definition bloomPasses (bf : option BloomFilter.t) (k : string) : Prop :=
  match bf with
  | Some b => BloomFilter.mightContain b (charCodes k) = true
  | None => True
  end.

(** What the pre-check logs when there is a filter and it lets the call
    through. *)
Definition preCheckLog {R : Type} (bf : option BloomFilter.t) (k what : string)
  : list (Event R) :=
  match bf with
  | Some _ => [Logged Trace [Str (msgBloomMaybe k what)]]
  | None => []
  end.

(** Time-valid: [permanent = true] or [now <= createdAt + expiresIn]. *)
Definition timeValid (now : Z) (r : CacheRecord string) : Prop :=
  permanent r = true \/ now <= createdAt r + expiresIn r.

(** What a call that fell back to the executor has sent out after the
    pre-check: the failed read, the error log line and the executor run. *)
Definition fallbackLog {R : Type} (k : string) (e : Error) : list (Event R) :=
  [StorageGet k; Logged LogError [Str msgStorageFailed; Err e]; ExecutorRun].


(** [c] keeps the invariant [P] of the state, whether it returns or throws. *)
Definition preserves {S A : Type} (P : S -> Prop) (c : M S A) : Prop :=
  forall s, P s -> P (c s).2.

(** Events that neither run the executor nor write to or delete from a
    level or a storage: log lines and level reads. *)
Definition readsOnly {R : Type} (e : Event R) : bool :=
  match e with
  | Logged _ _ | LevelGet _ _ => true
  | _ => false
  end.

(** The filter as the constructor leaves it and [add] keeps it: a positive
    number of bits and a byte array that covers them. *)
Definition well_formed (bf : BloomFilter.t) : Prop :=
  0 < BloomFilter.size bf /\
  length (BloomFilter.bitArray bf) = Z.to_nat ((BloomFilter.size bf + 7) / 8).

(** Every level has its counters, as the constructor leaves them. *)
Definition metrics_ok {R : Type} (m : MultiLevelManager.t R) : Prop :=
  forall l, l ∈ MultiLevelManager.levels m ->
            is_Some (MultiLevelManager.metrics m !! MultiLevelManager.name l).

(** [level.storage.get(key)] returns empty (null or the empty string) or
    throws. *)
Definition levelMisses (k : string) (level : MultiLevelManager.CacheLevel) : Prop :=
  match adapter_get (MultiLevelManager.storage level) k with
  | Ok v => MultiLevelManager.truthyString v = false
  | Throw _ => True
  end.

(** ** Concrete scenarios

    Cached values are strings and the serialization hooks are the
    identity; the clock starts at 1000 ms and advances by one per reading. *)

Module Scenario.

Definition deserialize (s : string) : Result string := Ok s.

Definition serialize (v : string) : string := v.

Definition newRecord (k : string) (v : string) (tags : list Tag) (o : WriteOptions)
  : CacheRecord string :=
  mkRecord k (Some v) 0 (default 0 (opt_expiresIn o)) (default false (opt_permanent o)) tags.

Definition clock (n : nat) : Z := 1000 + Z.of_nat n.

(** A filter of 64 bits and 3 hashes, whatever the sizing parameters. *)
Definition newBloomFilter (expected p : number) : Result (BloomFilter.t * string) :=
  match BloomFilter.create 64 3 with
  | Ok bf => Ok (bf, "Bloom filter initialized")
  | Throw e => Throw e
  end.

Definition world0 : World string := mkWorld [] 0.

(** A backend that holds nothing and accepts every write. *)
Definition emptyAdapter : StorageAdapter :=
  mkAdapter (fun _ => Ok None) (fun _ _ _ => Ok true) (fun _ => Ok false).

(** A backend that holds [v] at [k]. *)
Definition holding (k v : string) : StorageAdapter :=
  mkAdapter (fun k' => if String.eqb k' k then Ok (Some v) else Ok None)
            (fun _ _ _ => Ok true) (fun _ => Ok true).

(** A backend whose reads fail. *)
Definition brokenAdapter : StorageAdapter :=
  mkAdapter (fun _ => Throw (JsError "Storage error")) (fun _ _ _ => Ok true)
            (fun _ => Ok false).

Definition L1 (adapter : StorageAdapter) : MultiLevelManager.CacheLevel :=
  MultiLevelManager.mkLevel "L1-Memory" adapter 1 (Some 60000) true.

Definition L2 (adapter : StorageAdapter) : MultiLevelManager.CacheLevel :=
  MultiLevelManager.mkLevel "L2-Redis" adapter 2 (Some 3600000) true.

(** [new MultiLevelManager({ levels, fallbackStrategy })] without a Bloom
    filter; the levels are passed lowest priority first. *)
Definition multiLevel (l1 l2 : StorageAdapter)
    (strategy : option MultiLevelManager.FallbackStrategy)
  : Result (MultiLevelManager.t string) :=
  MultiLevelManager.constructor newBloomFilter
    (MultiLevelManager.mkOptions [L2 l2; L1 l1] strategy (mkManagerOptions false None))
    world0.

(** The manager a successful construction returns. *)
Definition constructed {S : Type} (r : Result S) (fallback : S) : S :=
  match r with Ok s => s | Throw _ => fallback end.

Definition noMultiLevel : MultiLevelManager.t string :=
  MultiLevelManager.mk None [] ∅
    (MultiLevelManager.mkOptions [] None (mkManagerOptions false None)) world0.

(** L1 is empty and L2 holds ["v"] at ["k"]. *)
Definition warmUpManager : MultiLevelManager.t string :=
  constructed (multiLevel emptyAdapter (holding "k" "v") None) noMultiLevel.

(** L1 fails and L2 is empty, under [fallbackStrategy: 'fail']. *)
Definition failManager : MultiLevelManager.t string :=
  constructed (multiLevel brokenAdapter emptyAdapter (Some MultiLevelManager.fail))
              noMultiLevel.

(** Under [fallbackStrategy: 'fail'] and with a Bloom filter that has seen
    no key: both levels empty, enabled or not. *)
Definition coldManager (levelsEnabled : bool) : MultiLevelManager.t string :=
  constructed
    (MultiLevelManager.constructor newBloomFilter
       (MultiLevelManager.mkOptions
          [ MultiLevelManager.mkLevel "L1-Memory" emptyAdapter 1 (Some 60000) levelsEnabled;
            MultiLevelManager.mkLevel "L2-Redis" emptyAdapter 2 (Some 3600000) levelsEnabled ]
          (Some MultiLevelManager.fail)
          (mkManagerOptions true (Some (mkBloomOptions None None))))
       world0)
    noMultiLevel.

(** The record a storage double answers a write with. *)
Definition written (k v : string) : CacheRecord string :=
  mkRecord k (Some v) 1000 0 false [].

(** A storage that holds [stored] at every key, answers [outdated] to
    [isOutdated], accepts writes and grants locks. *)
Definition storageWith (stored : option (CacheRecord string)) (outdated : Result bool)
  : Storage string :=
  mkStorage (fun _ => Ok stored) (fun _ => outdated)
            (fun k v _ => Ok (written k v))
            (fun _ => Ok true) (fun _ => Ok true).

(** A storage whose [get] fails. *)
Definition brokenStorage : Storage string :=
  mkStorage (fun _ => Throw (JsError "Storage error")) (fun _ => Ok false)
            (fun k v _ => Ok (written k v))
            (fun _ => Ok true) (fun _ => Ok true).

(** A stand-in for the inherited recompute path in the scenarios: it runs
    the executor of the context. *)
Definition recompute {S : Type} `{BaseManager string S}
    (context : ExecutorContext string) (o : ReadWriteOptions) : M S string :=
  runExecutor (ctx_executor context).

(** A record written at 0 ms with a TTL of 100 ms. *)
Definition shortLived (isPermanent : bool) : CacheRecord string :=
  mkRecord "k" (Some "v") 0 100 isPermanent [].

(** A record written at 0 ms with a TTL of 1200 ms: at 1000 ms it is still
    valid and past 80% of its TTL. *)
Definition aging : CacheRecord string :=
  mkRecord "k" (Some "v") 0 1200 false [].

(** A record written at 900 ms with a TTL of 1000 ms. *)
Definition recent : CacheRecord string :=
  mkRecord "k" (Some "v") 900 1000 false [].

Definition readThrough : ReadThroughManager.t string :=
  constructed (ReadThroughManager.constructor newBloomFilter (mkManagerOptions false None) world0)
              (ReadThroughManager.mk None world0).

Definition writeThrough : WriteThroughManager.t string :=
  constructed (WriteThroughManager.constructor newBloomFilter (mkManagerOptions false None) world0)
              (WriteThroughManager.mk None world0).

Definition refreshAhead (factor : option number) : Result (RefreshAheadManager.t string) :=
  RefreshAheadManager.constructor newBloomFilter
    (RefreshAheadManager.mkOptions factor (mkManagerOptions false None)) world0.

(** [new RefreshAheadManager({})]: the default factor 0.8. *)
Definition refreshAheadDefault : RefreshAheadManager.t string :=
  constructed (refreshAhead None) (RefreshAheadManager.mk NaN None world0).

End Scenario.

(** ** Vocabulary for the traces of the Multi-Level manager *)

(** The levels read, in order: the [level.storage.get] calls of a trace. *)
Definition levelReads {R : Type} (evs : list (Event R)) : list string :=
  omap (fun e => match e with LevelGet l _ => Some l | _ => None end) evs.

(** The level writes of a trace, in order: level, key, serialized value and
    TTL of each [level.storage.set] call. *)
Definition levelWrites {R : Type} (evs : list (Event R))
  : list (string * string * string * option Z) :=
  omap (fun e => match e with LevelSet l k v t => Some (l, k, v, t) | _ => None end) evs.

(** The level deletions of a trace, in order. *)
Definition levelDeletes {R : Type} (evs : list (Event R)) : list string :=
  omap (fun e => match e with LevelDel l _ => Some l | _ => None end) evs.

(** Ascending priority. *)
Definition levelOrder (a b : MultiLevelManager.CacheLevel) : Prop :=
  MultiLevelManager.priority a <= MultiLevelManager.priority b.

(** The enabled levels, in order. *)
Definition enabledLevels (ls : list MultiLevelManager.CacheLevel)
  : list MultiLevelManager.CacheLevel :=
  filter (fun l => MultiLevelManager.enabled l = true) ls.




(** The level is enabled and its [del] of the key returns true. *)
Definition deletedBy (k : string) (l : MultiLevelManager.CacheLevel) : bool :=
  MultiLevelManager.enabled l &&
  match adapter_del (MultiLevelManager.storage l) k with
  | Ok true => true
  | _ => false
  end.

(** The level named [n] with [enabled] set to [b]; every other level as it
    is. *)
Definition switched (n : string) (b : bool) (l : MultiLevelManager.CacheLevel)
  : MultiLevelManager.CacheLevel :=
  if decide (MultiLevelManager.name l = n) then MultiLevelManager.withEnabled l b else l.

(** The executor runs of a trace. *)
Definition executorRuns {R : Type} (evs : list (Event R)) : nat :=
  length (omap (fun e => match e with ExecutorRun => Some tt | _ => None end) evs).

(** ** In-memory storage adapter ([adapters/InMemoryStorageAdapter.ts]) *)

Module InMemoryStorageAdapter.

Definition DEFAULT_MAX_SIZE : Z := 10000.

Record CacheItem : Type := mkItem {
  item_value : string;
  expiresAt : option Z;
  item_createdAt : Z
}.

(** A [Map<string, CacheItem>]: the entries in insertion order, one per
    key. *)
Definition Entries : Type := list (string * CacheItem).

Fixpoint map_get (k : string) (m : Entries) : option CacheItem :=
  match m with
  | [] => None
  | (k', item) :: rest => if String.eqb k' k then Some item else map_get k rest
  end.

Definition map_has (k : string) (m : Entries) : bool :=
  bool_decide (is_Some (map_get k m)).

(** [Map.set]: an existing key keeps its place, a new key goes last. *)
Fixpoint map_set (k : string) (item : CacheItem) (m : Entries) : Entries :=
  match m with
  | [] => [(k, item)]
  | (k', item') :: rest =>
      if String.eqb k' k then (k', item) :: rest
      else (k', item') :: map_set k item rest
  end.

(** [Map.delete]: the entry of the key goes, the others keep their order. *)
Fixpoint map_delete (k : string) (m : Entries) : Entries :=
  match m with
  | [] => []
  | (k', item') :: rest =>
      if String.eqb k' k then map_delete k rest else (k', item') :: map_delete k rest
  end.

(** [key.endsWith(suffix)] *)
Definition endsWith (suffix s : string) : bool :=
  let n := String.length s in
  let m := String.length suffix in
  (m <=? n)%nat && String.eqb (substring (n - m) m s) suffix.

Definition lockKeyOf (k : string) : string := k +:+ "_lock".

Record t : Type := mk {
  storage : Entries;
  locks : gset string;
  maxSize : Z;
  its_world : World string
}.

(** The adapter reads the clock of the world; it logs nothing. *)
#[global] Instance clocked : BaseManager string t := {|
  world := its_world;
  with_world := fun w s => mk (storage s) (locks s) (maxSize s) w
|}.

(** [new InMemoryStorageAdapter(options)], the interval timer apart. *)
Definition constructor (optMaxSize : option Z) (w : World string) : t :=
  mk [] ∅ (default DEFAULT_MAX_SIZE optMaxSize) w.

Definition setStorage (f : Entries -> Entries) : M t unit :=
  modify (fun s => mk (f (storage s)) (locks s) (maxSize s) (its_world s)).

Definition setLocks (f : gset string -> gset string) : M t unit :=
  modify (fun s => mk (storage s) (f (locks s)) (maxSize s) (its_world s)).

(** The loop of [evictOldest]: the first entry with the least [createdAt]
    among those whose key does not end in [_lock]. *)
Fixpoint oldest (m : Entries) (oldestKey : option string) (oldestTime : option Z)
  : option string :=
  match m with
  | [] => oldestKey
  | (k, item) :: rest =>
      if endsWith "_lock" k then oldest rest oldestKey oldestTime
      else
        match oldestTime with
        | Some time =>
            if item_createdAt item <? time
            then oldest rest (Some k) (Some (item_createdAt item))
            else oldest rest oldestKey oldestTime
        | None => oldest rest (Some k) (Some (item_createdAt item))
        end
  end.

Definition evictOldest (m : Entries) : Entries :=
  match oldest m None None with
  | Some oldestKey => map_delete oldestKey m
  | None => m
  end.

(** [if (size >= maxSize && !has(key)) evictOldest()] *)
Definition makeRoom (k : string) : M t unit :=
  (let* s := gets (fun s => s) in
   if (maxSize s <=? Z.of_nat (length (storage s))) && negb (map_has k (storage s))
   then setStorage evictOldest
   else ret tt)%method.

Section Methods.
Variable clock : nat -> Z.

Definition set (k v : string) (expiresIn : option Z) : M t bool :=
  (let* expiresAt :=
     (if MultiLevelManager.truthyNumber expiresIn
      then let* now := dateNow clock in ret (Some (now + default 0 expiresIn))
      else ret None) in
   run makeRoom k in
   let* createdAt := dateNow clock in
   run setStorage (map_set k (mkItem v expiresAt createdAt)) in
   ret true)%method.

Fixpoint mset_loop (now : Z) (values : list (string * string)) : M t unit :=
  match values with
  | [] => ret tt
  | (k, v) :: rest =>
      (run makeRoom k in
       run setStorage (map_set k (mkItem v None now)) in
       mset_loop now rest)%method
  end.

Definition mset (values : list (string * string)) : M t unit :=
  (let* now := dateNow clock in mset_loop now values)%method.

(** [item.expiresAt && now > item.expiresAt] for a [now] already read. *)
Definition expiredAt (now : Z) (item : CacheItem) : bool :=
  MultiLevelManager.truthyNumber (expiresAt item) && (now >? default 0 (expiresAt item)).

(** [item.expiresAt && Date.now() > item.expiresAt]: the clock is read only
    when [expiresAt] is truthy. *)
Definition isExpired (item : CacheItem) : M t bool :=
  (if MultiLevelManager.truthyNumber (expiresAt item)
   then let* now := dateNow clock in ret (now >? default 0 (expiresAt item))
   else ret false)%method.

Definition get (k : string) : M t (option string) :=
  (let* m := gets storage in
   match map_get k m with
   | None => ret None
   | Some item =>
       let* expired := isExpired item in
       if (expired : bool) then
         run setStorage (map_delete k) in
         ret None
       else ret (Some (item_value item))
   end)%method.

Fixpoint mget_loop (now : Z) (keys : list string) (results : list (option string))
  : M t (list (option string)) :=
  match keys with
  | [] => ret results
  | k :: rest =>
      (let* m := gets storage in
       match map_get k m with
       | None => mget_loop now rest (results ++ [None])
       | Some item =>
           if expiredAt now item then
             run setStorage (map_delete k) in
             mget_loop now rest (results ++ [None])
           else mget_loop now rest (results ++ [Some (item_value item)])
       end)%method
  end.

Definition mget (keys : list string) : M t (list (option string)) :=
  (let* now := dateNow clock in mget_loop now keys [])%method.

(** [Map.delete] returns whether the key was there. *)
Definition del (k : string) : M t bool :=
  (let* m := gets storage in
   run setStorage (map_delete k) in
   ret (map_has k m))%method.

Definition acquireLock (k : string) (lockExpireTimeout : option Z) : M t bool :=
  (let lockKey := lockKeyOf k in
   let* now := dateNow clock in
   let expiresAt :=
     if MultiLevelManager.truthyNumber lockExpireTimeout
     then now + default 0 lockExpireTimeout
     else now + 20000 in
   let* m := gets storage in
   let* held :=
     match map_get lockKey m with
     | None => ret false
     | Some lockItem =>
         if negb (MultiLevelManager.truthyNumber (InMemoryStorageAdapter.expiresAt lockItem))
         then ret true
         else
           let* now' := dateNow clock in
           ret (now' <? default 0 (InMemoryStorageAdapter.expiresAt lockItem))
     end in
   if (held : bool) then ret false
   else
     let* createdAt := dateNow clock in
     run setStorage (map_set lockKey (mkItem "locked" (Some expiresAt) createdAt)) in
     run setLocks (fun l => {[lockKey]} ∪ l) in
     ret true)%method.

Definition releaseLock (k : string) : M t bool :=
  (let lockKey := lockKeyOf k in
   let* l := gets locks in
   let wasLocked := bool_decide (lockKey ∈ l) in
   run setStorage (map_delete lockKey) in
   run setLocks (fun l => l ∖ {[lockKey]}) in
   ret wasLocked)%method.

Definition isLockExists (k : string) : M t bool :=
  (let lockKey := lockKeyOf k in
   let* m := gets storage in
   match map_get lockKey m with
   | None => ret false
   | Some lockItem =>
       let* expired := isExpired lockItem in
       if (expired : bool) then
         run setStorage (map_delete lockKey) in
         run setLocks (fun l => l ∖ {[lockKey]}) in
         ret false
       else ret true
   end)%method.

(** [cleanup()], which the interval timer calls: the expired keys are
    collected first and deleted afterwards, from the entries and from the
    lock set. *)
Definition cleanup : M t unit :=
  (let* now := dateNow clock in
   let* m := gets storage in
   let keysToDelete := map fst (filter (fun e => expiredAt now e.2 = true) m) in
   run setStorage (fun m => foldl (fun acc k => map_delete k acc) m keysToDelete) in
   setLocks (fun l => foldl (fun acc k => acc ∖ {[k]}) l keysToDelete))%method.

End Methods.

(** [destroy()], the timer apart. *)
Definition destroy : M t unit :=
  modify (fun s => mk [] ∅ (maxSize s) (its_world s)).

Definition getStats (s : t) : Z * Z * Z :=
  (Z.of_nat (length (storage s)), Z.of_nat (size (locks s)), maxSize s).

(** What a reader that reads the clock at [now] gets for [k] from the
    entries [m]. *)
Definition visible (m : Entries) (k : string) (now : Z) : option string :=
  match map_get k m with
  | Some item => if expiredAt now item then None else Some (item_value item)
  | None => None
  end.

(** The time at which a value written at [now] with [expiresIn] expires, if
    it does: [expiresIn ? now + expiresIn : undefined]. *)
Definition expiryOf (now : Z) (expiresIn : option Z) : option Z :=
  if MultiLevelManager.truthyNumber expiresIn then Some (now + default 0 expiresIn) else None.

(** The deadline of a lock taken at [now]:
    [lockExpireTimeout ? now + lockExpireTimeout : now + 20000]. *)
Definition lockDeadline (now : Z) (lockExpireTimeout : option Z) : Z :=
  if MultiLevelManager.truthyNumber lockExpireTimeout
  then now + default 0 lockExpireTimeout
  else now + 20000.

(** The entries after [makeRoom]. *)
Definition roomFor (k : string) (limit : Z) (m : Entries) : Entries :=
  if (limit <=? Z.of_nat (length m)) && negb (map_has k m) then evictOldest m else m.

(** The keys of a [Map] are distinct. *)
Definition distinct_keys (s : t) : Prop := NoDup (map fst (storage s)).

End InMemoryStorageAdapter.

(** ** Scenarios with a Bloom filter and with empty levels *)

Module TierScenario.

(** The filter of 64 bits and 3 hashes the scenarios construct. *)
Definition filter64 : BloomFilter.t :=
  Scenario.constructed (BloomFilter.create 64 3) (BloomFilter.mk [] 0 0 0).


End TierScenario.

(** ** Scenarios on the in-memory adapter *)

Module MemoryScenario.

(** [new InMemoryStorageAdapter({ maxSize: 2 })] *)
Definition empty : InMemoryStorageAdapter.t :=
  InMemoryStorageAdapter.constructor (Some 2) (mkWorld [] 0).

(** ... after [set("key1", "value1")], created at 1000 ms, and
    [set("key2", "value2", 500)], whose expiry is counted from 1001 ms and
    which is created at 1002 ms. *)
Definition full : InMemoryStorageAdapter.t :=
  (InMemoryStorageAdapter.set Scenario.clock "key2" "value2" (Some 500)
     (InMemoryStorageAdapter.set Scenario.clock "key1" "value1" None empty).2).2.

End MemoryScenario.

(** * Properties *)

(** ** Bloom filter *)

Module BloomFilterFacts.
Import BloomFilter.

Lemma land_pow2_eqb (x o : Z) :
  0 <= o -> (Z.land x (2 ^ o) =? 0) = negb (Z.testbit x o).
Proof.
  intros Ho. destruct (Z.testbit x o) eqn:Hb; simpl.
  - apply Z.eqb_neq. intros H0.
    assert (Hbit : Z.testbit (Z.land x (2 ^ o)) o = true).
    { rewrite Z.land_spec, Hb, Z.pow2_bits_true by lia. reflexivity. }
    rewrite H0, Z.bits_0 in Hbit. discriminate.
  - apply Z.eqb_eq. apply Z.bits_inj'. intros n Hn.
    rewrite Z.land_spec, Z.bits_0, Z.pow2_bits_eqb by lia.
    destruct (Z.eqb_spec o n) as [->|_].
    + rewrite Hb. reflexivity.
    + apply andb_false_r.
Qed.

Lemma toInt32_small (z : Z) : 0 <= z < 2 ^ 31 -> toInt32 z = z.
Proof.
  intros Hz. unfold toInt32.
  rewrite Z.mod_small by lia.
  destruct (Z.leb_spec (2 ^ 31) z); lia.
Qed.

Lemma bitMaskOf_nonneg (b : Z) :
  0 <= b -> bitMaskOf (Some b) = 2 ^ (b mod 8).
Proof.
  intros Hb. unfold bitMaskOf.
  rewrite Z.rem_mod_nonneg by lia.
  assert (Ho : 0 <= b mod 8 < 8) by (apply Z.mod_pos_bound; lia).
  rewrite (Z.mod_small (b mod 8) 32) by lia.
  rewrite Z.shiftl_1_l.
  apply toInt32_small. split.
  - apply Z.pow_nonneg. lia.
  - apply Z.pow_lt_mono_r; lia.
Qed.

Lemma bitIndexOf_pos (h sz : Z) :
  0 < sz -> 0 <= h -> bitIndexOf h sz = Some (h mod sz).
Proof.
  intros Hsz Hh. unfold bitIndexOf.
  destruct (Z.eqb_spec sz 0) as [?|_]; [lia|].
  rewrite Z.rem_mod_nonneg by lia. reflexivity.
Qed.

(** [testBit] reads bit [h mod sz] of the array. *)
Lemma testBit_spec (sz : Z) (arr : list Z) (h : Z) :
  0 < sz -> 0 <= h ->
  testBit sz arr h =
    Z.testbit (default 0 (arr !! Z.to_nat (h mod sz / 8))) (h mod sz mod 8).
Proof.
  intros Hsz Hh. unfold testBit.
  rewrite (bitIndexOf_pos h sz) by assumption.
  assert (Hb : 0 <= h mod sz < sz) by (apply Z.mod_pos_bound; lia).
  rewrite bitMaskOf_nonneg by lia.
  assert (Hq : 0 <= h mod sz / 8) by (apply Z.div_pos; lia).
  unfold byteIndexOf, readByte. cbn [fmap option_fmap option_map].
  destruct (Z.leb_spec 0 (h mod sz / 8)); [|lia].
  rewrite land_pow2_eqb by (apply Z.mod_pos_bound; lia).
  apply negb_involutive.
Qed.

Lemma setBit_length (sz : Z) (arr : list Z) (h : Z) :
  length (setBit sz arr h) = length arr.
Proof.
  unfold setBit, writeByte.
  destruct (byteIndexOf (bitIndexOf h sz)) as [b|]; [|reflexivity].
  destruct (0 <=? b); [apply length_insert | reflexivity].
Qed.

Lemma testbit_byte_lor (x m o : Z) :
  0 <= o < 8 ->
  Z.testbit (Z.lor x m mod 256) o = Z.testbit x o || Z.testbit m o.
Proof.
  intros Ho. change 256 with (2 ^ 8).
  rewrite Z.mod_pow2_bits_low by lia. apply Z.lor_spec.
Qed.

(** A bit that is set stays set when another bit is set. *)
Lemma setBit_keeps (sz : Z) (arr : list Z) (h h' : Z) :
  0 < sz -> 0 <= h ->
  testBit sz arr h = true -> testBit sz (setBit sz arr h') h = true.
Proof.
  intros Hsz Hh. rewrite !testBit_spec by assumption.
  set (n := Z.to_nat (h mod sz / 8)). set (o := h mod sz mod 8).
  assert (Ho : 0 <= o < 8) by (apply Z.mod_pos_bound; lia).
  intros Hset. unfold setBit, writeByte, readByte.
  destruct (byteIndexOf (bitIndexOf h' sz)) as [b|] eqn:Hb; [|exact Hset].
  destruct (0 <=? b); [|exact Hset].
  destruct (decide (Z.to_nat b = n)) as [Heq|Hne].
  - destruct (decide (n < length arr)%nat) as [Hlt|Hge].
    + rewrite Heq, list_lookup_insert_eq by exact Hlt. simpl.
      rewrite testbit_byte_lor by exact Ho.
      rewrite Hset. reflexivity.
    + rewrite list_insert_ge by lia. exact Hset.
  - rewrite list_lookup_insert_ne by exact Hne. exact Hset.
Qed.

(** Setting a bit inside the array makes its test succeed. *)
Lemma setBit_sets (sz : Z) (arr : list Z) (h : Z) :
  0 < sz -> 0 <= h -> length arr = Z.to_nat ((sz + 7) / 8) ->
  testBit sz (setBit sz arr h) h = true.
Proof.
  intros Hsz Hh Hlen. rewrite testBit_spec by assumption.
  unfold setBit. rewrite (bitIndexOf_pos h sz) by assumption.
  assert (Hb : 0 <= h mod sz < sz) by (apply Z.mod_pos_bound; lia).
  rewrite bitMaskOf_nonneg by lia.
  unfold byteIndexOf, writeByte. cbn [fmap option_fmap option_map].
  assert (Hq : 0 <= h mod sz / 8) by (apply Z.div_pos; lia).
  assert (Hin : (Z.to_nat (h mod sz / 8) < length arr)%nat).
  { rewrite Hlen. apply Z2Nat.inj_lt; [lia | apply Z.div_pos; lia |].
    apply Z.div_lt_upper_bound; [lia|].
    pose proof (Z.mul_div_le (sz + 7) 8 ltac:(lia)).
    pose proof (Z.mod_pos_bound (sz + 7) 8 ltac:(lia)).
    pose proof (Z.div_mod (sz + 7) 8 ltac:(lia)). lia. }
  destruct (Z.leb_spec 0 (h mod sz / 8)); [|lia].
  rewrite list_lookup_insert_eq by exact Hin. simpl.
  assert (Ho : 0 <= h mod sz mod 8 < 8) by (apply Z.mod_pos_bound; lia).
  rewrite testbit_byte_lor by exact Ho.
  rewrite Z.pow2_bits_true by lia. apply orb_true_r.
Qed.

Lemma setBits_length (sz : Z) (hs : list Z) (arr : list Z) :
  length (fold_left (setBit sz) hs arr) = length arr.
Proof.
  revert arr. induction hs as [|h hs IH]; intros arr; simpl; [reflexivity|].
  rewrite IH. apply setBit_length.
Qed.

Lemma setBits_keeps (sz : Z) (hs : list Z) (arr : list Z) (h : Z) :
  0 < sz -> 0 <= h ->
  testBit sz arr h = true -> testBit sz (fold_left (setBit sz) hs arr) h = true.
Proof.
  intros Hsz Hh. revert arr.
  induction hs as [|h' hs IH]; intros arr Hset; simpl; [exact Hset|].
  apply IH. apply setBit_keeps; assumption.
Qed.

Lemma setBits_sets (sz : Z) (hs : list Z) (arr : list Z) (h : Z) :
  0 < sz -> 0 <= h -> length arr = Z.to_nat ((sz + 7) / 8) ->
  h ∈ hs -> testBit sz (fold_left (setBit sz) hs arr) h = true.
Proof.
  intros Hsz Hh. revert arr.
  induction hs as [|h' hs IH]; intros arr Hlen Hin; simpl.
  - inversion Hin.
  - apply elem_of_cons in Hin as [->|Hin].
    + apply setBits_keeps; [assumption..|]. apply setBit_sets; assumption.
    + apply IH; [|exact Hin]. rewrite setBit_length. exact Hlen.
Qed.

Lemma mightContain_loop_true (sz : Z) (arr : list Z) (hs : list Z) :
  mightContain_loop sz arr hs = true <-> (forall h, h ∈ hs -> testBit sz arr h = true).
Proof.
  induction hs as [|h hs IH]; simpl.
  - split; [intros _ h Hh; inversion Hh | reflexivity].
  - destruct (testBit sz arr h) eqn:Hb.
    + rewrite IH. split.
      * intros Hall h' Hin. apply elem_of_cons in Hin as [->|Hin]; auto.
      * intros Hall h' Hin. apply Hall. apply elem_of_cons. right. exact Hin.
    + split; [discriminate|]. intros Hall.
      rewrite <- Hb. apply Hall. apply elem_of_cons. left. reflexivity.
Qed.

Lemma hash_nonneg (k : list Z) (seed : Z) : 0 <= hash k seed.
Proof. apply Z.abs_nonneg. Qed.

Lemma getHashes_nonneg (bf : t) (k : list Z) (h : Z) :
  h ∈ getHashes bf k -> 0 <= h.
Proof.
  unfold getHashes. intros Hin.
  apply list_elem_of_fmap in Hin as (i & -> & _). apply hash_nonneg.
Qed.

Lemma add_well_formed (bf : t) (k : list Z) :
  well_formed bf -> well_formed (add bf k).
Proof.
  intros [Hsz Hlen]. split; simpl; [exact Hsz|].
  rewrite setBits_length. exact Hlen.
Qed.

Lemma create_well_formed (sz hc : Z) :
  0 < sz -> exists bf, create sz hc = Ok bf /\ well_formed bf.
Proof.
  intros Hsz. unfold create.
  assert (Hb : 0 <= (sz + 7) / 8) by (apply Z.div_pos; lia).
  destruct (Z.ltb_spec ((sz + 7) / 8) 0); [lia|].
  eexists. split; [reflexivity|].
  split; simpl; [exact Hsz | apply length_replicate].
Qed.

(** Right after [add(k)] the filter answers true for [k]. *)
Lemma add_mightContain (bf : t) (k : list Z) :
  well_formed bf -> mightContain (add bf k) k = true.
Proof.
  intros [Hsz Hlen]. unfold mightContain.
  apply mightContain_loop_true. intros h Hin. simpl in *.
  change (getHashes (add bf k) k) with (getHashes bf k) in Hin.
  apply setBits_sets; try assumption. eapply getHashes_nonneg, Hin.
Qed.

(** A later [add] never turns a true answer into false. *)
Lemma add_keeps_mightContain (bf : t) (k k' : list Z) :
  well_formed bf -> mightContain bf k = true -> mightContain (add bf k') k = true.
Proof.
  intros [Hsz Hlen]. unfold mightContain.
  rewrite !mightContain_loop_true. intros Hall h Hin. simpl in *.
  change (getHashes (add bf k') k) with (getHashes bf k) in Hin.
  apply setBits_keeps; [assumption | eapply getHashes_nonneg, Hin |].
  apply Hall, Hin.
Qed.

Lemma addAll_well_formed (keys : list (list Z)) (bf : t) :
  well_formed bf -> well_formed (addAll bf keys).
Proof.
  revert bf. induction keys as [|k keys IH]; intros bf Hwf; simpl; [exact Hwf|].
  apply IH, add_well_formed, Hwf.
Qed.

Lemma addAll_keeps_mightContain (keys : list (list Z)) (bf : t) (k : list Z) :
  well_formed bf -> mightContain bf k = true -> mightContain (addAll bf keys) k = true.
Proof.
  revert bf. induction keys as [|k' keys IH]; intros bf Hwf Hk; simpl; [exact Hk|].
  apply IH; [apply add_well_formed, Hwf|]. apply add_keeps_mightContain; assumption.
Qed.

Lemma addAll_mightContain (keys : list (list Z)) (bf : t) (k : list Z) :
  well_formed bf -> k ∈ keys -> mightContain (addAll bf keys) k = true.
Proof.
  revert bf. induction keys as [|k' keys IH]; intros bf Hwf Hin; simpl.
  - inversion Hin.
  - apply elem_of_cons in Hin as [->|Hin].
    + apply addAll_keeps_mightContain; [apply add_well_formed, Hwf|].
      apply add_mightContain, Hwf.
    + apply IH; [apply add_well_formed, Hwf | exact Hin].
Qed.

(** C6 (Bloom safety). A filter sized with a positive number of bits [sz]
    (and any hash count) is constructed, and after any sequence [keys] of
    [add] calls on it, with no [clear] in between: if [k] was added then
    [mightContain k] is true, and if [mightContain k] is false then [k] was
    never added. *)
Theorem bloom_safety (sz hc : Z) :
  0 < sz ->
  exists bf,
    create sz hc = Ok bf /\
    forall (keys : list (list Z)) (k : list Z),
      (k ∈ keys -> mightContain (addAll bf keys) k = true) /\
      (mightContain (addAll bf keys) k = false -> k ∉ keys).
Proof.
  intros Hsz.
  destruct (create_well_formed sz hc Hsz) as (bf & Hbf & Hwf).
  exists bf. split; [exact Hbf|]. intros keys k.
  assert (Hyes : k ∈ keys -> mightContain (addAll bf keys) k = true).
  { intros Hin. apply addAll_mightContain; assumption. }
  split; [exact Hyes|].
  intros Hno Hin. rewrite (Hyes Hin) in Hno. discriminate.
Qed.

(** A filter of 64 bits and 3 hashes. *)
Lemma bloom_safety_witness :
  0 < 64 /\
  exists bf,
    create 64 3 = Ok bf /\
    forall (keys : list (list Z)) (k : list Z),
      (k ∈ keys -> mightContain (addAll bf keys) k = true) /\
      (mightContain (addAll bf keys) k = false -> k ∉ keys).
Proof.
  split; [lia|]. apply (bloom_safety 64 3). lia.
Defined.

(** The filter of scenario 5: after [add("alpha")] the filter knows
    ["alpha"] and, here, not ["beta"]. *)
Example bloom_alpha_beta :
  exists bf,
    create 64 3 = Ok bf /\
    mightContain (add bf (charCodes "alpha")) (charCodes "alpha") = true /\
    mightContain (add bf (charCodes "alpha")) (charCodes "beta") = false /\
    mightContain bf (charCodes "alpha") = false.
Proof.
  eexists. split; [reflexivity|]. vm_compute. repeat split.
Qed.

(** The size has to be positive. Sized with -4 bits and 3 hashes (what the
    sizing formulas give for the meaningless [expectedElements = -1]), the
    byte array is empty, every write falls outside it, and the filter
    answers false for a key that was added. *)
Example bloom_without_bits :
  exists bf,
    create (-4) 3 = Ok bf /\
    bitArray bf = [] /\
    mightContain (add bf (charCodes "alpha")) (charCodes "alpha") = false.
Proof.
  eexists. split; [reflexivity|]. vm_compute. split; reflexivity.
Qed.

End BloomFilterFacts.

(** ** Invariants through the method combinators *)

Module MethodFacts.

Section Preserves.
Context {S : Type} (P : S -> Prop).

Lemma preserves_ret {A : Type} (a : A) : preserves P (ret a).
Proof. intros s Hs. exact Hs. Qed.

Lemma preserves_throw {A : Type} (e : Error) : preserves P (@throw S A e).
Proof. intros s Hs. exact Hs. Qed.

Lemma preserves_lift {A : Type} (r : Result A) : preserves P (lift r).
Proof. intros s Hs. exact Hs. Qed.

Lemma preserves_gets {A : Type} (f : S -> A) : preserves P (gets f).
Proof. intros s Hs. exact Hs. Qed.

Lemma preserves_bind {A B : Type} (c : M S A) (k : A -> M S B) :
  preserves P c -> (forall a, preserves P (k a)) -> preserves P (bind c k).
Proof.
  intros Hc Hk s Hs. unfold bind. specialize (Hc s Hs).
  destruct (c s) as [[a|e] s']; simpl in *; [apply Hk, Hc | exact Hc].
Qed.

Lemma preserves_try_catch {A : Type} (c : M S A) (h : Error -> M S A) :
  preserves P c -> (forall e, preserves P (h e)) -> preserves P (try_catch c h).
Proof.
  intros Hc Hh s Hs. unfold try_catch. specialize (Hc s Hs).
  destruct (c s) as [[a|e] s']; simpl in *; [exact Hc | apply Hh, Hc].
Qed.

Lemma preserves_try_finally {A : Type} (c : M S A) (f : M S unit) :
  preserves P c -> preserves P f -> preserves P (try_finally c f).
Proof.
  intros Hc Hf s Hs. unfold try_finally. specialize (Hc s Hs).
  destruct (c s) as [r s']. simpl in Hc. specialize (Hf s' Hc).
  destruct (f s') as [[u|e] s'']; exact Hf.
Qed.

Lemma preserves_attempt {A : Type} (c : M S A) :
  preserves P c -> preserves P (attempt c).
Proof.
  intros Hc s Hs. unfold attempt. specialize (Hc s Hs).
  destruct (c s) as [r s']. exact Hc.
Qed.

Lemma preserves_modify (f : S -> S) :
  (forall s, P s -> P (f s)) -> preserves P (modify f).
Proof. intros Hf s Hs. apply Hf, Hs. Qed.

End Preserves.

Create HintDb preserves discriminated.

#[export] Hint Resolve preserves_ret preserves_throw preserves_lift preserves_gets
  preserves_attempt : preserves.

(** Goes through a method along its binds, handlers and case distinctions,
    leaving the primitive calls to the hints. *)
Ltac preserve :=
  repeat first
    [ solve [auto with preserves]
    | apply preserves_bind; [|intro]
    | apply preserves_try_catch; [|intro]
    | apply preserves_try_finally
    | match goal with
      | |- preserves _ (if ?b then _ else _) => destruct b
      | |- preserves _ (match ?x with _ => _ end) => destruct x
      end ].

End MethodFacts.

(** ** Multi-Level manager *)

Module MultiLevelFacts.
Import MultiLevelManager.

Import MethodFacts.

Section Facts.
Context {R : Type}.
Variable clock : nat -> Z.
Variable deserialize : string -> Result R.
Variable serialize : R -> string.
Variable newRecord : string -> R -> list Tag -> WriteOptions -> CacheRecord R.

(** *** The counters of every level exist: an invariant of the manager *)

Lemma foldl_insert_is_Some (ls : list CacheLevel) :
  forall (acc : gmap string Counters) (n : string),
    is_Some (acc !! n) \/ (exists l, l ∈ ls /\ name l = n) ->
    is_Some (foldl (fun acc level => <[name level := zeroCounters]> acc) acc ls !! n).
Proof.
  induction ls as [|x ls IH]; intros acc n Hn; simpl.
  - destruct Hn as [Hn|(l & Hl & _)]; [exact Hn | inversion Hl].
  - apply IH. destruct Hn as [Hn|(l & Hl & Hname)].
    + left. apply lookup_insert_is_Some'. right. exact Hn.
    + apply elem_of_cons in Hl as [->|Hl].
      * left. rewrite Hname. apply lookup_insert_is_Some'. left. reflexivity.
      * right. exists l. split; assumption.
Qed.

(** The constructor establishes the invariant. *)
Lemma constructor_metrics_ok
    (newBloomFilter : number -> number -> Result (BloomFilter.t * string))
    (opts : MultiLevelManagerOptions) (w : World R) (m : t R) :
  constructor newBloomFilter opts w = Ok m -> metrics_ok m.
Proof.
  unfold constructor.
  destruct (initBloomFilter newBloomFilter (managerOptions opts) "MultiLevelManager" w)
    as [[bf w']|e]; [|discriminate].
  intros [= <-] l Hl. simpl in *.
  apply foldl_insert_is_Some. right. exists l. split; [exact Hl | reflexivity].
Qed.

Lemma metrics_ok_emit (e : Event R) : preserves (@metrics_ok R) (emit e).
Proof. intros s Hs. exact Hs. Qed.

Lemma metrics_ok_logger (lvl : LogLevel) (args : list LogArg) :
  preserves (@metrics_ok R) (logger (R := R) lvl args).
Proof. apply metrics_ok_emit. Qed.

Lemma metrics_ok_dateNow : preserves (@metrics_ok R) (dateNow (R := R) clock).
Proof. intros s Hs. exact Hs. Qed.

Lemma metrics_ok_runExecutor (ex : Executor R) : preserves (@metrics_ok R) (runExecutor ex).
Proof.
  unfold runExecutor. apply preserves_bind; [apply metrics_ok_emit|].
  intros _. apply preserves_lift.
Qed.

Lemma metrics_ok_bump (f : Counters -> Counters) (n : string) :
  preserves (@metrics_ok R) (bump f n).
Proof.
  intros s Hs. unfold bump.
  destruct (metrics s !! n) as [c|] eqn:Hc; simpl; [|exact Hs].
  intros l Hl. simpl in *. apply lookup_insert_is_Some'. right. apply Hs, Hl.
Qed.

Lemma metrics_ok_bloomAdd (k : string) : preserves (@metrics_ok R) (bloomAdd (R := R) k).
Proof.
  intros s Hs. unfold bloomAdd, modify. simpl.
  destruct (bloomFilter s); exact Hs.
Qed.

Lemma metrics_ok_level_get (level : CacheLevel) (k : string) :
  preserves (@metrics_ok R) (level_get (R := R) level k).
Proof.
  unfold level_get. apply preserves_bind; [apply metrics_ok_emit|].
  intros _. apply preserves_lift.
Qed.

Lemma metrics_ok_level_set (level : CacheLevel) (k v : string) (e : option Z) :
  preserves (@metrics_ok R) (level_set (R := R) level k v e).
Proof.
  unfold level_set. apply preserves_bind; [apply metrics_ok_emit|].
  intros _. apply preserves_lift.
Qed.

Lemma metrics_ok_level_del (level : CacheLevel) (k : string) :
  preserves (@metrics_ok R) (level_del (R := R) level k).
Proof.
  unfold level_del. apply preserves_bind; [apply metrics_ok_emit|].
  intros _. apply preserves_lift.
Qed.

#[local] Hint Resolve metrics_ok_emit metrics_ok_logger metrics_ok_dateNow
  metrics_ok_runExecutor metrics_ok_bump metrics_ok_bloomAdd metrics_ok_level_get
  metrics_ok_level_set metrics_ok_level_del : preserves.

Lemma metrics_ok_populate_loop (k : string) (v : R) (opts : WriteOptions)
    (ls : list CacheLevel) :
  preserves (@metrics_ok R) (populate_loop serialize k v opts ls).
Proof.
  induction ls as [|level rest IH]; simpl; preserve.
Qed.

Lemma metrics_ok_populateHigherLevels (k : string) (v : R) (opts : WriteOptions) :
  preserves (@metrics_ok R) (populateHigherLevels serialize k v opts).
Proof.
  unfold populateHigherLevels. preserve. apply metrics_ok_populate_loop.
Qed.

#[local] Hint Resolve metrics_ok_populateHigherLevels : preserves.

Lemma metrics_ok_walk (k : string) (opts : ReadWriteOptions) (ls : list CacheLevel) :
  preserves (@metrics_ok R) (walk deserialize serialize k opts ls).
Proof.
  induction ls as [|level rest IH]; simpl; preserve.
Qed.

Lemma metrics_ok_set_loop (k v : string) (opts : option WriteOptions)
    (ls : list CacheLevel) :
  forall used, preserves (@metrics_ok R) (set_loop k v opts ls used).
Proof.
  induction ls as [|level rest IH]; intros used; simpl; preserve.
Qed.

Lemma metrics_ok_set (k : string) (v : R) (opts : option WriteOptions) :
  preserves (@metrics_ok R) (set clock serialize newRecord k v opts).
Proof.
  unfold set. preserve. apply metrics_ok_set_loop.
Qed.

Lemma metrics_ok_del_loop (k : string) (ls : list CacheLevel) :
  forall success, preserves (@metrics_ok R) (del_loop (R := R) k ls success).
Proof.
  induction ls as [|level rest IH]; intros success; simpl; preserve.
Qed.

Lemma metrics_ok_del (k : string) : preserves (@metrics_ok R) (del (R := R) k).
Proof.
  unfold del. preserve. apply metrics_ok_del_loop.
Qed.

#[local] Hint Resolve metrics_ok_walk metrics_ok_set : preserves.

Lemma metrics_ok_get (k : string) (ex : Executor R) (opts : ReadWriteOptions) :
  preserves (@metrics_ok R) (get clock deserialize serialize newRecord k ex opts).
Proof.
  unfold get, get_from_levels, handleNextLevelFallback, handleExecutorFallback.
  preserve.
Qed.

Lemma metrics_ok_setLevelEnabled (levelName : string) (b : bool) (what : string) :
  preserves (@metrics_ok R) (setLevelEnabled (R := R) levelName b what).
Proof.
  intros s Hs. unfold setLevelEnabled, bind, gets. simpl.
  destruct (list_find (fun l => name l = levelName) (levels s)) as [[i level]|] eqn:Hfind;
    simpl; [|exact Hs].
  apply list_find_Some in Hfind as (Hi & _ & _).
  intros l Hl. simpl in *.
  apply list_elem_of_lookup in Hl as [j Hj].
  destruct (decide (i = j)) as [<-|Hne].
  - rewrite list_lookup_insert_eq in Hj by (eapply lookup_lt_Some, Hi).
    injection Hj as <-. simpl. apply Hs. eapply list_elem_of_lookup_2, Hi.
  - rewrite list_lookup_insert_ne in Hj by exact Hne.
    apply Hs. eapply list_elem_of_lookup_2, Hj.
Qed.

(** *** Enabling and disabling levels *)

Lemma setLevelEnabled_unknown (levelName : string) (b : bool) (what : string) (m : t R) :
  (forall l, l ∈ levels m -> name l <> levelName) ->
  setLevelEnabled levelName b what m = (Ok tt, m).
Proof.
  intros Hnone. unfold setLevelEnabled, bind, gets. simpl.
  assert (Hfind : list_find (fun l => name l = levelName) (levels m) = None).
  { apply list_find_None. apply Forall_forall. exact Hnone. }
  rewrite Hfind. reflexivity.
Qed.

(** C10. For every manager state and every name that matches no configured
    level, [enableLevel] and [disableLevel] return normally and leave the
    whole state as it was: every level with its [enabled] flag, the order
    of the levels, the metrics counters, the Bloom filter and the log. *)
Theorem enable_disable_unknown_level (levelName : string) (m : t R) :
  (forall l, l ∈ levels m -> name l <> levelName) ->
  enableLevel levelName m = (Ok tt, m) /\
  disableLevel levelName m = (Ok tt, m).
Proof.
  intros Hnone. split; apply setLevelEnabled_unknown; exact Hnone.
Qed.

Lemma walk_all_miss (k : string) (opts : ReadWriteOptions) (ls : list CacheLevel) :
  forall s : t R,
    (forall l, l ∈ ls -> is_Some (metrics s !! name l)) ->
    (forall l, l ∈ ls -> enabled l = true -> levelMisses k l) ->
    exists s' evs,
      walk deserialize serialize k opts ls s = (Ok None, s') /\
      bloomFilter s' = bloomFilter s /\
      levels s' = levels s /\
      options s' = options s /\
      nowReads (its_world s') = nowReads (its_world s) /\
      log (its_world s') = log (its_world s) ++ evs /\
      Forall (fun e => readsOnly e = true) evs.
Proof.
  induction ls as [|level rest IH]; intros s Hmet Hmiss.
  - exists s, []. simpl. rewrite app_nil_r. repeat split; constructor.
  - assert (Hrest : forall l, l ∈ rest -> enabled l = true -> levelMisses k l).
    { intros l Hl. apply Hmiss. apply elem_of_cons. right. exact Hl. }
    simpl. destruct (enabled level) eqn:Hen; simpl.
    + pose proof (Hmiss level (list_elem_of_here _ _) Hen) as Hm.
      destruct (Hmet level (list_elem_of_here _ _)) as [c Hc].
      unfold levelMisses in Hm.
      unfold try_catch, bind, logger, emit, modify, level_get, lift, bump, ret. simpl.
      destruct (adapter_get (storage level) k) as [v|e]; simpl.
      * rewrite Hm. simpl. rewrite Hc. simpl.
        edestruct IH as (s' & evs & Hw & Hb & Hl & Ho & Hn & Hlog & Hq);
          [| exact Hrest | rewrite Hw].
        { intros l Hl. simpl. apply lookup_insert_is_Some'. right.
          apply Hmet. apply elem_of_cons. right. exact Hl. }
        simpl in *. eexists s', (_ :: _ :: evs).
        split; [reflexivity|]. repeat (split; [assumption|]).
        split.
        -- rewrite Hlog, <- !app_assoc. reflexivity.
        -- repeat constructor. exact Hq.
      * rewrite Hc. simpl.
        edestruct IH as (s' & evs & Hw & Hb & Hl & Ho & Hn & Hlog & Hq);
          [| exact Hrest | rewrite Hw].
        { intros l Hl. simpl. apply lookup_insert_is_Some'. right.
          apply Hmet. apply elem_of_cons. right. exact Hl. }
        simpl in *. eexists s', (_ :: _ :: _ :: evs).
        split; [reflexivity|]. repeat (split; [assumption|]).
        split.
        -- rewrite Hlog, <- !app_assoc. reflexivity.
        -- repeat constructor. exact Hq.
    + unfold bind, logger, emit, modify. simpl.
      edestruct IH as (s' & evs & Hw & Hb & Hl & Ho & Hn & Hlog & Hq);
        [| exact Hrest | rewrite Hw].
      { intros l Hl. simpl. apply Hmet. apply elem_of_cons. right. exact Hl. }
      simpl in *. eexists s', (_ :: evs).
      split; [reflexivity|]. repeat (split; [assumption|]).
      split.
      -- rewrite Hlog, <- !app_assoc. reflexivity.
      -- repeat constructor. exact Hq.
Qed.

Lemma get_from_levels_fail (k : string) (ex : Executor R) (opts : ReadWriteOptions)
    (m : t R) :
  fallbackStrategy (options m) = Some fail ->
  metrics_ok m ->
  (forall l, l ∈ levels m -> enabled l = true -> levelMisses k l) ->
  exists m' evs,
    get_from_levels clock deserialize serialize newRecord k ex opts m
      = (Throw (JsError ("Cache miss for key: " +:+ k)), m') /\
    levels m' = levels m /\
    log (its_world m') = log (its_world m) ++ evs /\
    Forall (fun e => readsOnly e = true) evs.
Proof.
  intros Hfail Hmet Hmiss.
  destruct (walk_all_miss k opts (levels m) m Hmet Hmiss)
    as (s' & evs & Hw & Hb & Hl & Ho & Hn & Hlog & Hq).
  unfold get_from_levels, bind, gets. simpl. rewrite Hw.
  unfold logger, emit, modify, throw. simpl. rewrite Ho, Hfail. simpl.
  eexists _, (evs ++ [_]). split; [reflexivity|]. simpl.
  split; [exact Hl|]. split.
  - rewrite Hlog, <- app_assoc. reflexivity.
  - apply Forall_app. split; [exact Hq|]. repeat constructor.
Qed.

(** C7, as the code has it. With [fallbackStrategy = 'fail'], in a call that
    gets past the Bloom pre-check (there is no Bloom filter, or the filter
    answers that the key might exist), if
    every enabled level misses (its [get] returns null or the empty string,
    or throws), then [get] throws the error [Cache miss for key: <key>];
    everything the call sends out is log lines and level reads, so the
    executor is not invoked and no level is written. *)
Theorem get_fail_strategy_cache_miss (k : string) (ex : Executor R)
    (opts : ReadWriteOptions) (m : t R) :
  fallbackStrategy (options m) = Some fail ->
  bloomPasses (bloomFilter m) k ->
  metrics_ok m ->
  (forall l, l ∈ levels m -> enabled l = true -> levelMisses k l) ->
  exists m' evs,
    get clock deserialize serialize newRecord k ex opts m
      = (Throw (JsError ("Cache miss for key: " +:+ k)), m') /\
    levels m' = levels m /\
    log (its_world m') = log (its_world m) ++ evs /\
    Forall (fun e => readsOnly e = true) evs.
Proof.
  intros Hfail Hbloom Hmet Hmiss.
  unfold get, bind, gets. simpl.
  unfold bloomPasses in Hbloom.
  destruct (bloomFilter m) as [b|] eqn:Hbf.
  - rewrite Hbloom. simpl. unfold bind, logger, emit, modify. simpl.
    edestruct (get_from_levels_fail k ex opts) as (m' & evs & Hg & Hl & Hlog & Hq);
      [| | | rewrite Hg].
    + simpl. exact Hfail.
    + exact Hmet.
    + exact Hmiss.
    + simpl in *. eexists m', (_ :: evs). split; [reflexivity|].
      split; [exact Hl|]. split.
      * rewrite Hlog, <- app_assoc. reflexivity.
      * constructor; [reflexivity | exact Hq].
  - apply get_from_levels_fail; assumption.
Qed.

(** The Bloom pre-check comes before the levels and before the fallback
    strategy: when the filter answers that the key is not there, [get] runs
    the executor and returns its outcome under every strategy, without
    reading or writing a level. *)
Lemma get_bloom_negative_runs_executor (k : string) (ex : Executor R)
    (opts : ReadWriteOptions) (m : t R) (b : BloomFilter.t) :
  bloomFilter m = Some b ->
  BloomFilter.mightContain b (charCodes k) = false ->
  get clock deserialize serialize newRecord k ex opts m =
    (ex, mk (bloomFilter m) (levels m) (metrics m) (options m)
            (mkWorld (log (its_world m) ++ [Logged Trace [Str (msgBloomMiss k)]; ExecutorRun])
                     (nowReads (its_world m)))).
Proof.
  intros Hb Hno. unfold get, runExecutor, logger, bind, gets, emit, modify, lift. simpl.
  destruct m as [bf ls ms os w]. simpl in *. subst bf.
  rewrite Hno. simpl. rewrite <- app_assoc. reflexivity.
Qed.

Lemma take_findIndexEnabled_disabled (ls : list CacheLevel) :
  Forall (fun l => enabled l = false) (take (Z.to_nat (findIndexEnabled ls)) ls).
Proof.
  induction ls as [|l rest IH]; simpl; [constructor|].
  destruct (enabled l) eqn:Hen; simpl; [constructor|].
  destruct (Z.ltb_spec (findIndexEnabled rest) 0) as [Hneg|Hpos]; simpl; [constructor|].
  rewrite Z2Nat.inj_add by lia. rewrite Nat.add_comm. simpl.
  constructor; assumption.
Qed.

Lemma populate_loop_disabled (k : string) (v : R) (opts : WriteOptions)
    (ls : list CacheLevel) (s : t R) :
  Forall (fun l => enabled l = false) ls ->
  populate_loop serialize k v opts ls s = (Ok tt, s).
Proof.
  induction 1 as [|l rest Hl _ IH]; simpl; [reflexivity|].
  rewrite Hl. simpl. exact IH.
Qed.

(** [populateHigherLevels] looks for the first enabled level instead of the
    level that was hit, so the levels before that index are all disabled
    and the loop skips each of them: in every state the call returns
    without a single storage write and without a log line. *)
Lemma populateHigherLevels_writes_nothing (k : string) (v : R) (opts : WriteOptions)
    (s : t R) :
  populateHigherLevels serialize k v opts s = (Ok tt, s).
Proof.
  unfold populateHigherLevels, bind, gets. simpl.
  destruct (findIndexEnabled (levels s) <=? 0); [reflexivity|].
  apply populate_loop_disabled, take_findIndexEnabled_disabled.
Qed.

End Facts.

(** C1 at a concrete call. L1 (ttl 60000) is enabled and empty, L2 is enabled
    and holds ["v"] at ["k"]. [get("k")] misses L1, hits L2 at index 1 and
    returns ["v"]; the complete log of the call shows the two level reads
    and no [set] on L1, which is left cold. *)
Theorem get_lower_level_hit_does_not_warm :
  Scenario.multiLevel Scenario.emptyAdapter (Scenario.holding "k" "v") None
    = Ok Scenario.warmUpManager /\
  map name (levels Scenario.warmUpManager) = ["L1-Memory"; "L2-Redis"] /\
  map enabled (levels Scenario.warmUpManager) = [true; true] /\
  let out :=
    get Scenario.clock Scenario.deserialize Scenario.serialize Scenario.newRecord
        "k" (Throw (JsError "executor")) noOptions Scenario.warmUpManager in
  out.1 = Ok "v" /\
  log (its_world out.2) =
    log (its_world Scenario.warmUpManager) ++
    [ Logged Trace [Str "Checking level: L1-Memory for key: k"];
      LevelGet "L1-Memory" "k";
      Logged Trace [Str "Checking level: L2-Redis for key: k"];
      LevelGet "L2-Redis" "k";
      Logged Trace [Str "Hit in level: L2-Redis for key: k"] ] /\
  metrics out.2 !! "L1-Memory" = Some (mkCounters 0 1 0 0) /\
  metrics out.2 !! "L2-Redis" = Some (mkCounters 1 0 0 0).
Proof.
  vm_compute. repeat split; reflexivity.
Qed.

(** The scenario of C10: the two-level manager and the name ["L3-Disk"]. *)
Lemma enable_disable_unknown_level_witness :
  (forall l, l ∈ levels Scenario.warmUpManager -> name l <> "L3-Disk") /\
  enableLevel "L3-Disk" Scenario.warmUpManager = (Ok tt, Scenario.warmUpManager) /\
  disableLevel "L3-Disk" Scenario.warmUpManager = (Ok tt, Scenario.warmUpManager).
Proof.
  assert (H : forall l, l ∈ levels Scenario.warmUpManager -> name l <> "L3-Disk").
  { intros l Hl. vm_compute in Hl.
    repeat (apply elem_of_cons in Hl as [->|Hl]); [discriminate..|].
    inversion Hl. }
  split; [exact H|].
  exact (enable_disable_unknown_level "L3-Disk" Scenario.warmUpManager H).
Defined.

(** C7 as stated fails when a Bloom filter is configured. The manager has
    [fallbackStrategy: 'fail'], a Bloom filter that has seen no key, and two
    empty levels, both disabled, so that every enabled level misses. [get]
    stops at the Bloom pre-check: it runs the executor and returns its value
    instead of throwing the cache-miss error. *)
Lemma get_fail_strategy_bloom_negative_runs_executor :
  let m := Scenario.coldManager false in
  let out :=
    get Scenario.clock Scenario.deserialize Scenario.serialize Scenario.newRecord
        "k" (Ok "fresh") noOptions m in
  fallbackStrategy (options m) = Some fail /\
  map name (levels m) = ["L1-Memory"; "L2-Redis"] /\
  map enabled (levels m) = [false; false] /\
  (forall l, l ∈ levels m -> enabled l = true -> levelMisses "k" l) /\
  out.1 = Ok "fresh" /\
  log (its_world out.2) =
    log (its_world m) ++ [Logged Trace [Str (msgBloomMiss "k")]; ExecutorRun].
Proof.
  intros m out. repeat split; try reflexivity.
  intros l Hl Hen. vm_compute in Hl.
  repeat (apply elem_of_cons in Hl as [->|Hl]); [discriminate..|].
  inversion Hl.
Qed.

(** With the two empty levels enabled the same call does the same: the
    levels are not read and the executor runs. *)
Example get_fail_strategy_cold_cache_runs_executor :
  let m := Scenario.coldManager true in
  let out :=
    get Scenario.clock Scenario.deserialize Scenario.serialize Scenario.newRecord
        "k" (Ok "fresh") noOptions m in
  map enabled (levels m) = [true; true] /\
  out.1 = Ok "fresh" /\
  log (its_world out.2) =
    log (its_world m) ++ [Logged Trace [Str (msgBloomMiss "k")]; ExecutorRun].
Proof.
  vm_compute. repeat split; reflexivity.
Qed.

(** The scenario of C7: L1 throws on [get], L2 is empty. *)
Lemma get_fail_strategy_cache_miss_witness :
  fallbackStrategy (options Scenario.failManager) = Some fail /\
  bloomPasses (bloomFilter Scenario.failManager) "k" /\
  metrics_ok Scenario.failManager /\
  (forall l, l ∈ levels Scenario.failManager -> enabled l = true -> levelMisses "k" l) /\
  exists m' evs,
    get Scenario.clock Scenario.deserialize Scenario.serialize Scenario.newRecord
        "k" (Ok "fresh") noOptions Scenario.failManager
      = (Throw (JsError ("Cache miss for key: " +:+ "k")), m') /\
    levels m' = levels Scenario.failManager /\
    log (its_world m') = log (its_world Scenario.failManager) ++ evs /\
    Forall (fun e => readsOnly e = true) evs.
Proof.
  assert (H1 : fallbackStrategy (options Scenario.failManager) = Some fail)
    by reflexivity.
  assert (H2 : bloomPasses (bloomFilter Scenario.failManager) "k") by exact I.
  assert (H3 : metrics_ok Scenario.failManager).
  { intros l Hl. vm_compute in Hl.
    repeat (apply elem_of_cons in Hl as [->|Hl]); [vm_compute; eauto..|].
    inversion Hl. }
  assert (H4 : forall l, l ∈ levels Scenario.failManager ->
                         enabled l = true -> levelMisses "k" l).
  { intros l Hl _. vm_compute in Hl.
    repeat (apply elem_of_cons in Hl as [->|Hl]); [vm_compute; auto..|].
    inversion Hl. }
  repeat (split; [assumption|]).
  exact (get_fail_strategy_cache_miss Scenario.clock Scenario.deserialize
           Scenario.serialize Scenario.newRecord "k" (Ok "fresh") noOptions
           Scenario.failManager H1 H2 H3 H4).
Defined.

End MultiLevelFacts.

(** ** Read-Through manager *)

Module ReadThroughFacts.
Import ReadThroughManager.

Section Facts.
Context {R : Type}.
Variable storage : Storage R.
Variable clock : nat -> Z.
Variable deserialize : string -> Result R.
Variable updateCacheAndGetResult : ExecutorContext R -> ReadWriteOptions -> M (t R) R.

Lemma or_zero_id (x : Z) : or_zero x = x.
Proof. unfold or_zero. destruct (Z.eqb_spec x 0); congruence. Qed.

Lemma read_through_get_passes (k : string) (ex : Executor R) (opts : ReadWriteOptions) (m : t R) :
  bloomPasses (bloomFilter m) k ->
  get storage clock deserialize updateCacheAndGetResult k ex opts m =
  get_from_storage storage clock deserialize updateCacheAndGetResult k ex opts
    (mk (bloomFilter m)
        (mkWorld (log (its_world m) ++ preCheckLog (bloomFilter m) k "storage") (nowReads (its_world m)))).
Proof.
  unfold bloomPasses, preCheckLog, get, bind, gets. simpl.
  destruct m as [[b|] [l n]]; simpl.
  - intros ->. reflexivity.
  - intros _. rewrite app_nil_r. reflexivity.
Qed.

(** C3. In a Read-Through [get] whose storage reads succeed ([storage.get]
    returns [record], and [isOutdated] answers when it is asked), with
    [now] the clock reading of the validity check:
    - if the record exists with a defined value [v], is time-valid
      ([permanent] or [now <= createdAt + expiresIn]) and [isOutdated] is
      false, the call returns [deserialize v], after the storage read and
      the [isOutdated] check and nothing else;
    - in every other case the call continues as
      [updateCacheAndGetResult({key, executor, options}, options)]. *)
Theorem get_returns_cached_iff_fresh (k : string) (ex : Executor R)
    (opts : ReadWriteOptions) (m : t R) (record : option (CacheRecord string)) :
  bloomPasses (bloomFilter m) k ->
  storage_get storage k = Ok record ->
  (forall r, record = Some r -> exists b, storage_isOutdated storage r = Ok b) ->
  let now := clock (nowReads (its_world m)) in
  let fresh (r : CacheRecord string) (v : string) : Prop :=
    record = Some r /\ value r = Some v /\ timeValid now r /\
    storage_isOutdated storage r = Ok false in
  (forall r v, fresh r v ->
     exists m',
       get storage clock deserialize updateCacheAndGetResult k ex opts m
         = (deserialize v, m') /\
       log (its_world m') =
         log (its_world m) ++ preCheckLog (bloomFilter m) k "storage" ++ [StorageGet k; StorageIsOutdated (key r)]) /\
  ((forall r v, ~ fresh r v) ->
     exists m',
       get storage clock deserialize updateCacheAndGetResult k ex opts m
         = updateCacheAndGetResult (mkContext k ex opts) opts m' /\
       bloomFilter m' = bloomFilter m).
Proof.
  intros Hbloom Hget Hout now fresh.
  rewrite (read_through_get_passes k ex opts m Hbloom).
  unfold get_from_storage, attempt, call_get, call_isOutdated, isRecordValid, dateNow,
    deserializeValue, bloomAdd, bind, ret, lift, emit, modify. simpl.
  rewrite Hget. simpl. fold now. split.
  - intros r v (-> & Hv & Htime & Hfalse). simpl.
    rewrite or_zero_id.
    assert (Hexp : negb (permanent r) && (now >? createdAt r + expiresIn r) = false).
    { destruct Htime as [->|Hle]; [reflexivity|].
      apply andb_false_iff. right. rewrite Z.gtb_ltb. apply Z.ltb_ge. exact Hle. }
    rewrite Hexp. simpl. rewrite Hv. simpl.
    rewrite Hfalse. simpl.
    destruct (deserialize v) as [x|e]; simpl.
    + destruct (bloomFilter m); eexists; (split; [reflexivity|]); simpl;
        rewrite <- !app_assoc; reflexivity.
    + eexists; (split; [reflexivity|]); simpl. rewrite <- !app_assoc; reflexivity.
  - intros Hnot. destruct record as [r|]; simpl.
    + rewrite or_zero_id.
      destruct (negb (permanent r) && (now >? createdAt r + expiresIn r)) eqn:Hexp; simpl.
      * eexists. split; reflexivity.
      * destruct (value r) as [v|] eqn:Hv; simpl.
        -- destruct (Hout r eq_refl) as [b Hb]. rewrite Hb. simpl.
           destruct b; simpl.
           ++ eexists. split; reflexivity.
           ++ exfalso. apply (Hnot r v). repeat split; try assumption.
              apply andb_false_iff in Hexp as [Hp|Hle].
              ** left. apply negb_false_iff. exact Hp.
              ** right. rewrite Z.gtb_ltb in Hle. apply Z.ltb_ge in Hle. exact Hle.
        -- eexists. split; reflexivity.
    + eexists. split; reflexivity.
Qed.

End Facts.

(** The scenario of C3: a record written at 900 ms with a TTL of 1000 ms,
    read at 1000 ms, not outdated. *)
Lemma get_returns_cached_iff_fresh_witness :
  let storage := Scenario.storageWith (Some Scenario.recent) (Ok false) in
  let fresh (r : CacheRecord string) (v : string) : Prop :=
    Some Scenario.recent = Some r /\ value r = Some v /\ timeValid 1000 r /\
    storage_isOutdated storage r = Ok false in
  fresh Scenario.recent "v" /\
  (forall r v, fresh r v ->
     exists m',
       get storage Scenario.clock Scenario.deserialize Scenario.recompute
           "k" (Ok "fresh") noOptions Scenario.readThrough
         = (Scenario.deserialize v, m') /\
       log (its_world m') =
         log (its_world Scenario.readThrough) ++ preCheckLog (bloomFilter Scenario.readThrough) "k" "storage"
           ++ [StorageGet "k"; StorageIsOutdated (key r)]) /\
  ((forall r v, ~ fresh r v) ->
     exists m',
       get storage Scenario.clock Scenario.deserialize Scenario.recompute
           "k" (Ok "fresh") noOptions Scenario.readThrough
         = Scenario.recompute (mkContext "k" (Ok "fresh") noOptions) noOptions m' /\
       bloomFilter m' = bloomFilter Scenario.readThrough).
Proof.
  intros storage fresh. split.
  - repeat split. right. vm_compute. discriminate.
  - apply (get_returns_cached_iff_fresh storage Scenario.clock Scenario.deserialize
             Scenario.recompute "k" (Ok "fresh") noOptions Scenario.readThrough
             (Some Scenario.recent)).
    + exact I.
    + reflexivity.
    + intros r _. exists false. reflexivity.
Defined.

End ReadThroughFacts.

(** ** Write-Through manager *)

Module WriteThroughFacts.
Import WriteThroughManager.

Section Facts.
Context {R : Type}.
Variable storage : Storage R.
Variable deserialize : string -> Result R.
Variable updateCacheAndGetResult : ExecutorContext R -> ReadWriteOptions -> M (t R) R.

Lemma write_through_get_passes (k : string) (ex : Executor R) (opts : ReadWriteOptions) (m : t R) :
  bloomPasses (bloomFilter m) k ->
  get storage deserialize updateCacheAndGetResult k ex opts m =
  get_from_storage storage deserialize updateCacheAndGetResult k ex opts
    (mk (bloomFilter m)
        (mkWorld (log (its_world m) ++ preCheckLog (bloomFilter m) k "storage") (nowReads (its_world m)))).
Proof.
  unfold bloomPasses, preCheckLog, get, bind, gets. simpl.
  destruct m as [[b|] [l n]]; simpl.
  - intros ->. reflexivity.
  - intros _. rewrite app_nil_r. reflexivity.
Qed.

(** C4. In a Write-Through [get] whose storage read succeeds:
    - if the record has a defined value [v], the call returns
      [deserialize v] whatever [createdAt], [expiresIn], [permanent] and the
      tags of the record are and whatever [isOutdated] would answer: the
      call reads the storage, logs the hit, and neither reads the clock nor
      asks [isOutdated];
    - if there is no record, or its value is undefined, the call continues
      as [updateCacheAndGetResult({key, executor, options}, options)]. *)
Theorem get_returns_stored_without_freshness_check (k : string) (ex : Executor R)
    (opts : ReadWriteOptions) (m : t R) (record : option (CacheRecord string)) :
  bloomPasses (bloomFilter m) k ->
  storage_get storage k = Ok record ->
  (forall r v, record = Some r -> value r = Some v ->
     exists m',
       get storage deserialize updateCacheAndGetResult k ex opts m = (deserialize v, m') /\
       log (its_world m') =
         log (its_world m) ++ preCheckLog (bloomFilter m) k "storage"
           ++ [StorageGet k; Logged Trace [Str "hit"; Str k]] /\
       nowReads (its_world m') = nowReads (its_world m)) /\
  (record = None \/ (exists r, record = Some r /\ value r = None) ->
     exists m',
       get storage deserialize updateCacheAndGetResult k ex opts m
         = updateCacheAndGetResult (mkContext k ex opts) opts m' /\
       bloomFilter m' = bloomFilter m).
Proof.
  intros Hbloom Hget.
  rewrite (write_through_get_passes k ex opts m Hbloom).
  unfold get_from_storage, attempt, call_get, isRecordValid, deserializeValue, bloomAdd,
    logger, bind, ret, lift, emit, modify. simpl.
  rewrite Hget. simpl. split.
  - intros r v -> Hv. simpl. rewrite Hv. simpl.
    destruct (deserialize v) as [x|e]; simpl.
    + destruct (bloomFilter m); eexists; (split; [reflexivity|]); simpl;
        rewrite <- !app_assoc; split; reflexivity.
    + eexists; (split; [reflexivity|]); simpl. rewrite <- !app_assoc; split; reflexivity.
  - intros [-> | (r & -> & Hv)]; simpl.
    + eexists. split; reflexivity.
    + rewrite Hv. simpl. eexists. split; reflexivity.
Qed.

(** C5. [set(key, value, options)] makes exactly one storage write, and the
    options of that write carry [permanent: true] whatever the caller's
    options were (absent, or with [permanent] false); the other options are
    passed on unchanged.  A record whose [permanent] is true is never
    expired by the time check of the Read-Through and Refresh-Ahead
    managers, whatever the clock reads. *)
Theorem set_writes_permanent (k : string) (v : R) (options : option WriteOptions)
    (m : t R) :
  let written := permanentOptions options in
  opt_permanent written = Some true /\
  opt_expiresIn written = options ≫= opt_expiresIn /\
  opt_tags written = options ≫= opt_tags /\
  (exists m',
     set storage k v options m = (storage_set storage k v (Some written), m') /\
     log (its_world m') = log (its_world m) ++ [StorageSet k v (Some written)]) /\
  (forall (clock : nat -> Z) (r : CacheRecord string),
     permanent r = true ->
     (forall s : ReadThroughManager.t R,
        (ReadThroughManager.isRecordValid clock (Some r) s).1
          = Ok (bool_decide (is_Some (value r)))) /\
     (forall s : RefreshAheadManager.t R,
        (RefreshAheadManager.isRecordValid clock (Some r) s).1
          = Ok (bool_decide (is_Some (value r))))).
Proof.
  intros written. repeat split.
  - destruct options; reflexivity.
  - destruct options; reflexivity.
  - subst written.
    unfold set, call_set, bloomAdd, bind, ret, lift, emit, modify. simpl.
    destruct (storage_set storage k v (Some (permanentOptions options))) as [r|e]; simpl.
    + destruct (bloomFilter m); eexists; split; reflexivity.
    + eexists; split; reflexivity.
  - unfold ReadThroughManager.isRecordValid, dateNow, bind, ret. simpl.
    rewrite H. reflexivity.
  - unfold RefreshAheadManager.isRecordValid, dateNow, bind, ret. simpl.
    rewrite H. reflexivity.
Qed.

End Facts.

(** The scenario of C4: a record written at 0 ms with a TTL of 100 ms, so
    long expired, and reported as outdated by the storage. *)
Lemma get_returns_stored_without_freshness_check_witness :
  let storage := Scenario.storageWith (Some (Scenario.shortLived false)) (Ok true) in
  (forall r v, Some (Scenario.shortLived false) = Some r -> value r = Some v ->
     exists m',
       get storage Scenario.deserialize Scenario.recompute
           "k" (Ok "fresh") noOptions Scenario.writeThrough
         = (Scenario.deserialize v, m') /\
       log (its_world m') =
         log (its_world Scenario.writeThrough) ++ preCheckLog (bloomFilter Scenario.writeThrough) "k" "storage"
           ++ [StorageGet "k"; Logged Trace [Str "hit"; Str "k"]] /\
       nowReads (its_world m') = nowReads (its_world Scenario.writeThrough)) /\
  (Some (Scenario.shortLived false) = None \/
   (exists r, Some (Scenario.shortLived false) = Some r /\ value r = None) ->
     exists m',
       get storage Scenario.deserialize Scenario.recompute
           "k" (Ok "fresh") noOptions Scenario.writeThrough
         = Scenario.recompute (mkContext "k" (Ok "fresh") noOptions) noOptions m' /\
       bloomFilter m' = bloomFilter Scenario.writeThrough).
Proof.
  intros storage.
  apply (get_returns_stored_without_freshness_check storage Scenario.deserialize
           Scenario.recompute "k" (Ok "fresh") noOptions Scenario.writeThrough
           (Some (Scenario.shortLived false))).
  - exact I.
  - reflexivity.
Defined.

End WriteThroughFacts.

(** ** A failing storage read *)

Module StorageFailureFacts.

Section Facts.
Context {R : Type}.
Variable storage : Storage R.
Variable clock : nat -> Z.
Variable deserialize : string -> Result R.
Variable recomputeRT :
  ExecutorContext R -> ReadWriteOptions -> M (ReadThroughManager.t R) R.
Variable recomputeWT :
  ExecutorContext R -> ReadWriteOptions -> M (WriteThroughManager.t R) R.

(** C8. When [storage.get] throws [e] in a Read-Through or a Write-Through
    [get], the outcome of the call is the outcome of the executor (its
    value, or its own failure), not [e]: the call logs the failure at error
    level, runs the executor once, writes nothing to the storage and leaves
    the Bloom filter as it was. *)
Theorem get_storage_failure_runs_executor (k : string) (ex : Executor R)
    (opts : ReadWriteOptions) (e : Error)
    (mr : ReadThroughManager.t R) (mw : WriteThroughManager.t R) :
  storage_get storage k = Throw e ->
  bloomPasses (ReadThroughManager.bloomFilter mr) k ->
  bloomPasses (WriteThroughManager.bloomFilter mw) k ->
  ReadThroughManager.get storage clock deserialize recomputeRT k ex opts mr =
    (ex, ReadThroughManager.mk (ReadThroughManager.bloomFilter mr)
           (mkWorld (log (ReadThroughManager.its_world mr)
                       ++ preCheckLog (ReadThroughManager.bloomFilter mr) k "storage" ++ fallbackLog k e)
                    (nowReads (ReadThroughManager.its_world mr)))) /\
  WriteThroughManager.get storage deserialize recomputeWT k ex opts mw =
    (ex, WriteThroughManager.mk (WriteThroughManager.bloomFilter mw)
           (mkWorld (log (WriteThroughManager.its_world mw)
                       ++ preCheckLog (WriteThroughManager.bloomFilter mw) k "storage" ++ fallbackLog k e)
                    (nowReads (WriteThroughManager.its_world mw)))).
Proof.
  intros Hget Hr Hw. split.
  - rewrite (ReadThroughFacts.read_through_get_passes storage clock deserialize recomputeRT
               k ex opts mr Hr).
    unfold ReadThroughManager.get_from_storage, attempt, call_get, runExecutor, logger,
      bind, ret, lift, emit, modify. simpl.
    rewrite Hget. simpl. rewrite <- !app_assoc. reflexivity.
  - rewrite (WriteThroughFacts.write_through_get_passes storage deserialize recomputeWT
               k ex opts mw Hw).
    unfold WriteThroughManager.get_from_storage, attempt, call_get, runExecutor, logger,
      bind, ret, lift, emit, modify. simpl.
    rewrite Hget. simpl. rewrite <- !app_assoc. reflexivity.
Qed.

End Facts.

(** The scenario of C8: the storage read fails and the executor returns
    ["fresh"]. *)
Lemma get_storage_failure_runs_executor_witness :
  storage_get Scenario.brokenStorage "k" = Throw (JsError "Storage error") /\
  ReadThroughManager.get Scenario.brokenStorage Scenario.clock Scenario.deserialize
      Scenario.recompute "k" (Ok "fresh") noOptions Scenario.readThrough =
    (Ok "fresh",
     ReadThroughManager.mk None
       (mkWorld (log Scenario.world0 ++ [] ++ fallbackLog "k" (JsError "Storage error")) 0)) /\
  WriteThroughManager.get Scenario.brokenStorage Scenario.deserialize
      Scenario.recompute "k" (Ok "fresh") noOptions Scenario.writeThrough =
    (Ok "fresh",
     WriteThroughManager.mk None
       (mkWorld (log Scenario.world0 ++ [] ++ fallbackLog "k" (JsError "Storage error")) 0)).
Proof.
  split; [reflexivity|].
  apply (get_storage_failure_runs_executor Scenario.brokenStorage Scenario.clock
           Scenario.deserialize Scenario.recompute Scenario.recompute
           "k" (Ok "fresh") noOptions (JsError "Storage error")
           Scenario.readThrough Scenario.writeThrough).
  - reflexivity.
  - exact I.
  - exact I.
Defined.

End StorageFailureFacts.

(** ** Refresh-Ahead manager *)

Module RefreshAheadFacts.
Import RefreshAheadManager.

Section Facts.
Context {R : Type}.
Variable storage : Storage R.
Variable clock : nat -> Z.
Variable deserialize : string -> Result R.
Variable updateCacheAndGetResult : ExecutorContext R -> ReadWriteOptions -> M (t R) R.

(** C2, as the code has it. For every finite [refreshAheadFactor] [q] with
    [q < 0] or [q >= 1], constructing a Refresh-Ahead manager throws, before
    anything else is set up and whatever the other options are. *)
Theorem constructor_rejects_finite_factor_out_of_range
    (newBloomFilter : number -> number -> Result (BloomFilter.t * string))
    (q : Q) (mo : ManagerOptions) (w : World R) :
  (q < 0 \/ 1 <= q)%Q ->
  exists message,
    constructor newBloomFilter (mkOptions (Some (Fin q)) mo) w = Throw (JsError message).
Proof.
  intros Hq. unfold constructor, num_or, num_truthy. simpl.
  assert (Hnz : Qeq_bool q 0 = false).
  { apply not_true_is_false. intros Heq. apply Qeq_bool_eq in Heq.
    rewrite Heq in Hq. destruct Hq as [Hq|Hq]; [apply (Qlt_irrefl _ Hq)|].
    apply Qle_not_lt in Hq. apply Hq. reflexivity. }
  rewrite Hnz. simpl.
  destruct (Qle_bool q (inject_Z 0)) eqn:Hle; simpl; [eauto|].
  destruct Hq as [Hq|Hq].
  - apply Qlt_le_weak in Hq. apply Qle_bool_iff in Hq.
    change (inject_Z 0) with 0%Q in Hle. congruence.
  - unfold num_geb. simpl. apply Qle_bool_iff in Hq.
    change (inject_Z 1) with 1%Q. rewrite Hq. eauto.
Qed.

(** A factor of 0 is falsy: the constructor replaces it by the default 0.8
    before the range check and succeeds. *)
Lemma constructor_zero_factor_uses_default
    (newBloomFilter : number -> number -> Result (BloomFilter.t * string)) (w : World R) :
  constructor newBloomFilter (mkOptions (Some (Fin 0)) (mkManagerOptions false None)) w
    = Ok (mk DEFAULT_REFRESH_AHEAD_FACTOR None w).
Proof. reflexivity. Qed.






End Facts.

Lemma constructor_rejects_finite_factor_out_of_range_witness :
  (3 # 2 < 0 \/ 1 <= 3 # 2)%Q /\
  exists message,
    Scenario.refreshAhead (Some (Fin (3 # 2))) = Throw (JsError message).
Proof.
  assert (H : (3 # 2 < 0 \/ 1 <= 3 # 2)%Q) by (right; discriminate).
  split; [exact H|].
  exact (constructor_rejects_finite_factor_out_of_range Scenario.newBloomFilter
           (3 # 2) (mkManagerOptions false None) Scenario.world0 H).
Defined.

(** C2 as stated fails for an infinite factor: [Infinity >= 1], yet the
    range check is skipped for a factor that is not finite and the
    construction succeeds. *)
Lemma constructor_accepts_infinite_factor :
  num_geb PInf (num_of_Z 1) = true /\
  Scenario.refreshAhead (Some PInf) = Ok (mk PInf None Scenario.world0).
Proof. split; reflexivity. Qed.



(** The same call on the record that is not permanent does start the
    refresh. *)
Example get_aging_record_starts_refresh :
  let storage := Scenario.storageWith (Some Scenario.aging) (Ok false) in
  let out :=
    get storage Scenario.clock Scenario.deserialize Scenario.recompute
        "k" (Ok "fresh") noOptions Scenario.refreshAheadDefault in
  out.1 = Ok "v" /\
  log (its_world out.2) =
    [ StorageGet "k"; StorageIsOutdated "k";
      StorageLockKey "refreshAhead:k";
      Logged Trace [Str ("refresh " +:+ dquote +:+ "k" +:+ dquote)];
      ExecutorRun;
      StorageSet "k" "fresh" (Some noOptions);
      StorageReleaseKey "refreshAhead:k" ].
Proof.
  vm_compute. repeat split; reflexivity.
Qed.

End RefreshAheadFacts.

(** ** Bloom filter: what it forgets and what it answers *)

Module BloomFilterAnswers.
Import BloomFilter.
Import BloomFilterFacts.

Lemma testBit_zeroes (sz : Z) (arr : list Z) (h : Z) :
  0 < sz -> 0 <= h -> Forall (fun b => b = 0) arr -> testBit sz arr h = false.
Proof.
  intros Hsz Hh Hzero. rewrite testBit_spec by assumption.
  destruct (arr !! Z.to_nat (h mod sz / 8)) as [b|] eqn:Hb; simpl.
  - rewrite Forall_lookup in Hzero. rewrite (Hzero _ _ Hb). apply Z.bits_0.
  - apply Z.bits_0.
Qed.

Lemma getHashes_first (bf : t) (k : list Z) :
  0 < hashCount bf -> exists h rest, getHashes bf k = h :: rest /\ 0 <= h.
Proof.
  intros Hhc. unfold getHashes.
  destruct (Z.to_nat (hashCount bf)) as [|n] eqn:Hn; [lia|].
  simpl. eexists _, _. split; [reflexivity | apply hash_nonneg].
Qed.

Lemma mightContain_zeroes (bf : t) (k : list Z) :
  0 < size bf -> 0 < hashCount bf -> Forall (fun b => b = 0) (bitArray bf) ->
  mightContain bf k = false.
Proof.
  intros Hsz Hhc Hzero. unfold mightContain.
  destruct (getHashes_first bf k Hhc) as (h & rest & -> & Hh). simpl.
  rewrite testBit_zeroes by assumption. reflexivity.
Qed.

(** X1. [clear] forgets everything. For a filter with at least one bit and
    one hash function, after [clear] the filter answers false for every
    key, whatever was added before, and counts no element; it is still a
    working filter: a key added afterwards is found. *)
Theorem clear_forgets (bf : t) (k k' : list Z) :
  well_formed bf ->
  0 < hashCount bf ->
  mightContain (clear bf) k = false /\
  elementCount (clear bf) = 0 /\
  mightContain (add (clear bf) k') k' = true.
Proof.
  intros [Hsz Hlen] Hhc. split; [|split; [reflexivity|]].
  - apply mightContain_zeroes; simpl; try assumption.
    apply Forall_forall. intros b Hb. apply list_elem_of_fmap in Hb as (x & -> & _).
    reflexivity.
  - apply add_mightContain. split; simpl; [exact Hsz|].
    rewrite length_map. exact Hlen.
Qed.

(** Setting a bit sets no other bit. *)
Lemma setBit_only (sz : Z) (arr : list Z) (h h' : Z) :
  0 < sz -> 0 <= h -> 0 <= h' ->
  testBit sz (setBit sz arr h') h = true ->
  testBit sz arr h = true \/ h mod sz = h' mod sz.
Proof.
  intros Hsz Hh Hh'. rewrite !testBit_spec by assumption.
  unfold setBit. rewrite (bitIndexOf_pos h' sz) by assumption.
  assert (Hb : 0 <= h mod sz < sz) by (apply Z.mod_pos_bound; lia).
  assert (Hb' : 0 <= h' mod sz < sz) by (apply Z.mod_pos_bound; lia).
  rewrite bitMaskOf_nonneg by lia.
  unfold byteIndexOf, writeByte, readByte. cbn [fmap option_fmap option_map].
  assert (Hq' : 0 <= h' mod sz / 8) by (apply Z.div_pos; lia).
  assert (Hq : 0 <= h mod sz / 8) by (apply Z.div_pos; lia).
  destruct (Z.leb_spec 0 (h' mod sz / 8)); [|lia].
  set (o := h mod sz mod 8). set (o' := h' mod sz mod 8).
  assert (Ho : 0 <= o < 8) by (apply Z.mod_pos_bound; lia).
  assert (Ho' : 0 <= o' < 8) by (apply Z.mod_pos_bound; lia).
  destruct (decide (Z.to_nat (h' mod sz / 8) = Z.to_nat (h mod sz / 8))) as [Heq|Hne].
  - destruct (decide (Z.to_nat (h mod sz / 8) < length arr)%nat) as [Hlt|Hge].
    + rewrite Heq, list_lookup_insert_eq by exact Hlt. simpl.
      rewrite testbit_byte_lor by exact Ho.
      rewrite Z.pow2_bits_eqb by lia.
      intros Hbit. apply orb_true_iff in Hbit as [Hold|Hsame]; [left; exact Hold|].
      right. apply Z.eqb_eq in Hsame.
      apply Z2Nat.inj in Heq; [|lia..].
      pose proof (Z.div_mod (h mod sz) 8 ltac:(lia)) as Hdm.
      pose proof (Z.div_mod (h' mod sz) 8 ltac:(lia)) as Hdm'.
      subst o o'. lia.
    + rewrite list_insert_ge by lia. intros Hbit. left. exact Hbit.
  - rewrite list_lookup_insert_ne by exact Hne. intros Hbit. left. exact Hbit.
Qed.

Lemma setBits_only (sz : Z) (hs : list Z) :
  forall (arr : list Z) (h : Z),
    0 < sz -> 0 <= h -> (forall h', h' ∈ hs -> 0 <= h') ->
    testBit sz (fold_left (setBit sz) hs arr) h = true ->
    testBit sz arr h = true \/ exists h', h' ∈ hs /\ h mod sz = h' mod sz.
Proof.
  induction hs as [|h0 hs IH]; intros arr h Hsz Hh Hpos Hbit; simpl in *; [left; exact Hbit|].
  destruct (IH _ _ Hsz Hh (fun h' Hin => Hpos h' (list_elem_of_further _ _ _ Hin)) Hbit)
    as [Hold|(h' & Hin & Hsame)].
  - apply setBit_only in Hold; [|assumption..|apply Hpos, list_elem_of_here].
    destruct Hold as [Hold|Hsame]; [left; exact Hold|].
    right. exists h0. split; [apply list_elem_of_here | exact Hsame].
  - right. exists h'. split; [apply list_elem_of_further, Hin | exact Hsame].
Qed.

Lemma testBit_same_index (sz : Z) (arr : list Z) (h h' : Z) :
  0 < sz -> 0 <= h -> 0 <= h' -> h mod sz = h' mod sz ->
  testBit sz arr h = testBit sz arr h'.
Proof. intros Hsz Hh Hh' Hsame. rewrite !testBit_spec, Hsame by assumption. reflexivity. Qed.

Lemma addAll_shape (keys : list (list Z)) :
  forall bf, size (addAll bf keys) = size bf /\ hashCount (addAll bf keys) = hashCount bf.
Proof.
  induction keys as [|k keys IH]; intros bf; simpl; [split; reflexivity|].
  destruct (IH (add bf k)) as [-> ->]. split; reflexivity.
Qed.

Lemma getHashes_addAll (keys : list (list Z)) (bf : t) (k : list Z) :
  getHashes (addAll bf keys) k = getHashes bf k.
Proof. unfold getHashes. rewrite (proj2 (addAll_shape keys bf)). reflexivity. Qed.

(** A bit is set after the adds exactly when it was set before or one of
    the added keys hashes to it. *)
Lemma addAll_bits (keys : list (list Z)) :
  forall (bf : t) (h : Z),
    well_formed bf -> 0 <= h ->
    (testBit (size bf) (bitArray (addAll bf keys)) h = true <->
     testBit (size bf) (bitArray bf) h = true \/
     exists k' h', k' ∈ keys /\ h' ∈ getHashes bf k' /\ h' mod size bf = h mod size bf).
Proof.
  induction keys as [|k0 keys IH]; intros bf h Hwf Hh; simpl.
  - split; [intros H; left; exact H|].
    intros [H|(k' & h' & Hin & _)]; [exact H | inversion Hin].
  - pose proof (add_well_formed bf k0 Hwf) as Hwf'.
    destruct Hwf as [Hsz Hlen].
    specialize (IH (add bf k0) h Hwf' Hh). simpl in IH. rewrite IH. clear IH.
    change (getHashes (add bf k0)) with (getHashes bf).
    split.
    + intros [Hbit|(k' & h' & Hin & Hh' & Hsame)].
      * apply setBits_only in Hbit; [|assumption..|apply getHashes_nonneg].
        destruct Hbit as [Hold|(h' & Hin & Hsame)]; [left; exact Hold|].
        right. exists k0, h'. split; [apply list_elem_of_here|]. split; [exact Hin | congruence].
      * right. exists k', h'. split; [apply list_elem_of_further, Hin|]. split; assumption.
    + intros [Hold|(k' & h' & Hin & Hh' & Hsame)].
      * left. apply setBits_keeps; assumption.
      * apply elem_of_cons in Hin as [->|Hin].
        -- pose proof (getHashes_nonneg _ _ _ Hh') as Hpos'.
           left. rewrite (testBit_same_index _ _ h h' Hsz Hh Hpos' (eq_sym Hsame)).
           apply setBits_sets; assumption.
        -- right. exists k', h'. repeat split; assumption.
Qed.

(** The answer of a filter that started empty, by the bits of the added keys. *)
Lemma mightContain_covered (sz hc : Z) (bf : t) (keys : list (list Z)) (k : list Z) :
  0 < sz ->
  create sz hc = Ok bf ->
  (mightContain (addAll bf keys) k = true <->
   forall h, h ∈ getHashes bf k ->
     exists k' h', k' ∈ keys /\ h' ∈ getHashes bf k' /\ h' mod sz = h mod sz).
Proof.
  intros Hsz Hcreate.
  destruct (create_well_formed sz hc Hsz) as (bf' & Hbf' & Hwf).
  assert (bf' = bf) by congruence. subst bf'.
  assert (Hsize : size bf = sz).
  { unfold create in Hcreate. destruct (_ <? 0); [discriminate|].
    injection Hcreate as <-. reflexivity. }
  assert (Hzero : Forall (fun b => b = 0) (bitArray bf)).
  { unfold create in Hcreate. destruct (_ <? 0); [discriminate|].
    injection Hcreate as <-. simpl. apply Forall_replicate. reflexivity. }
  unfold mightContain. rewrite mightContain_loop_true.
  rewrite getHashes_addAll, (proj1 (addAll_shape keys bf)).
  split.
  - intros Hall h Hin. pose proof (getHashes_nonneg _ _ _ Hin) as Hh.
    apply (addAll_bits keys bf h Hwf Hh) in Hall; [|exact Hin].
    rewrite Hsize in Hall. destruct Hall as [Hold|Hcov]; [|exact Hcov].
    rewrite testBit_zeroes in Hold by assumption. discriminate.
  - intros Hcov h Hin. pose proof (getHashes_nonneg _ _ _ Hin) as Hh.
    apply (addAll_bits keys bf h Hwf Hh). right. rewrite Hsize. apply Hcov, Hin.
Qed.

(** X2. What the filter answers, exactly. For a filter constructed with a
    positive number of bits [sz], after the keys [keys] were added,
    [mightContain k] is true exactly when every bit of [k] (each of its
    hashes modulo [sz]) is also a bit of some added key; so a key that was
    not added is reported exactly when the added keys cover all its bits. *)
Theorem mightContain_exactly (sz hc : Z) (bf : t) (keys : list (list Z)) (k : list Z) :
  0 < sz ->
  create sz hc = Ok bf ->
  (mightContain (addAll bf keys) k = true <->
   forall h, h ∈ getHashes bf k ->
     exists k' h', k' ∈ keys /\ h' ∈ getHashes bf k' /\ h' mod sz = h mod sz).
Proof. apply mightContain_covered. Qed.

(** X3. The answers of the filter depend on which keys were added, not on
    their order or on how often each was added: two sequences of [add]
    calls with the same keys give the same answer for every key. *)
Theorem mightContain_order_insensitive (sz hc : Z) (bf : t)
    (keys1 keys2 : list (list Z)) (k : list Z) :
  0 < sz ->
  create sz hc = Ok bf ->
  (forall x, x ∈ keys1 <-> x ∈ keys2) ->
  mightContain (addAll bf keys1) k = mightContain (addAll bf keys2) k.
Proof.
  intros Hsz Hcreate Hsame.
  apply eq_true_iff_eq.
  rewrite !(mightContain_covered sz hc bf _ k Hsz Hcreate).
  split; intros Hcov h Hin; destruct (Hcov h Hin) as (k' & h' & Hk' & Hh' & Hmod);
    exists k', h'; (split; [apply Hsame, Hk' | split; assumption]).
Qed.

(** [elementCount] counts the calls of [add], not the keys; the size, the
    hash count and the length of the bit array stay the same. *)
Lemma elementCount_counts_calls (bf : t) (keys : list (list Z)) :
  elementCount (addAll bf keys) = elementCount bf + Z.of_nat (length keys) /\
  size (addAll bf keys) = size bf /\
  hashCount (addAll bf keys) = hashCount bf /\
  length (bitArray (addAll bf keys)) = length (bitArray bf).
Proof.
  revert bf. induction keys as [|k keys IH]; intros bf; simpl.
  - repeat split. lia.
  - destruct (IH (add bf k)) as (-> & -> & -> & ->). simpl.
    rewrite setBits_length. repeat split. lia.
Qed.

(** A filter that has seen ["alpha"] is cleared. *)
Lemma clear_forgets_witness :
  well_formed (add TierScenario.filter64 (charCodes "alpha")) /\
  0 < hashCount (add TierScenario.filter64 (charCodes "alpha")) /\
  mightContain (clear (add TierScenario.filter64 (charCodes "alpha"))) (charCodes "alpha")
    = false /\
  elementCount (clear (add TierScenario.filter64 (charCodes "alpha"))) = 0 /\
  mightContain (add (clear (add TierScenario.filter64 (charCodes "alpha")))
                    (charCodes "beta")) (charCodes "beta") = true.
Proof.
  assert (H1 : well_formed (add TierScenario.filter64 (charCodes "alpha"))).
  { split; vm_compute; reflexivity. }
  assert (H2 : 0 < hashCount (add TierScenario.filter64 (charCodes "alpha"))).
  { vm_compute. reflexivity. }
  split; [exact H1|]. split; [exact H2|].
  exact (clear_forgets (add TierScenario.filter64 (charCodes "alpha"))
           (charCodes "alpha") (charCodes "beta") H1 H2).
Defined.

(** The filter of 64 bits and 3 hashes after [add("alpha")], asked for
    ["beta"]. *)
Lemma mightContain_exactly_witness :
  0 < 64 /\
  create 64 3 = Ok TierScenario.filter64 /\
  (mightContain (addAll TierScenario.filter64 [charCodes "alpha"]) (charCodes "beta") = true <->
   forall h, h ∈ getHashes TierScenario.filter64 (charCodes "beta") ->
     exists k' h', k' ∈ [charCodes "alpha"] /\
                   h' ∈ getHashes TierScenario.filter64 k' /\ h' mod 64 = h mod 64).
Proof.
  assert (H1 : 0 < 64) by lia.
  assert (H2 : create 64 3 = Ok TierScenario.filter64) by reflexivity.
  split; [exact H1|]. split; [exact H2|].
  exact (mightContain_exactly 64 3 TierScenario.filter64 [charCodes "alpha"]
           (charCodes "beta") H1 H2).
Defined.

(** ["alpha"] then ["beta"], against ["beta"], ["alpha"] and ["alpha"]
    again. *)
Lemma mightContain_order_insensitive_witness :
  0 < 64 /\
  create 64 3 = Ok TierScenario.filter64 /\
  (forall x, x ∈ [charCodes "alpha"; charCodes "beta"] <->
             x ∈ [charCodes "beta"; charCodes "alpha"; charCodes "alpha"]) /\
  mightContain (addAll TierScenario.filter64 [charCodes "alpha"; charCodes "beta"])
               (charCodes "gamma") =
  mightContain (addAll TierScenario.filter64
                  [charCodes "beta"; charCodes "alpha"; charCodes "alpha"])
               (charCodes "gamma").
Proof.
  assert (H1 : 0 < 64) by lia.
  assert (H2 : create 64 3 = Ok TierScenario.filter64) by reflexivity.
  assert (H3 : forall x, x ∈ [charCodes "alpha"; charCodes "beta"] <->
                         x ∈ [charCodes "beta"; charCodes "alpha"; charCodes "alpha"]).
  { intros x. rewrite !elem_of_cons, !elem_of_nil. tauto. }
  split; [exact H1|]. split; [exact H2|]. split; [exact H3|].
  exact (mightContain_order_insensitive 64 3 TierScenario.filter64 _ _
           (charCodes "gamma") H1 H2 H3).
Defined.

End BloomFilterAnswers.

(** ** Multi-Level manager: construction, writes, deletions, the first hit *)

Module MultiLevelMore.
Import MultiLevelManager.
Import MethodFacts.

Lemma insertLevel_perm (x : CacheLevel) (l : list CacheLevel) :
  insertLevel x l ≡ₚ x :: l.
Proof.
  induction l as [|y rest IH]; simpl; [reflexivity|].
  destruct (priority x <=? priority y); [reflexivity|].
  rewrite IH. apply Permutation_swap.
Qed.

Lemma insertLevel_sorted (x : CacheLevel) (l : list CacheLevel) :
  StronglySorted levelOrder l -> StronglySorted levelOrder (insertLevel x l).
Proof.
  induction l as [|y rest IH]; simpl; intros Hs.
  - repeat constructor.
  - apply StronglySorted_inv in Hs as [Hrest Hy].
    destruct (Z.leb_spec (priority x) (priority y)) as [Hle|Hgt].
    + constructor; [constructor; assumption|].
      constructor; [exact Hle|].
      eapply Forall_impl; [exact Hy|]. intros z Hz. unfold levelOrder in *. lia.
    + constructor; [apply IH, Hrest|].
      rewrite insertLevel_perm. constructor; [unfold levelOrder; lia | exact Hy].
Qed.

Lemma sortLevels_perm (l : list CacheLevel) : sortLevels l ≡ₚ l.
Proof.
  induction l as [|x rest IH]; simpl; [reflexivity|].
  rewrite insertLevel_perm, IH. reflexivity.
Qed.

Lemma sortLevels_sorted (l : list CacheLevel) : StronglySorted levelOrder (sortLevels l).
Proof.
  induction l as [|x rest IH]; simpl; [constructor | apply insertLevel_sorted, IH].
Qed.

Lemma sortLevels_already_sorted (l : list CacheLevel) :
  StronglySorted levelOrder l -> sortLevels l = l.
Proof.
  induction l as [|x rest IH]; simpl; intros Hs; [reflexivity|].
  apply StronglySorted_inv in Hs as [Hrest Hx]. rewrite IH by exact Hrest.
  destruct rest as [|y rest']; simpl; [reflexivity|].
  apply Forall_cons in Hx as [Hxy _]. unfold levelOrder in Hxy.
  destruct (Z.leb_spec (priority x) (priority y)); [reflexivity | lia].
Qed.

Lemma foldl_insert_zero (ls : list CacheLevel) :
  forall (acc : gmap string Counters) (n : string),
    acc !! n = Some zeroCounters \/ (exists l, l ∈ ls /\ name l = n) ->
    foldl (fun acc level => <[name level := zeroCounters]> acc) acc ls !! n
      = Some zeroCounters.
Proof.
  induction ls as [|x ls IH]; intros acc n Hn; simpl.
  - destruct Hn as [Hn|(l & Hl & _)]; [exact Hn | inversion Hl].
  - apply IH. destruct (decide (name x = n)) as [<-|Hne].
    + left. apply lookup_insert_eq.
    + destruct Hn as [Hn|(l & Hl & Hname)].
      * left. rewrite lookup_insert_ne by exact Hne. exact Hn.
      * apply elem_of_cons in Hl as [->|Hl]; [contradiction|].
        right. exists l. split; assumption.
Qed.


Section Facts.
Context {R : Type}.
Variable clock : nat -> Z.
Variable deserialize : string -> Result R.
Variable serialize : R -> string.
Variable newRecord : string -> R -> list Tag -> WriteOptions -> CacheRecord R.

(** X4. The constructor keeps every level it is given, with its fields, and
    orders them by ascending priority; levels that are given in ascending
    order, ties included, keep the order they were given in. Every level
    starts with all four counters at 0. *)
Theorem constructor_sorts_levels
    (newBloomFilter : number -> number -> Result (BloomFilter.t * string))
    (opts : MultiLevelManagerOptions) (w : World R) (m : t R) :
  constructor newBloomFilter opts w = Ok m ->
  levels m ≡ₚ levelsOption opts /\
  StronglySorted levelOrder (levels m) /\
  (StronglySorted levelOrder (levelsOption opts) -> levels m = levelsOption opts) /\
  (forall l, l ∈ levels m -> metrics m !! name l = Some zeroCounters) /\
  options m = opts.
Proof.
  unfold constructor.
  destruct (initBloomFilter newBloomFilter (managerOptions opts) "MultiLevelManager" w)
    as [[bf w']|e]; [|discriminate].
  intros [= <-]. simpl.
  split; [apply sortLevels_perm|]. split; [apply sortLevels_sorted|].
  split; [apply sortLevels_already_sorted|]. split; [|reflexivity].
  intros l Hl. apply foldl_insert_zero. right. exists l. split; [exact Hl | reflexivity].
Qed.




Lemma del_loop_deletes (k : string) (ls : list CacheLevel) :
  forall (success : bool) (s : t R),
    exists (s' : t R) (evs : list (Event R)),
      del_loop k ls success s = (Ok (success || existsb (deletedBy k) ls), s') /\
      log (its_world s') = log (its_world s) ++ evs /\
      levelDeletes evs = map name (enabledLevels ls) /\
      levelWrites evs = [] /\ levelReads evs = [] /\ executorRuns evs = 0%nat /\
      levels s' = levels s /\ bloomFilter s' = bloomFilter s.
Proof.
  induction ls as [|level rest IH]; intros success s.
  - exists s, []. simpl. rewrite app_nil_r, orb_false_r. repeat split; reflexivity.
  - simpl. unfold enabledLevels, deletedBy at 1. destruct (enabled level) eqn:Hen; simpl.
    + rewrite filter_cons_True by exact Hen. fold (enabledLevels rest).
      unfold try_catch, bind, level_del, logger, emit, modify, lift, bump, ret. simpl.
      destruct (adapter_del (storage level) k) as [[|]|err]; simpl;
        [ destruct (metrics s !! name level) as [c|]; simpl | | ];
        match goal with
        | |- context [del_loop k rest ?b ?st] =>
            destruct (IH b st) as (s' & evs & Hrun & Hlog & Hd & Hw & Hr & Hx & Hl & Hb)
        end;
        rewrite Hrun; simpl in *;
        (eexists s', (LevelDel (name level) k :: _));
        (split; [rewrite ?orb_true_r, ?orb_true_l; reflexivity|]);
        (split; [rewrite Hlog, <- ?app_assoc; simpl; reflexivity|]);
        unfold levelWrites, levelReads, levelDeletes, executorRuns in *;
        rewrite ?omap_app; simpl;
        rewrite ?Hw, ?Hr, ?Hd, ?length_app; simpl;
        repeat split; try assumption; try reflexivity;
        f_equal; exact Hd.
    + rewrite filter_cons_False by (rewrite Hen; discriminate).
      fold (enabledLevels rest). apply IH.
Qed.

(** X6. [del] never throws. It sends one deletion to every enabled level, in
    priority order, and none to a disabled level, and returns true exactly
    when one of these deletions returned true; a level that throws counts
    as not deleted. It writes and reads no level and leaves the Bloom
    filter as it is, so the filter keeps answering for the deleted key as
    before. *)
Theorem del_deletes_from_enabled_levels (k : string) (m : t R) :
  exists (m' : t R) (evs : list (Event R)),
    del k m = (Ok (existsb (deletedBy k) (levels m)), m') /\
    log (its_world m') = log (its_world m) ++ evs /\
    levelDeletes evs = map name (enabledLevels (levels m)) /\
    levelWrites evs = [] /\ levelReads evs = [] /\ executorRuns evs = 0%nat /\
    levels m' = levels m /\ bloomFilter m' = bloomFilter m.
Proof.
  unfold del, bind, gets. cbn -[del_loop].
  destruct (del_loop_deletes k (levels m) false m) as (s' & evs & Hrun & Hrest).
  exists s', evs. rewrite Hrun. split; [reflexivity | exact Hrest].
Qed.

(** The walk of [get] over levels that all miss: it goes on with the rest
    of the levels after one read of each enabled level. *)
Lemma walk_misses (k : string) (opts : ReadWriteOptions) (pre rest : list CacheLevel) :
  forall s : t R,
    (forall l, l ∈ pre -> is_Some (metrics s !! name l)) ->
    (forall l, l ∈ pre -> enabled l = true -> levelMisses k l) ->
    exists (s' : t R) (evs : list (Event R)),
      walk deserialize serialize k opts (pre ++ rest) s =
        walk deserialize serialize k opts rest s' /\
      bloomFilter s' = bloomFilter s /\ levels s' = levels s /\
      options s' = options s /\
      nowReads (its_world s') = nowReads (its_world s) /\
      (forall n, is_Some (metrics s !! n) -> is_Some (metrics s' !! n)) /\
      log (its_world s') = log (its_world s) ++ evs /\
      levelReads evs = map name (enabledLevels pre) /\
      levelWrites evs = [] /\ levelDeletes evs = [] /\ executorRuns evs = 0%nat.
Proof.
  induction pre as [|level pre IH]; intros s Hmet Hmiss.
  - exists s, []. simpl. rewrite app_nil_r. repeat split; try reflexivity.
    intros n Hn. exact Hn.
  - assert (Hrest : forall l, l ∈ pre -> enabled l = true -> levelMisses k l).
    { intros l Hl. apply Hmiss. apply elem_of_cons. right. exact Hl. }
    simpl. unfold enabledLevels. destruct (enabled level) eqn:Hen; simpl.
    + rewrite filter_cons_True by exact Hen. fold (enabledLevels pre).
      pose proof (Hmiss level (list_elem_of_here _ _) Hen) as Hm.
      destruct (Hmet level (list_elem_of_here _ _)) as [c Hc].
      unfold levelMisses in Hm.
      unfold try_catch, bind, logger, emit, modify, level_get, lift, bump, ret. simpl.
      destruct (adapter_get (storage level) k) as [sv|e]; simpl;
        [rewrite Hm; simpl|]; rewrite Hc; simpl;
        match goal with
        | |- context [walk deserialize serialize k opts (pre ++ rest) ?st] =>
            destruct (IH st)
              as (s' & evs & Hw & Hb & Hl & Ho & Hn & Hk & Hlog & Hr & Hws & Hd & Hx);
              [ intros l Hl; simpl; apply lookup_insert_is_Some'; right;
                apply Hmet; apply elem_of_cons; right; exact Hl
              | exact Hrest | ]
        end;
        rewrite Hw; simpl in *;
        (eexists s', (_ :: LevelGet (name level) k :: _));
        (split; [reflexivity|]);
        repeat (split; [assumption|]);
        (split; [intros n Hn'; apply Hk; apply lookup_insert_is_Some'; right; exact Hn'|]);
        (split; [rewrite Hlog, <- ?app_assoc; simpl; reflexivity|]);
        unfold levelWrites, levelReads, levelDeletes, executorRuns in *;
        rewrite ?omap_app; simpl;
        rewrite ?Hws, ?Hr, ?Hd, ?length_app, ?Hx; simpl;
        repeat split; try assumption; try reflexivity;
        f_equal; exact Hr.
    + rewrite filter_cons_False by (rewrite Hen; discriminate).
      fold (enabledLevels pre).
      unfold bind, logger, emit, modify. simpl.
      match goal with
      | |- context [walk deserialize serialize k opts (pre ++ rest) ?st] =>
          destruct (IH st)
            as (s' & evs & Hw & Hb & Hl & Ho & Hn & Hk & Hlog & Hr & Hws & Hd & Hx);
            [ intros l Hl; simpl; apply Hmet; apply elem_of_cons; right; exact Hl
            | exact Hrest | ]
      end.
      rewrite Hw. simpl in *.
      eexists s', (_ :: evs).
      split; [reflexivity|]. repeat (split; [assumption|]).
      split; [rewrite Hlog, <- ?app_assoc; simpl; reflexivity|].
      unfold levelWrites, levelReads, levelDeletes, executorRuns in *. simpl.
      repeat split; assumption.
Qed.

(** The part of [get] after the pre-check, when a level answers. *)
Lemma get_from_levels_hit (k : string) (ex : Executor R) (opts : ReadWriteOptions)
    (m : t R) (pre post : list CacheLevel) (answering : CacheLevel)
    (stored : string) (v : R) :
  levels m = pre ++ answering :: post ->
  metrics_ok m ->
  (forall l, l ∈ pre -> enabled l = true -> levelMisses k l) ->
  enabled answering = true ->
  adapter_get (storage answering) k = Ok (Some stored) ->
  truthyString (Some stored) = true ->
  deserialize stored = Ok v ->
  exists (m' : t R) (evs : list (Event R)),
    get_from_levels clock deserialize serialize newRecord k ex opts m = (Ok v, m') /\
    log (its_world m') = log (its_world m) ++ evs /\
    levelReads evs = map name (enabledLevels pre) ++ [name answering] /\
    levelWrites evs = [] /\ levelDeletes evs = [] /\ executorRuns evs = 0%nat /\
    levels m' = levels m /\
    bloomFilter m' = (fun bf => BloomFilter.add bf (charCodes k)) <$> bloomFilter m.
Proof.
  intros Hlevels Hmet Hmiss Hen Hget Htruthy Hdes.
  unfold get_from_levels, bind, gets. cbn -[walk]. rewrite Hlevels.
  destruct (walk_misses k opts pre (answering :: post) m)
    as (s' & evs & Hw & Hb & Hl & Ho & Hn & Hk & Hlog & Hr & Hws & Hd & Hx).
  { intros l Hin. apply Hmet. rewrite Hlevels. apply elem_of_app. left. exact Hin. }
  { exact Hmiss. }
  rewrite Hw.
  destruct (Hk (name answering)) as [c Hc].
  { apply Hmet. rewrite Hlevels. apply elem_of_app. right. apply list_elem_of_here. }
  cbn -[populateHigherLevels]. rewrite Hen. cbn -[populateHigherLevels].
  unfold try_catch, bind, logger, emit, modify, level_get, lift, bump, ret, bloomAdd.
  cbn -[populateHigherLevels].
  rewrite Hget. cbn -[populateHigherLevels truthyString]. rewrite Htruthy.
  cbn -[populateHigherLevels]. rewrite Hc. cbn -[populateHigherLevels].
  rewrite Hdes. cbn -[populateHigherLevels].
  rewrite MultiLevelFacts.populateHigherLevels_writes_nothing. cbn.
  eexists _, (evs ++ [_; LevelGet (name answering) k; _]).
  split; [reflexivity|].
  destruct (bloomFilter s') as [bf|] eqn:Hbf; cbn; rewrite <- Hb, ?Hbf; cbn;
    (split; [rewrite Hlog, <- ?app_assoc; reflexivity|]);
    unfold levelWrites, levelReads, levelDeletes, executorRuns in *;
    rewrite ?omap_app, ?length_app; cbn;
    rewrite ?Hws, ?Hr, ?Hd, ?Hx, <- ?Hlevels; cbn;
    repeat split; try assumption; try reflexivity.
Qed.

(** X7. The highest-priority answer wins, and nothing is warmed. When the
    pre-check lets the call through, the enabled levels before some enabled
    level all miss (null, the empty string or an exception) and that level
    returns a non-empty string that deserializes, then [get] returns the
    deserialized value. It has read the enabled levels up to and including
    the answering one, once each and in priority order, and no level after
    it; it has written to no level, the missed higher-priority ones
    included, and has not run the executor. The key is marked in the Bloom
    filter. *)
Theorem get_returns_first_answer (k : string) (ex : Executor R) (opts : ReadWriteOptions)
    (m : t R) (pre post : list CacheLevel) (answering : CacheLevel)
    (stored : string) (v : R) :
  levels m = pre ++ answering :: post ->
  bloomPasses (bloomFilter m) k ->
  metrics_ok m ->
  (forall l, l ∈ pre -> enabled l = true -> levelMisses k l) ->
  enabled answering = true ->
  adapter_get (storage answering) k = Ok (Some stored) ->
  truthyString (Some stored) = true ->
  deserialize stored = Ok v ->
  exists (m' : t R) (evs : list (Event R)),
    get clock deserialize serialize newRecord k ex opts m = (Ok v, m') /\
    log (its_world m') = log (its_world m) ++ evs /\
    levelReads evs = map name (enabledLevels pre) ++ [name answering] /\
    levelWrites evs = [] /\ levelDeletes evs = [] /\ executorRuns evs = 0%nat /\
    levels m' = levels m /\
    bloomFilter m' = (fun bf => BloomFilter.add bf (charCodes k)) <$> bloomFilter m.
Proof.
  intros Hlevels Hbloom Hmet Hmiss Hen Hget Htruthy Hdes.
  unfold get, bind, gets. cbn -[get_from_levels].
  unfold bloomPasses in Hbloom.
  destruct (bloomFilter m) as [b|] eqn:Hbf.
  - rewrite Hbloom. cbn -[get_from_levels].
    unfold bind, logger, emit, modify. cbn -[get_from_levels].
    match goal with
    | |- context [get_from_levels _ _ _ _ k ex opts ?st] =>
        destruct (get_from_levels_hit k ex opts st pre post answering stored v)
          as (m' & evs & Hrun & Hlog & Hr & Hw & Hd & Hx & Hl & Hb);
          [exact Hlevels | exact Hmet | exact Hmiss | exact Hen | exact Hget
          | exact Htruthy | exact Hdes | ]
    end.
    rewrite Hrun. cbn in *. rewrite Hbf in Hb.
    eexists m', (_ :: evs). split; [reflexivity|].
    split; [rewrite Hlog, <- ?app_assoc; reflexivity|].
    unfold levelWrites, levelReads, levelDeletes, executorRuns in *. cbn.
    repeat split; assumption.
  - destruct (get_from_levels_hit k ex opts m pre post answering stored v)
      as (m' & evs & Hrun & Hrest); try assumption.
    rewrite Hbf in Hrest. exists m', evs. split; assumption.
Qed.



(** With distinct level names, the assignment to the level that [find]
    returns changes the level of that name and no other. *)
Lemma insert_found_level (n : string) (b : bool) (ls : list CacheLevel) :
  NoDup (map name ls) ->
  match list_find (fun l => name l = n) ls with
  | Some (i, level) => <[i := withEnabled level b]> ls = map (switched n b) ls
  | None => (n ∉ map name ls) /\ map (switched n b) ls = ls
  end.
Proof.
  induction ls as [|l ls IH]; intros Hnd.
  - cbn. split; [apply not_elem_of_nil | reflexivity].
  - cbn [map] in Hnd. apply NoDup_cons in Hnd as [Hnotin Hnd].
    specialize (IH Hnd). cbn [list_find map]. unfold switched at 1 3.
    destruct (decide (name l = n)) as [Heq|Hne].
    + cbn. f_equal.
      assert (Hall : forall l', l' ∈ ls -> switched n b l' = l').
      { intros l' Hin. unfold switched. destruct (decide (name l' = n)) as [Heq'|]; [|reflexivity].
        exfalso. apply Hnotin. rewrite Heq, <- Heq'. apply list_elem_of_fmap.
        exists l'. split; [reflexivity | exact Hin]. }
      clear -Hall. induction ls as [|x xs IHxs]; [reflexivity|]. cbn.
      rewrite Hall by apply list_elem_of_here. f_equal.
      apply IHxs. intros l' Hin. apply Hall, list_elem_of_further, Hin.
    + destruct (list_find (fun l0 => name l0 = n) ls) as [[i level]|]; cbn.
      * f_equal. exact IH.
      * destruct IH as [Hno Hsame]. split; [|f_equal; exact Hsame].
        intros Hin. apply elem_of_cons in Hin as [Heq|Hin]; [congruence | contradiction].
Qed.

Lemma setLevelEnabled_known (levelName : string) (b : bool) (what : string) (m : t R) :
  NoDup (map name (levels m)) ->
  levelName ∈ map name (levels m) ->
  setLevelEnabled levelName b what m =
    (Ok tt, mk (bloomFilter m) (map (switched levelName b) (levels m)) (metrics m)
               (options m)
               (mkWorld (log (its_world m)
                           ++ [Logged Info [Str (what +:+ " level: " +:+ levelName)]])
                        (nowReads (its_world m)))).
Proof.
  intros Hnd Hin. pose proof (insert_found_level levelName b (levels m) Hnd) as Hfound.
  unfold setLevelEnabled, bind, gets, modify, logger, emit. cbn.
  destruct (list_find (fun l => name l = levelName) (levels m)) as [[i level]|].
  - cbn. rewrite Hfound. reflexivity.
  - destruct Hfound as [Hno _]. contradiction.
Qed.

(** X9. Enabling and disabling a configured level. When the level names
    are distinct and [levelName] is one of them, [enableLevel] sets
    [enabled] to true and [disableLevel] sets it to false on the level of
    that name, both leave every other level, the order of the levels, the
    counters and the Bloom filter as they are, and both log one info line;
    they do so whether or not the level already was in that state. *)
Theorem enable_disable_known_level (levelName : string) (m : t R) :
  NoDup (map name (levels m)) ->
  levelName ∈ map name (levels m) ->
  enableLevel levelName m =
    (Ok tt, mk (bloomFilter m) (map (switched levelName true) (levels m)) (metrics m)
               (options m)
               (mkWorld (log (its_world m)
                           ++ [Logged Info [Str ("Enabled level: " +:+ levelName)]])
                        (nowReads (its_world m)))) /\
  disableLevel levelName m =
    (Ok tt, mk (bloomFilter m) (map (switched levelName false) (levels m)) (metrics m)
               (options m)
               (mkWorld (log (its_world m)
                           ++ [Logged Info [Str ("Disabled level: " +:+ levelName)]])
                        (nowReads (its_world m)))).
Proof.
  intros Hnd Hin. split; apply setLevelEnabled_known; assumption.
Qed.

(** X10. The counters of every level exist in every state the manager can
    reach: the constructor creates them, and [get], [set], [del],
    [enableLevel] and [disableLevel] keep them, whether they return or
    throw. So no call fails on a missing counter. *)
Theorem counters_exist_in_every_state
    (newBloomFilter : number -> number -> Result (BloomFilter.t * string)) :
  (forall (opts : MultiLevelManagerOptions) (w : World R) (m : t R),
     constructor newBloomFilter opts w = Ok m -> metrics_ok m) /\
  (forall (k : string) (ex : Executor R) (opts : ReadWriteOptions),
     preserves metrics_ok (get clock deserialize serialize newRecord k ex opts)) /\
  (forall (k : string) (v : R) (opts : option WriteOptions),
     preserves metrics_ok (set clock serialize newRecord k v opts)) /\
  (forall k : string, preserves metrics_ok (del (R := R) k)) /\
  (forall levelName : string, preserves metrics_ok (enableLevel (R := R) levelName)) /\
  (forall levelName : string, preserves metrics_ok (disableLevel (R := R) levelName)).
Proof.
  split; [intros opts w m; apply MultiLevelFacts.constructor_metrics_ok|].
  split; [intros k ex opts; apply MultiLevelFacts.metrics_ok_get|].
  split; [intros k v opts; apply MultiLevelFacts.metrics_ok_set|].
  split; [intros k; apply (MultiLevelFacts.metrics_ok_del clock)|].
  split; intros levelName; apply MultiLevelFacts.metrics_ok_setLevelEnabled.
Qed.

(** X11. A key the Bloom filter does not know is never served from a level
    and never cached by [get]. When the filter answers no for the key,
    [get] returns the outcome of the executor, whatever the levels hold,
    and leaves the filter, the levels and the counters as they were; so the
    next [get] of the key runs its executor again. Only [set], and a [get]
    that went through the levels, mark a key. *)
Theorem get_unmarked_key_is_never_cached (k : string) (ex ex' : Executor R)
    (opts opts' : ReadWriteOptions) (m : t R) (b : BloomFilter.t) :
  bloomFilter m = Some b ->
  BloomFilter.mightContain b (charCodes k) = false ->
  exists (m1 m2 : t R),
    get clock deserialize serialize newRecord k ex opts m = (ex, m1) /\
    get clock deserialize serialize newRecord k ex' opts' m1 = (ex', m2) /\
    log (its_world m2) =
      log (its_world m) ++ [Logged Trace [Str (msgBloomMiss k)]; ExecutorRun;
                            Logged Trace [Str (msgBloomMiss k)]; ExecutorRun] /\
    bloomFilter m2 = Some b /\ levels m2 = levels m /\ metrics m2 = metrics m.
Proof.
  intros Hb Hno.
  pose proof (MultiLevelFacts.get_bloom_negative_runs_executor clock deserialize serialize
                newRecord k ex opts m b Hb Hno) as H1.
  eexists _, _. split; [exact H1|].
  split; [apply MultiLevelFacts.get_bloom_negative_runs_executor with (b := b);
          [exact Hb | exact Hno]|].
  cbn. rewrite <- app_assoc. split; [reflexivity|]. split; [exact Hb|].
  split; reflexivity.
Qed.

End Facts.

(** The two-level manager of the scenarios, whose levels are passed lowest
    priority first. *)
Lemma constructor_sorts_levels_witness :
  let opts :=
    mkOptions [Scenario.L2 (Scenario.holding "k" "v"); Scenario.L1 Scenario.emptyAdapter]
              None (mkManagerOptions false None) in
  constructor Scenario.newBloomFilter opts Scenario.world0 = Ok Scenario.warmUpManager /\
  levels Scenario.warmUpManager ≡ₚ levelsOption opts /\
  StronglySorted levelOrder (levels Scenario.warmUpManager) /\
  (StronglySorted levelOrder (levelsOption opts) ->
   levels Scenario.warmUpManager = levelsOption opts) /\
  (forall l, l ∈ levels Scenario.warmUpManager ->
             metrics Scenario.warmUpManager !! name l = Some zeroCounters) /\
  options Scenario.warmUpManager = opts.
Proof.
  intros opts.
  assert (H1 : constructor Scenario.newBloomFilter opts Scenario.world0
               = Ok Scenario.warmUpManager) by reflexivity.
  split; [exact H1|].
  exact (constructor_sorts_levels Scenario.newBloomFilter opts Scenario.world0
           Scenario.warmUpManager H1).
Defined.

(** L1 is empty and L2 holds ["v"] at ["k"]. *)
Lemma get_returns_first_answer_witness :
  exists (m' : t string) (evs : list (Event string)),
    get Scenario.clock Scenario.deserialize Scenario.serialize Scenario.newRecord
        "k" (Ok "fresh") noOptions Scenario.warmUpManager = (Ok "v", m') /\
    log (its_world m') = log (its_world Scenario.warmUpManager) ++ evs /\
    levelReads evs = ["L1-Memory"; "L2-Redis"] /\
    levelWrites evs = [] /\ levelDeletes evs = [] /\ executorRuns evs = 0%nat /\
    levels m' = levels Scenario.warmUpManager /\
    bloomFilter m' = None.
Proof.
  assert (H1 : levels Scenario.warmUpManager =
               [Scenario.L1 Scenario.emptyAdapter]
                 ++ Scenario.L2 (Scenario.holding "k" "v") :: []) by reflexivity.
  assert (H2 : bloomPasses (bloomFilter Scenario.warmUpManager) "k") by exact I.
  assert (H3 : metrics_ok Scenario.warmUpManager).
  { intros l Hl. vm_compute in Hl.
    repeat (apply elem_of_cons in Hl as [->|Hl]); [vm_compute; eauto..|].
    inversion Hl. }
  assert (H4 : forall l, l ∈ [Scenario.L1 Scenario.emptyAdapter] ->
                         enabled l = true -> levelMisses "k" l).
  { intros l Hl _. apply elem_of_cons in Hl as [->|Hl]; [reflexivity | inversion Hl]. }
  exact (get_returns_first_answer Scenario.clock Scenario.deserialize Scenario.serialize
           Scenario.newRecord "k" (Ok "fresh") noOptions Scenario.warmUpManager
           [Scenario.L1 Scenario.emptyAdapter] [] (Scenario.L2 (Scenario.holding "k" "v"))
           "v" "v" H1 H2 H3 H4 eq_refl eq_refl eq_refl eq_refl).
Defined.


(** The two-level manager and the name of its first level. *)
Lemma enable_disable_known_level_witness :
  NoDup (map name (levels Scenario.warmUpManager)) /\
  "L1-Memory" ∈ map name (levels Scenario.warmUpManager) /\
  map enabled (levels (disableLevel "L1-Memory" Scenario.warmUpManager).2) = [false; true] /\
  map enabled (levels (enableLevel "L1-Memory" Scenario.warmUpManager).2) = [true; true].
Proof.
  assert (H1 : NoDup (map name (levels Scenario.warmUpManager))).
  { apply (bool_decide_unpack _). vm_compute. exact I. }
  assert (H2 : "L1-Memory" ∈ map name (levels Scenario.warmUpManager)).
  { apply list_elem_of_here. }
  split; [exact H1|]. split; [exact H2|].
  destruct (enable_disable_known_level "L1-Memory" Scenario.warmUpManager H1 H2)
    as [Hon Hoff].
  rewrite Hon, Hoff. split; reflexivity.
Defined.

(** The manager with a Bloom filter that has seen no key. *)
Lemma get_unmarked_key_is_never_cached_witness :
  bloomFilter (Scenario.coldManager true) = Some TierScenario.filter64 /\
  BloomFilter.mightContain TierScenario.filter64 (charCodes "k") = false /\
  exists (m1 m2 : t string),
    get Scenario.clock Scenario.deserialize Scenario.serialize Scenario.newRecord
        "k" (Ok "first") noOptions (Scenario.coldManager true) = (Ok "first", m1) /\
    get Scenario.clock Scenario.deserialize Scenario.serialize Scenario.newRecord
        "k" (Ok "second") noOptions m1 = (Ok "second", m2) /\
    log (its_world m2) =
      log (its_world (Scenario.coldManager true))
        ++ [Logged Trace [Str (msgBloomMiss "k")]; ExecutorRun;
            Logged Trace [Str (msgBloomMiss "k")]; ExecutorRun] /\
    bloomFilter m2 = Some TierScenario.filter64 /\
    levels m2 = levels (Scenario.coldManager true) /\
    metrics m2 = metrics (Scenario.coldManager true).
Proof.
  assert (H1 : bloomFilter (Scenario.coldManager true) = Some TierScenario.filter64)
    by reflexivity.
  assert (H2 : BloomFilter.mightContain TierScenario.filter64 (charCodes "k") = false)
    by (vm_compute; reflexivity).
  split; [exact H1|]. split; [exact H2|].
  exact (get_unmarked_key_is_never_cached Scenario.clock Scenario.deserialize
           Scenario.serialize Scenario.newRecord "k" (Ok "first") (Ok "second")
           noOptions noOptions (Scenario.coldManager true) TierScenario.filter64 H1 H2).
Defined.

End MultiLevelMore.

(** ** In-memory storage adapter *)

Module InMemoryFacts.
Import InMemoryStorageAdapter.
Import MethodFacts.

Lemma map_get_set_eq (k : string) (item : CacheItem) (m : Entries) :
  map_get k (map_set k item m) = Some item.
Proof.
  induction m as [|[k' i'] rest IH]; simpl.
  - rewrite String.eqb_refl. reflexivity.
  - destruct (String.eqb k' k) eqn:Hk; simpl; rewrite Hk; [reflexivity | exact IH].
Qed.

Lemma map_get_set_ne (k k' : string) (item : CacheItem) (m : Entries) :
  k <> k' -> map_get k' (map_set k item m) = map_get k' m.
Proof.
  intros Hne. induction m as [|[k0 i0] rest IH]; simpl.
  - destruct (String.eqb_spec k k'); [contradiction | reflexivity].
  - destruct (String.eqb_spec k0 k) as [->|Hk]; simpl.
    + destruct (String.eqb_spec k k'); [contradiction | reflexivity].
    + destruct (String.eqb k0 k'); [reflexivity | exact IH].
Qed.

Lemma map_get_delete_eq (k : string) (m : Entries) :
  map_get k (map_delete k m) = None.
Proof.
  induction m as [|[k' i'] rest IH]; simpl; [reflexivity|].
  destruct (String.eqb k' k) eqn:Hk; simpl; [exact IH|]. rewrite Hk. exact IH.
Qed.

Lemma map_get_delete_ne (k k' : string) (m : Entries) :
  k <> k' -> map_get k' (map_delete k m) = map_get k' m.
Proof.
  intros Hne. induction m as [|[k0 i0] rest IH]; simpl; [reflexivity|].
  destruct (String.eqb_spec k0 k) as [->|Hk]; simpl.
  - destruct (String.eqb_spec k k'); [contradiction | exact IH].
  - destruct (String.eqb k0 k'); [reflexivity | exact IH].
Qed.

Lemma map_delete_absent (k : string) (m : Entries) :
  map_get k m = None -> map_delete k m = m.
Proof.
  induction m as [|[k' i'] rest IH]; simpl; [reflexivity|].
  destruct (String.eqb k' k); [discriminate|]. intros H. rewrite IH by exact H. reflexivity.
Qed.

Lemma length_map_delete (k : string) (m : Entries) :
  (length (map_delete k m) <= length m)%nat.
Proof.
  induction m as [|[k' i'] rest IH]; simpl; [lia|].
  destruct (String.eqb k' k); simpl; lia.
Qed.

Lemma length_map_delete_present (k : string) (m : Entries) :
  is_Some (map_get k m) -> (length (map_delete k m) < length m)%nat.
Proof.
  induction m as [|[k' i'] rest IH]; simpl.
  - intros [? ?]. discriminate.
  - pose proof (length_map_delete k rest).
    destruct (String.eqb k' k); simpl; [lia|]. intros H'. specialize (IH H'). lia.
Qed.

Lemma length_map_set (k : string) (item : CacheItem) (m : Entries) :
  length (map_set k item m) =
    if map_has k m then length m else Datatypes.S (length m).
Proof.
  unfold map_has. induction m as [|[k' i'] rest IH]; simpl; [reflexivity|].
  destruct (String.eqb k' k); simpl; [reflexivity|].
  rewrite IH. destruct (bool_decide (is_Some (map_get k rest))); reflexivity.
Qed.

(** *** The victim of an eviction *)

Lemma elem_map_get (k : string) (item : CacheItem) (m : Entries) :
  map_get k m = Some item -> (k, item) ∈ m.
Proof.
  induction m as [|[k' i'] rest IH]; simpl; [discriminate|].
  destruct (String.eqb_spec k' k) as [->|_].
  - intros [= ->]. apply list_elem_of_here.
  - intros H. apply list_elem_of_further, IH, H.
Qed.

Lemma elem_map_get_inv (k : string) (item : CacheItem) (m : Entries) :
  (k, item) ∈ m -> is_Some (map_get k m).
Proof.
  induction m as [|[k' i'] rest IH]; simpl; intros Hin; [inversion Hin|].
  destruct (String.eqb_spec k' k); [eauto|].
  apply IH. apply elem_of_cons in Hin as [[= <- <-]|Hin]; [contradiction | exact Hin].
Qed.

Lemma map_get_elem (k : string) (item : CacheItem) (m : Entries) :
  NoDup (map fst m) -> (k, item) ∈ m -> map_get k m = Some item.
Proof.
  induction m as [|[k' i'] rest IH]; simpl; intros Hnd Hin; [inversion Hin|].
  apply NoDup_cons in Hnd as [Hk' Hnd].
  apply elem_of_cons in Hin as [[= -> ->]|Hin].
  - rewrite String.eqb_refl. reflexivity.
  - destruct (String.eqb_spec k' k) as [->|_]; [|apply IH; assumption].
    exfalso. apply Hk'. apply list_elem_of_fmap. exists (k, item). split; [reflexivity | exact Hin].
Qed.

(** With a candidate at hand the loop returns a key that is not a lock key
    and whose time is the least. *)
Lemma oldest_from (m : Entries) :
  forall (k0 : string) (t0 : Z) (r : string),
    oldest m (Some k0) (Some t0) = Some r ->
    exists tr,
      (r = k0 /\ tr = t0 \/
       exists item, (r, item) ∈ m /\ endsWith "_lock" r = false /\ item_createdAt item = tr) /\
      tr <= t0 /\
      forall k2 i2, (k2, i2) ∈ m -> endsWith "_lock" k2 = false -> tr <= item_createdAt i2.
Proof.
  induction m as [|[k i] rest IH]; intros k0 t0 r; simpl.
  - intros [= <-]. exists t0. split; [left; split; reflexivity|]. split; [lia|].
    intros k2 i2 Hin. inversion Hin.
  - destruct (endsWith "_lock" k) eqn:Hlock.
    + intros Hr. destruct (IH _ _ _ Hr) as (tr & Hwho & Hle & Hmin).
      exists tr. split; [|split; [exact Hle|]].
      * destruct Hwho as [Hwho|(item & Hin & Hnl & Ht)]; [left; exact Hwho|].
        right. exists item. split; [apply list_elem_of_further, Hin | split; assumption].
      * intros k2 i2 Hin Hnl. apply elem_of_cons in Hin as [[= -> ->]|Hin]; [congruence|].
        eapply Hmin; eassumption.
    + destruct (Z.ltb_spec (item_createdAt i) t0) as [Hlt|Hge].
      * intros Hr. destruct (IH _ _ _ Hr) as (tr & Hwho & Hle & Hmin).
        exists tr. split; [|split; [lia|]].
        -- right. destruct Hwho as [[-> ->]|(item & Hin & Hnl & Ht)].
           ++ exists i. split; [apply list_elem_of_here | split; [exact Hlock | reflexivity]].
           ++ exists item. split; [apply list_elem_of_further, Hin | split; assumption].
        -- intros k2 i2 Hin Hnl. apply elem_of_cons in Hin as [[= -> ->]|Hin]; [exact Hle|].
           eapply Hmin; eassumption.
      * intros Hr. destruct (IH _ _ _ Hr) as (tr & Hwho & Hle & Hmin).
        exists tr. split; [|split; [exact Hle|]].
        -- destruct Hwho as [Hwho|(item & Hin & Hnl & Ht)]; [left; exact Hwho|].
           right. exists item. split; [apply list_elem_of_further, Hin | split; assumption].
        -- intros k2 i2 Hin Hnl. apply elem_of_cons in Hin as [[= -> ->]|Hin]; [lia|].
           eapply Hmin; eassumption.
Qed.

Lemma oldest_some (m : Entries) (r : string) :
  oldest m None None = Some r ->
  exists item,
    (r, item) ∈ m /\ endsWith "_lock" r = false /\
    forall k2 i2, (k2, i2) ∈ m -> endsWith "_lock" k2 = false ->
                  item_createdAt item <= item_createdAt i2.
Proof.
  induction m as [|[k i] rest IH]; simpl; [discriminate|].
  destruct (endsWith "_lock" k) eqn:Hlock.
  - intros Hr. destruct (IH Hr) as (item & Hin & Hnl & Hmin).
    exists item. split; [apply list_elem_of_further, Hin|]. split; [exact Hnl|].
    intros k2 i2 Hin2 Hnl2. apply elem_of_cons in Hin2 as [[= -> ->]|Hin2]; [congruence|].
    eapply Hmin; eassumption.
  - intros Hr. destruct (oldest_from _ _ _ _ Hr) as (tr & Hwho & Hle & Hmin).
    destruct Hwho as [[-> ->]|(item & Hin & Hnl & Ht)].
    + exists i. split; [apply list_elem_of_here|]. split; [exact Hlock|].
      intros k2 i2 Hin2 Hnl2. apply elem_of_cons in Hin2 as [[= -> ->]|Hin2]; [lia|].
      eapply Hmin; eassumption.
    + exists item. split; [apply list_elem_of_further, Hin|]. split; [exact Hnl|].
      subst tr. intros k2 i2 Hin2 Hnl2.
      apply elem_of_cons in Hin2 as [[= -> ->]|Hin2]; [exact Hle|].
      eapply Hmin; eassumption.
Qed.

Lemma oldest_from_is_some (m : Entries) :
  forall k0 t0, is_Some (oldest m (Some k0) (Some t0)).
Proof.
  induction m as [|[k i] rest IH]; intros k0 t0; simpl; [eauto|].
  destruct (endsWith "_lock" k); [apply IH|].
  destruct (item_createdAt i <? t0); apply IH.
Qed.

Lemma oldest_none (m : Entries) :
  oldest m None None = None <->
  forall k i, (k, i) ∈ m -> endsWith "_lock" k = true.
Proof.
  induction m as [|[k i] rest IH]; simpl.
  - split; [intros _ k i Hin; inversion Hin | reflexivity].
  - destruct (endsWith "_lock" k) eqn:Hlock.
    + rewrite IH. split.
      * intros Hall k2 i2 Hin. apply elem_of_cons in Hin as [[= -> ->]|Hin]; eauto.
      * intros Hall k2 i2 Hin. eapply Hall, list_elem_of_further, Hin.
    + split.
      * intros Hnone. destruct (oldest_from_is_some rest k (item_createdAt i)) as [r Hr].
        congruence.
      * intros Hall. specialize (Hall k i (list_elem_of_here _ _)). congruence.
Qed.

(** *** The keys of the entries stay distinct *)

Lemma keys_map_delete (k : string) (m : Entries) :
  map fst (map_delete k m) = filter (fun k' => k' <> k) (map fst m).
Proof.
  induction m as [|[k' i'] rest IH]; simpl; [reflexivity|].
  destruct (String.eqb_spec k' k) as [->|Hne].
  - rewrite filter_cons_False by (intros H; apply H; reflexivity). exact IH.
  - rewrite filter_cons_True by exact Hne. simpl. rewrite IH. reflexivity.
Qed.

Lemma NoDup_map_delete (k : string) (m : Entries) :
  NoDup (map fst m) -> NoDup (map fst (map_delete k m)).
Proof. intros H. rewrite keys_map_delete. apply NoDup_filter, H. Qed.

Lemma NoDup_map_set (k : string) (item : CacheItem) (m : Entries) :
  NoDup (map fst m) -> NoDup (map fst (map_set k item m)).
Proof.
  induction m as [|[k' i'] rest IH]; simpl; intros Hnd.
  - apply NoDup_singleton.
  - apply NoDup_cons in Hnd as [Hk' Hnd].
    destruct (String.eqb_spec k' k) as [->|Hne]; simpl.
    + apply NoDup_cons. split; assumption.
    + apply NoDup_cons. split; [|apply IH, Hnd].
      intros Hin. apply list_elem_of_fmap in Hin as ([k2 i2] & Hk2 & Hin). simpl in Hk2.
      subst k2. apply Hk'. apply list_elem_of_fmap.
      destruct (map_get k' rest) as [i3|] eqn:Hget.
      * exists (k', i3). split; [reflexivity | apply elem_map_get, Hget].
      * exfalso. apply elem_map_get_inv in Hin.
        rewrite map_get_set_ne in Hin by exact (not_eq_sym Hne).
        destruct Hin as [? ?]. congruence.
Qed.

Lemma NoDup_evictOldest (m : Entries) :
  NoDup (map fst m) -> NoDup (map fst (evictOldest m)).
Proof.
  intros H. unfold evictOldest. destruct (oldest m None None); [|exact H].
  apply NoDup_map_delete, H.
Qed.

Section Facts.
Variable clock : nat -> Z.

(** [get] returns what is visible at its reading of the clock; an expired
    entry is removed, nothing else changes. *)
Lemma get_visible (k : string) (s : t) :
  let now := clock (nowReads (its_world s)) in
  exists s',
    get clock k s = (Ok (visible (storage s) k now), s') /\
    storage s' = (if visible (storage s) k now is None
                  then map_delete k (storage s) else storage s) /\
    locks s' = locks s /\ maxSize s' = maxSize s.
Proof.
  intros now. unfold get, visible, isExpired, expiredAt, setStorage, dateNow, bind, ret,
    gets, modify. simpl.
  destruct (map_get k (storage s)) as [item|] eqn:Hitem; simpl.
  - destruct (MultiLevelManager.truthyNumber (expiresAt item)); simpl.
    + fold now. destruct (now >? default 0 (expiresAt item)); simpl;
        eexists; repeat split; reflexivity.
    + eexists; repeat split; reflexivity.
  - eexists; repeat split; try reflexivity. simpl.
    symmetry. apply map_delete_absent, Hitem.
Qed.

(** [set] always succeeds; it makes room, then stores the item under the
    key. *)
Lemma set_state (k v : string) (e : option Z) (s : t) :
  let n := nowReads (its_world s) in
  let reads := if MultiLevelManager.truthyNumber e then 1%nat else 0%nat in
  set clock k v e s =
    (Ok true,
     mk (map_set k (mkItem v (expiryOf (clock n) e) (clock (n + reads)%nat))
                 (roomFor k (maxSize s) (storage s)))
        (locks s) (maxSize s)
        (mkWorld (log (its_world s)) (Datatypes.S (n + reads)))).
Proof.
  unfold set, makeRoom, roomFor, expiryOf, setStorage, dateNow, bind, ret, gets, modify.
  simpl.
  destruct (MultiLevelManager.truthyNumber e); simpl;
    destruct ((maxSize s <=? Z.of_nat (length (storage s))) &&
              negb (map_has k (storage s))); simpl;
    rewrite ?Nat.add_0_r, ?Nat.add_1_r; reflexivity.
Qed.

(** X12. [set] always returns true, and a [get] of the same key that follows
    it returns the value written: always, when no TTL was given ([expiresIn]
    absent or 0, or the corner where the expiry time itself is 0), and
    otherwise as long as the clock read by [get] is not past the clock read
    by [set] plus [expiresIn]; past it, [get] returns null. A full store
    does not matter: the eviction never removes the key being written. *)
Theorem set_then_get (k v : string) (e : option Z) (s : t) :
  let s1 := (set clock k v e s).2 in
  let written := clock (nowReads (its_world s)) in
  let read := clock (nowReads (its_world s1)) in
  (set clock k v e s).1 = Ok true /\
  (e = None \/ e = Some 0 -> (get clock k s1).1 = Ok (Some v)) /\
  (forall d, e = Some d -> d <> 0 ->
     (get clock k s1).1 =
       Ok (if (written + d =? 0) || (read <=? written + d) then Some v else None)).
Proof.
  intros s1 written read. subst s1 read. rewrite set_state. simpl.
  split; [reflexivity|].
  match goal with |- context [get clock k ?st] => set (s1 := st) end.
  destruct (get_visible k s1) as (s2 & Hget & _). rewrite Hget. simpl.
  unfold visible. subst s1. simpl. rewrite map_get_set_eq. unfold expiredAt, expiryOf.
  simpl. split.
  - intros [-> | ->]; reflexivity.
  - intros d -> Hd. simpl.
    destruct (Z.eqb_spec d 0) as [?|_]; [contradiction|]. simpl.
    fold written.
    destruct (Z.eqb_spec (written + d) 0) as [H0|H0]; simpl; [reflexivity|].
    rewrite Z.gtb_ltb.
    match goal with |- context [?a <? ?b] => destruct (Z.ltb_spec a b) end;
    match goal with |- context [?a <=? ?b] => destruct (Z.leb_spec a b) end;
    simpl; first [reflexivity | lia].
Qed.

(** X13. [del] returns true exactly when an entry is stored under the key,
    expired or not; after it a [get] of the key returns null, and the
    entries of the other keys and the lock set are as before. *)
Theorem del_then_get (k : string) (s : t) :
  let s1 := (del k s).2 in
  (del k s).1 = Ok (bool_decide (is_Some (map_get k (storage s)))) /\
  (get clock k s1).1 = Ok None /\
  (forall k', k' <> k -> map_get k' (storage s1) = map_get k' (storage s)) /\
  locks s1 = locks s.
Proof.
  intros s1. subst s1. unfold del, setStorage, bind, ret, gets, modify. simpl.
  split; [reflexivity|].
  match goal with |- context [get clock k ?st] => set (s1 := st) end.
  destruct (get_visible k s1) as (s2 & Hget & _). rewrite Hget. simpl.
  unfold visible. subst s1. simpl. rewrite map_get_delete_eq.
  repeat split. intros k' Hne. apply map_get_delete_ne. congruence.
Qed.

(** The lifetime of a lock taken at [now]:
    [lockExpireTimeout ? now + lockExpireTimeout : now + 20000]. *)
Lemma acquireLock_free (k : string) (timeout : option Z) (s : t) :
  map_get (lockKeyOf k) (storage s) = None ->
  let n := nowReads (its_world s) in
  acquireLock clock k timeout s =
    (Ok true,
     mk (map_set (lockKeyOf k)
                 (mkItem "locked" (Some (lockDeadline (clock n) timeout)) (clock (Datatypes.S n)))
                 (storage s))
        ({[lockKeyOf k]} ∪ locks s) (maxSize s)
        (mkWorld (log (its_world s)) (Datatypes.S (Datatypes.S n)))).
Proof.
  intros Hfree n. unfold acquireLock, lockDeadline, setStorage, setLocks, dateNow, bind,
    ret, gets, modify. simpl. rewrite Hfree. simpl.
  destruct (MultiLevelManager.truthyNumber timeout); reflexivity.
Qed.

Lemma acquireLock_held (k : string) (timeout : option Z) (s : t) (item : CacheItem)
    (deadline : Z) :
  map_get (lockKeyOf k) (storage s) = Some item ->
  expiresAt item = Some deadline ->
  deadline <> 0 ->
  clock (Datatypes.S (nowReads (its_world s))) < deadline ->
  acquireLock clock k timeout s =
    (Ok false,
     mk (storage s) (locks s) (maxSize s)
        (mkWorld (log (its_world s)) (Datatypes.S (Datatypes.S (nowReads (its_world s)))))).
Proof.
  intros Hitem Hexp Hnz Hlt. unfold acquireLock, setStorage, setLocks, dateNow, bind,
    ret, gets, modify. simpl. rewrite Hitem, Hexp. simpl.
  destruct (Z.eqb_spec deadline 0) as [?|_]; [contradiction|]. simpl.
  destruct (Z.ltb_spec (clock (Datatypes.S (nowReads (its_world s)))) deadline); [|lia].
  reflexivity.
Qed.

(** X14. Mutual exclusion until expiry. On a store with no entry under
    [<key>_lock], [acquireLock] returns true; a second [acquireLock] of the
    key returns false and changes neither the entries nor the lock set as
    long as the clock it checks is before the deadline of the first (its
    clock plus the timeout, 20000 ms when none is given); once the clock has
    reached the deadline the second call takes the lock over and returns
    true. *)
Theorem acquireLock_excludes_until_deadline (k : string) (timeout timeout' : option Z)
    (s : t) :
  map_get (lockKeyOf k) (storage s) = None ->
  let s1 := (acquireLock clock k timeout s).2 in
  let deadline := lockDeadline (clock (nowReads (its_world s))) timeout in
  let checked := clock (Datatypes.S (nowReads (its_world s1))) in
  (acquireLock clock k timeout s).1 = Ok true /\
  (deadline <> 0 -> checked < deadline ->
     (acquireLock clock k timeout' s1).1 = Ok false /\
     storage (acquireLock clock k timeout' s1).2 = storage s1 /\
     locks (acquireLock clock k timeout' s1).2 = locks s1) /\
  (deadline <> 0 -> deadline <= checked ->
     (acquireLock clock k timeout' s1).1 = Ok true).
Proof.
  intros Hfree s1 deadline checked. subst s1 checked.
  rewrite (acquireLock_free k timeout s Hfree).
  match goal with |- context [(Ok true, ?st)] => remember st as s1 eqn:Hs1 end.
  cbn [fst snd]. split; [reflexivity|].
  assert (Hitem : map_get (lockKeyOf k) (storage s1) =
                  Some (mkItem "locked" (Some deadline)
                               (clock (Datatypes.S (nowReads (its_world s)))))).
  { rewrite Hs1. simpl. apply map_get_set_eq. }
  assert (Hreads : nowReads (its_world s1) = Datatypes.S (Datatypes.S (nowReads (its_world s)))).
  { rewrite Hs1. reflexivity. }
  split.
  - intros Hnz Hlt.
    rewrite (acquireLock_held k timeout' s1 _ deadline Hitem eq_refl Hnz Hlt).
    repeat split; reflexivity.
  - intros Hnz Hge.
    unfold acquireLock, setStorage, setLocks, dateNow, bind, ret, gets, modify.
    cbn -[lockDeadline map_get map_set]. rewrite Hitem. cbn -[lockDeadline map_get map_set].
    destruct (Z.eqb_spec deadline 0) as [?|_]; [contradiction|].
    cbn -[lockDeadline map_get map_set].
    match goal with |- context [?a <? deadline] => destruct (Z.ltb_spec a deadline) end;
      [ lia | reflexivity ].
Qed.

Lemma map_delete_set_absent (k : string) (item : CacheItem) (m : Entries) :
  map_get k m = None -> map_delete k (map_set k item m) = m.
Proof.
  induction m as [|[k' i'] rest IH]; simpl.
  - rewrite String.eqb_refl. reflexivity.
  - destruct (String.eqb k' k) eqn:Hk; [discriminate|]. intros H.
    simpl. rewrite Hk, IH by exact H. reflexivity.
Qed.

(** X15. Taking and releasing a lock. On a store where the key is not
    locked, [releaseLock] returns false; after [acquireLock] it returns
    true, whatever the clock (also after the deadline of the lock), and
    leaves the entries and the lock set exactly as they were before the
    lock was taken, so that [isLockExists] is false and the lock can be
    taken again. *)
Theorem acquire_then_release (k : string) (timeout timeout' : option Z) (s : t) :
  map_get (lockKeyOf k) (storage s) = None ->
  lockKeyOf k ∉ locks s ->
  let s1 := (acquireLock clock k timeout s).2 in
  let s2 := (releaseLock k s1).2 in
  (releaseLock k s).1 = Ok false /\
  (releaseLock k s1).1 = Ok true /\
  storage s2 = storage s /\
  locks s2 = locks s /\
  (isLockExists clock k s2).1 = Ok false /\
  (acquireLock clock k timeout' s2).1 = Ok true.
Proof.
  intros Hfree Hnot s1 s2. subst s2 s1.
  rewrite (acquireLock_free k timeout s Hfree).
  unfold releaseLock, setStorage, setLocks, bind, ret, gets, modify. cbn [fst snd].
  cbn -[lockDeadline map_get map_set map_delete lockKeyOf acquireLock isLockExists].
  rewrite map_delete_set_absent by exact Hfree.
  assert (Hlocks : ({[lockKeyOf k]} ∪ locks s) ∖ {[lockKeyOf k]} = locks s).
  { apply set_eq. intros x.
    rewrite elem_of_difference, elem_of_union, elem_of_singleton.
    split; [intros [[->|Hx] Hne]; [contradiction | exact Hx]|].
    intros Hx. split; [right; exact Hx | intros ->; contradiction]. }
  rewrite Hlocks.
  split; [apply f_equal, bool_decide_eq_false_2, Hnot|].
  split; [apply f_equal, bool_decide_eq_true_2, elem_of_union; left;
          apply elem_of_singleton; reflexivity|].
  split; [reflexivity|]. split; [reflexivity|]. split.
  - unfold isLockExists, bind, gets, ret. cbn -[map_get lockKeyOf].
    rewrite Hfree. reflexivity.
  - rewrite acquireLock_free by exact Hfree. reflexivity.
Qed.

(** X16. Locks and values share one key space. After a value was stored
    without TTL under [<key>_lock], the lock of [<key>] cannot be taken at
    any time: [acquireLock] returns false, whatever the timeout,
    [isLockExists] returns true, and a [releaseLock] of the key deletes the
    stored value. *)
Theorem value_under_lock_key_blocks_lock (k v : string) (timeout : option Z) (s : t) :
  let s1 := (set clock (lockKeyOf k) v None s).2 in
  (acquireLock clock k timeout s1).1 = Ok false /\
  (isLockExists clock k s1).1 = Ok true /\
  (get clock (lockKeyOf k) s1).1 = Ok (Some v) /\
  (get clock (lockKeyOf k) (releaseLock k s1).2).1 = Ok None.
Proof.
  intros s1. subst s1. rewrite set_state.
  match goal with |- context [(Ok true, ?st)] => remember st as s1 eqn:Hs1 end.
  cbn [fst snd].
  assert (Hitem : map_get (lockKeyOf k) (storage s1) =
                  Some (mkItem v None (clock (nowReads (its_world s) + 0)%nat))).
  { rewrite Hs1. simpl. apply map_get_set_eq. }
  repeat split.
  - unfold acquireLock, dateNow, bind, ret, gets. cbn -[map_get lockKeyOf].
    rewrite Hitem. reflexivity.
  - unfold isLockExists, isExpired, bind, ret, gets. cbn -[map_get lockKeyOf].
    rewrite Hitem. reflexivity.
  - destruct (get_visible (lockKeyOf k) s1) as (s2 & Hget & _). rewrite Hget.
    unfold visible. rewrite Hitem. reflexivity.
  - unfold releaseLock, setStorage, setLocks, bind, ret, gets, modify.
    cbn -[map_get map_delete lockKeyOf get].
    match goal with |- context [get clock _ ?st] => set (s3 := st) end.
    destruct (get_visible (lockKeyOf k) s3) as (s4 & Hget & _). rewrite Hget.
    unfold visible. subst s3. cbn -[map_get map_delete lockKeyOf].
    rewrite map_get_delete_eq. reflexivity.
Qed.

Lemma evictOldest_keeps_locks (k' : string) (m : Entries) :
  endsWith "_lock" k' = true -> map_get k' (evictOldest m) = map_get k' m.
Proof.
  intros Hlock. unfold evictOldest.
  destruct (oldest m None None) as [ko|] eqn:Ho; [|reflexivity].
  destruct (oldest_some m ko Ho) as (item & _ & Hnl & _).
  apply map_get_delete_ne. congruence.
Qed.

Lemma storage_after_set (k v : string) (e : option Z) (s : t) :
  exists item,
    storage (set clock k v e s).2 = map_set k item (roomFor k (maxSize s) (storage s)).
Proof. rewrite set_state. eexists. reflexivity. Qed.

(** X17. What an eviction can cost. A [set] never removes the entry of
    another key that ends in [_lock]. When the store holds an entry that is
    not a lock, the number of entries after the [set] is at most the larger
    of the number before and [maxSize]; when it holds only lock entries (or
    nothing) nothing can be evicted and a new key makes the store grow by
    one, whatever [maxSize] is. *)
Theorem set_eviction_bounds (k v : string) (e : option Z) (s : t) :
  let s1 := (set clock k v e s).2 in
  (forall k', endsWith "_lock" k' = true -> k' <> k ->
     map_get k' (storage s1) = map_get k' (storage s)) /\
  ((exists k0 i0, (k0, i0) ∈ storage s /\ endsWith "_lock" k0 = false) ->
     Z.of_nat (length (storage s1)) <= Z.max (Z.of_nat (length (storage s))) (maxSize s)) /\
  ((forall k0 i0, (k0, i0) ∈ storage s -> endsWith "_lock" k0 = true) ->
     map_get k (storage s) = None ->
     length (storage s1) = Datatypes.S (length (storage s))).
Proof.
  intros s1. subst s1. destruct (storage_after_set k v e s) as [item ->].
  unfold roomFor. split; [|split].
  - intros k' Hlock Hne. rewrite map_get_set_ne by congruence.
    destruct ((maxSize s <=? Z.of_nat (length (storage s))) &&
              negb (map_has k (storage s))); [|reflexivity].
    apply evictOldest_keeps_locks, Hlock.
  - intros (k0 & i0 & Hin & Hnl). rewrite length_map_set.
    destruct (Z.leb_spec (maxSize s) (Z.of_nat (length (storage s)))) as [Hfull|Hroom];
      simpl.
    + destruct (map_has k (storage s)) eqn:Hhas; simpl; [rewrite Hhas; lia|].
      unfold evictOldest.
      destruct (oldest (storage s) None None) as [ko|] eqn:Ho.
      * destruct (oldest_some _ _ Ho) as (io & Hino & _ & _).
        assert (Hlt : (length (map_delete ko (storage s)) < length (storage s))%nat).
        { apply length_map_delete_present.
          clear -Hino. induction (storage s) as [|[k' i'] rest IH]; simpl.
          - inversion Hino.
          - destruct (String.eqb_spec k' ko); [eauto|].
            apply IH. apply elem_of_cons in Hino as [[= <- <-]|Hino];
              [contradiction | exact Hino]. }
        destruct (map_has k (map_delete ko (storage s))); lia.
      * exfalso. pose proof (proj1 (oldest_none _) Ho _ _ Hin). congruence.
    + destruct (map_has k (storage s)); lia.
  - intros Hall Hfree. rewrite length_map_set.
    assert (Hsame : (if (maxSize s <=? Z.of_nat (length (storage s))) &&
                        negb (map_has k (storage s))
                     then evictOldest (storage s) else storage s) = storage s).
    { destruct ((maxSize s <=? Z.of_nat (length (storage s))) &&
                negb (map_has k (storage s))); [|reflexivity].
      unfold evictOldest. rewrite (proj2 (oldest_none _) Hall). reflexivity. }
    rewrite Hsame. unfold map_has. rewrite Hfree.
    rewrite bool_decide_eq_false_2 by (intros [? ?]; discriminate). reflexivity.
Qed.

(** X18. Which entry an eviction takes. On a store whose keys are distinct, an
    entry of another key that is gone after a [set] is not a lock entry, is
    the only entry that went, and no entry that is not a lock was created
    before it: the eviction takes the oldest. *)
Theorem set_evicts_the_oldest (k v : string) (e : option Z) (s : t)
    (k1 : string) (i1 : CacheItem) :
  NoDup (map fst (storage s)) ->
  map_get k1 (storage s) = Some i1 ->
  map_get k1 (storage (set clock k v e s).2) = None ->
  endsWith "_lock" k1 = false /\
  (forall k2 i2, (k2, i2) ∈ storage s -> endsWith "_lock" k2 = false ->
     item_createdAt i1 <= item_createdAt i2) /\
  (forall k3, is_Some (map_get k3 (storage s)) ->
     map_get k3 (storage (set clock k v e s).2) = None -> k3 = k1).
Proof.
  intros Hnd Hk1. destruct (storage_after_set k v e s) as [item ->].
  intros Hgone.
  assert (Hne : k <> k1).
  { intros ->. rewrite map_get_set_eq in Hgone. discriminate. }
  rewrite map_get_set_ne in Hgone by exact Hne.
  unfold roomFor, evictOldest in *.
  destruct ((maxSize s <=? Z.of_nat (length (storage s))) && negb (map_has k (storage s)));
    [|congruence].
  destruct (oldest (storage s) None None) as [ko|] eqn:Ho; [|congruence].
  assert (Hko : ko = k1).
  { destruct (decide (ko = k1)) as [?|Hd]; [assumption|].
    rewrite map_get_delete_ne in Hgone by exact Hd. congruence. }
  subst ko. destruct (oldest_some _ _ Ho) as (io & Hin & Hnl & Hmin).
  rewrite (map_get_elem _ _ _ Hnd Hin) in Hk1. injection Hk1 as ->.
  split; [exact Hnl|]. split; [exact Hmin|].
  intros k3 [i3 Hk3] Hgone3.
  destruct (decide (k = k3)) as [->|Hne3].
  { rewrite map_get_set_eq in Hgone3. discriminate. }
  rewrite map_get_set_ne in Hgone3 by exact Hne3.
  destruct (decide (k1 = k3)) as [?|Hd]; [congruence|].
  rewrite map_get_delete_ne in Hgone3 by exact Hd. congruence.
Qed.

Lemma map_get_delete_all (ks : list string) :
  forall (m : Entries) (k : string),
    map_get k (foldl (fun acc k0 => map_delete k0 acc) m ks) =
      if decide (k ∈ ks) then None else map_get k m.
Proof.
  induction ks as [|k0 ks IH]; intros m k; simpl.
  - destruct (decide (k ∈ [])) as [Hin|_]; [inversion Hin | reflexivity].
  - rewrite IH. destruct (decide (k ∈ ks)) as [Hin|Hnin].
    + rewrite decide_True by (apply list_elem_of_further, Hin). reflexivity.
    + destruct (decide (k0 = k)) as [->|Hne].
      * rewrite decide_True by apply list_elem_of_here. apply map_get_delete_eq.
      * rewrite decide_False.
        -- apply map_get_delete_ne, Hne.
        -- intros Hin. apply elem_of_cons in Hin as [->|Hin]; [congruence | contradiction].
Qed.

Lemma expiredAt_later (now later : Z) (item : CacheItem) :
  now <= later -> expiredAt now item = true -> expiredAt later item = true.
Proof.
  unfold expiredAt. intros Hle H. apply andb_true_iff in H as [Ht Hgt].
  rewrite Ht. simpl. rewrite Z.gtb_ltb in *. apply Z.ltb_lt in Hgt. apply Z.ltb_lt. lia.
Qed.

(** X19. The periodic cleanup removes exactly the entries that are expired
    at its reading of the clock, and readers cannot tell that it ran: on a
    store whose keys are distinct, if the clock does not go backwards, a
    [get] right after a cleanup returns what the same [get] would have
    returned from the entries as they were before the cleanup. *)
Theorem cleanup_is_invisible (k : string) (s : t) :
  NoDup (map fst (storage s)) ->
  let n := nowReads (its_world s) in
  let s1 := (cleanup clock s).2 in
  map_get k (storage s1) =
    match map_get k (storage s) with
    | Some item => if expiredAt (clock n) item then None else Some item
    | None => None
    end /\
  (clock n <= clock (Datatypes.S n) ->
   (get clock k s1).1 = Ok (visible (storage s) k (clock (Datatypes.S n)))).
Proof.
  intros Hnd n s1.
  assert (Hstore : map_get k (storage s1) =
                   match map_get k (storage s) with
                   | Some item => if expiredAt (clock n) item then None else Some item
                   | None => None
                   end).
  { subst s1. unfold cleanup, setStorage, setLocks, dateNow, bind, ret, gets, modify.
    cbn -[map_get map_delete expiredAt filter]. fold n.
    rewrite map_get_delete_all.
    set (ks := map fst (filter (fun e => expiredAt (clock n) e.2 = true) (storage s))).
    destruct (map_get k (storage s)) as [item|] eqn:Hitem.
    - destruct (expiredAt (clock n) item) eqn:Hexp.
      + rewrite decide_True; [reflexivity|].
        apply list_elem_of_fmap. exists (k, item). split; [reflexivity|].
        apply list_elem_of_filter. split; [exact Hexp | apply elem_map_get, Hitem].
      + rewrite decide_False; [reflexivity|].
        intros Hin. apply list_elem_of_fmap in Hin as ([k' i'] & Hk & Hin). simpl in Hk.
        subst k'. apply list_elem_of_filter in Hin as [Hexp' Hin]. simpl in Hexp'.
        rewrite (map_get_elem _ _ _ Hnd Hin) in Hitem. congruence.
    - destruct (decide (k ∈ ks)) as [Hin|_]; [|reflexivity]. reflexivity. }
  split; [exact Hstore|].
  intros Hmono.
  destruct (get_visible k s1) as (s2 & Hget & _). rewrite Hget. cbn [fst].
  assert (Hreads : nowReads (its_world s1) = Datatypes.S n) by reflexivity.
  rewrite Hreads. unfold visible. rewrite Hstore.
  destruct (map_get k (storage s)) as [item|]; [|reflexivity].
  destruct (expiredAt (clock n) item) eqn:Hexp; [|reflexivity].
  rewrite (expiredAt_later _ _ _ Hmono Hexp). reflexivity.
Qed.

(** *** Distinct keys: an invariant of every method *)

Lemma distinct_setStorage (f : Entries -> Entries) :
  (forall m, NoDup (map fst m) -> NoDup (map fst (f m))) ->
  preserves distinct_keys (setStorage f).
Proof. intros Hf s Hs. apply Hf, Hs. Qed.

Lemma distinct_setLocks (f : gset string -> gset string) :
  preserves distinct_keys (setLocks f).
Proof. intros s Hs. exact Hs. Qed.

Lemma distinct_dateNow : preserves distinct_keys (dateNow (R := string) clock).
Proof. intros s Hs. exact Hs. Qed.

Lemma distinct_delete (k : string) : preserves distinct_keys (setStorage (map_delete k)).
Proof. apply distinct_setStorage. intros m. apply NoDup_map_delete. Qed.

Lemma distinct_put (k : string) (item : CacheItem) :
  preserves distinct_keys (setStorage (map_set k item)).
Proof. apply distinct_setStorage. intros m. apply NoDup_map_set. Qed.

Lemma distinct_makeRoom (k : string) : preserves distinct_keys (makeRoom k).
Proof.
  unfold makeRoom. apply preserves_bind; [apply preserves_gets|]. intros s.
  destruct (_ && _); [|apply preserves_ret].
  apply distinct_setStorage. intros m. apply NoDup_evictOldest.
Qed.

#[local] Hint Resolve distinct_setLocks distinct_dateNow distinct_delete distinct_put
  distinct_makeRoom : preserves.

Lemma distinct_set (k v : string) (e : option Z) : preserves distinct_keys (set clock k v e).
Proof. unfold set. preserve. Qed.

Lemma distinct_mset (values : list (string * string)) :
  preserves distinct_keys (mset clock values).
Proof.
  unfold mset. apply preserves_bind; [apply distinct_dateNow|]. intros now.
  induction values as [|[k v] rest IH]; simpl; preserve.
Qed.

Lemma distinct_get (k : string) : preserves distinct_keys (get clock k).
Proof. unfold get, isExpired. preserve. Qed.

Lemma distinct_mget (keys : list string) : preserves distinct_keys (mget clock keys).
Proof.
  unfold mget. apply preserves_bind; [apply distinct_dateNow|]. intros now.
  generalize (@nil (option string)).
  induction keys as [|k rest IH]; intros results; simpl; preserve.
Qed.

Lemma distinct_del (k : string) : preserves distinct_keys (del k).
Proof. unfold del. preserve. Qed.

Lemma distinct_acquireLock (k : string) (timeout : option Z) :
  preserves distinct_keys (acquireLock clock k timeout).
Proof. unfold acquireLock. preserve. Qed.

Lemma distinct_releaseLock (k : string) : preserves distinct_keys (releaseLock k).
Proof. unfold releaseLock. preserve. Qed.

Lemma distinct_isLockExists (k : string) : preserves distinct_keys (isLockExists clock k).
Proof. unfold isLockExists, isExpired. preserve. Qed.

Lemma distinct_cleanup : preserves distinct_keys (cleanup clock).
Proof.
  unfold cleanup. preserve. apply distinct_setStorage. intros m Hm.
  match goal with |- context [foldl _ m ?ks] => generalize ks end.
  intros ks. revert m Hm.
  induction ks as [|k0 ks IH]; intros m Hm; simpl; [exact Hm|].
  apply IH, NoDup_map_delete, Hm.
Qed.

Lemma distinct_constructor (optMaxSize : option Z) (w : World string) :
  distinct_keys (constructor optMaxSize w).
Proof. apply NoDup_nil_2. Qed.

(** X20. [mget] reads the clock once and answers every key as a [get] at
    that reading would, in the order of the keys, also when a key is asked
    for twice. *)
Theorem mget_reads_like_get (keys : list string) (s : t) :
  (mget clock keys s).1 =
    Ok (map (fun k => visible (storage s) k (clock (nowReads (its_world s)))) keys).
Proof.
  unfold mget, dateNow, bind. cbn -[mget_loop visible].
  set (now := clock (nowReads (its_world s))).
  set (s0 := mk (storage s) (locks s) (maxSize s) _).
  assert (Hgen : forall keys results (s' : t),
            (forall k, visible (storage s') k now = visible (storage s) k now) ->
            (mget_loop now keys results s').1 =
              Ok (results ++ map (fun k => visible (storage s) k now) keys)).
  { clear. intros keys. induction keys as [|k rest IH]; intros results s' Hsame; simpl.
    - rewrite app_nil_r. reflexivity.
    - unfold bind, gets. cbn -[mget_loop visible map_get map_delete expiredAt].
      pose proof (Hsame k) as Hk. unfold visible in Hk at 1.
      destruct (map_get k (storage s')) as [item|] eqn:Hitem.
      + destruct (expiredAt now item) eqn:Hexp.
        * unfold setStorage, modify. cbn -[mget_loop visible map_get map_delete expiredAt].
          rewrite IH.
          -- rewrite <- Hk, <- app_assoc. reflexivity.
          -- intros k'. rewrite <- Hsame. unfold visible. simpl.
             destruct (decide (k = k')) as [<-|Hne].
             ++ rewrite map_get_delete_eq, Hitem, Hexp. reflexivity.
             ++ rewrite map_get_delete_ne by exact Hne. reflexivity.
        * rewrite IH by exact Hsame. rewrite <- Hk, <- app_assoc. reflexivity.
      + rewrite IH by exact Hsame. rewrite <- Hk, <- app_assoc. reflexivity. }
  rewrite Hgen; [reflexivity|]. intros k. reflexivity.
Qed.

End Facts.

(** A new store, the lock of ["job"], and a second attempt right away. *)
Lemma acquireLock_excludes_until_deadline_witness :
  map_get (lockKeyOf "job") (storage MemoryScenario.empty) = None /\
  (acquireLock Scenario.clock "job" None MemoryScenario.empty).1 = Ok true /\
  (acquireLock Scenario.clock "job" (Some 50)
     (acquireLock Scenario.clock "job" None MemoryScenario.empty).2).1 = Ok false.
Proof.
  assert (H1 : map_get (lockKeyOf "job") (storage MemoryScenario.empty) = None)
    by reflexivity.
  split; [exact H1|].
  destruct (acquireLock_excludes_until_deadline Scenario.clock "job" None (Some 50)
              MemoryScenario.empty H1) as (Htaken & Hheld & _).
  split; [exact Htaken|].
  apply Hheld; vm_compute; [discriminate | reflexivity].
Defined.

(** A new store and the lock of ["job"]. *)
Lemma acquire_then_release_witness :
  map_get (lockKeyOf "job") (storage MemoryScenario.empty) = None /\
  (lockKeyOf "job" ∉ locks MemoryScenario.empty) /\
  (releaseLock "job" MemoryScenario.empty).1 = Ok false /\
  (releaseLock "job" (acquireLock Scenario.clock "job" None MemoryScenario.empty).2).1
    = Ok true.
Proof.
  assert (H1 : map_get (lockKeyOf "job") (storage MemoryScenario.empty) = None)
    by reflexivity.
  assert (H2 : lockKeyOf "job" ∉ locks MemoryScenario.empty)
    by apply not_elem_of_empty.
  split; [exact H1|]. split; [exact H2|].
  destruct (acquire_then_release Scenario.clock "job" None None MemoryScenario.empty H1 H2)
    as (Hfree & Hheld & _).
  split; [exact Hfree | exact Hheld].
Defined.

(** The store of two entries and room for two: a third key evicts
    ["key1"], the older one. *)
Lemma set_evicts_the_oldest_witness :
  NoDup (map fst (storage MemoryScenario.full)) /\
  map_get "key1" (storage MemoryScenario.full) = Some (mkItem "value1" None 1000) /\
  map_get "key1" (storage (set Scenario.clock "key3" "value3" None MemoryScenario.full).2)
    = None /\
  endsWith "_lock" "key1" = false /\
  (forall k2 i2, (k2, i2) ∈ storage MemoryScenario.full -> endsWith "_lock" k2 = false ->
     1000 <= item_createdAt i2).
Proof.
  assert (H1 : NoDup (map fst (storage MemoryScenario.full))).
  { apply (bool_decide_unpack _). vm_compute. exact I. }
  assert (H2 : map_get "key1" (storage MemoryScenario.full)
               = Some (mkItem "value1" None 1000)) by reflexivity.
  assert (H3 : map_get "key1"
                 (storage (set Scenario.clock "key3" "value3" None MemoryScenario.full).2)
               = None) by reflexivity.
  split; [exact H1|]. split; [exact H2|]. split; [exact H3|].
  destruct (set_evicts_the_oldest Scenario.clock "key3" "value3" None MemoryScenario.full
              "key1" (mkItem "value1" None 1000) H1 H2 H3) as (Hnolock & Holdest & _).
  split; [exact Hnolock | exact Holdest].
Defined.

(** The store of two entries, of which ["key2"] expires at 1501 ms, cleaned
    up at 1003 ms. *)
Lemma cleanup_is_invisible_witness :
  NoDup (map fst (storage MemoryScenario.full)) /\
  map_get "key2" (storage (cleanup Scenario.clock MemoryScenario.full).2)
    = Some (mkItem "value2" (Some 1501) 1002) /\
  (get Scenario.clock "key2" (cleanup Scenario.clock MemoryScenario.full).2).1
    = Ok (Some "value2").
Proof.
  assert (H1 : NoDup (map fst (storage MemoryScenario.full))).
  { apply (bool_decide_unpack _). vm_compute. exact I. }
  split; [exact H1|].
  destruct (cleanup_is_invisible Scenario.clock "key2" MemoryScenario.full H1)
    as [Hkept Hread].
  split; [exact Hkept|]. apply Hread. vm_compute. discriminate.
Defined.

End InMemoryFacts.

(** ** The single-tier managers and the Bloom filter *)

Module SingleTierMore.
Import MethodFacts.

Section Facts.
Context {R : Type}.
Variable storage : Storage R.
Variable clock : nat -> Z.
Variable deserialize : string -> Result R.
Variable updateReadThrough :
  ExecutorContext R -> ReadWriteOptions -> M (ReadThroughManager.t R) R.
Variable updateWriteThrough :
  ExecutorContext R -> ReadWriteOptions -> M (WriteThroughManager.t R) R.
Variable updateRefreshAhead :
  ExecutorContext R -> ReadWriteOptions -> M (RefreshAheadManager.t R) R.

(** X21. A write marks its key, and only a write that the storage took. In
    the Read-Through, Write-Through and Refresh-Ahead managers [set] sends
    one write to the storage and returns its outcome; when the storage
    returns, the key is added to the Bloom filter, and when it throws, the
    filter is left as it was. With a filter that is well formed, or none,
    the pre-check then passes for the written key and still passes for
    every key it passed for before. *)
Theorem set_marks_key (k : string) (v : R) (o : option WriteOptions)
    (filter : option BloomFilter.t) (w : World R) (factor : number) :
  (forall bf, filter = Some bf -> well_formed bf) ->
  let marked := (fun bf => BloomFilter.add bf (charCodes k)) <$> filter in
  let after (outcome : Result (CacheRecord R)) :=
    match outcome with Ok _ => marked | Throw _ => filter end in
  let sent (o' : option WriteOptions) :=
    mkWorld (log w ++ [StorageSet k v o']) (nowReads w) in
  let permanent := Some (WriteThroughManager.permanentOptions o) in
  ReadThroughManager.set storage k v o (ReadThroughManager.mk filter w) =
    (storage_set storage k v o,
     ReadThroughManager.mk (after (storage_set storage k v o)) (sent o)) /\
  WriteThroughManager.set storage k v o (WriteThroughManager.mk filter w) =
    (storage_set storage k v permanent,
     WriteThroughManager.mk (after (storage_set storage k v permanent)) (sent permanent)) /\
  RefreshAheadManager.set storage k v o (RefreshAheadManager.mk factor filter w) =
    (storage_set storage k v o,
     RefreshAheadManager.mk factor (after (storage_set storage k v o)) (sent o)) /\
  bloomPasses marked k /\
  (forall k', bloomPasses filter k' -> bloomPasses marked k').
Proof.
  intros Hwf marked after sent permanent. subst marked after sent permanent.
  split; [|split; [|split; [|split]]].
  - unfold ReadThroughManager.set, ReadThroughManager.bloomAdd, call_set, bind, emit,
      modify, lift, ret. cbn.
    destruct (storage_set storage k v o); destruct filter; reflexivity.
  - unfold WriteThroughManager.set, WriteThroughManager.bloomAdd, call_set, bind, emit,
      modify, lift, ret. cbn.
    destruct (storage_set storage k v _); destruct filter; reflexivity.
  - unfold RefreshAheadManager.set, RefreshAheadManager.bloomAdd, call_set, bind, emit,
      modify, lift, ret. cbn.
    destruct (storage_set storage k v o); destruct filter; reflexivity.
  - destruct filter as [bf|]; cbn; [|exact I].
    apply BloomFilterFacts.add_mightContain, Hwf. reflexivity.
  - intros k' Hk'. destruct filter as [bf|]; cbn in *; [|exact I].
    apply BloomFilterFacts.add_keeps_mightContain; [apply Hwf; reflexivity | exact Hk'].
Qed.

(** X22. A key the Bloom filter does not know never reaches the storage.
    In the Read-Through, Write-Through and Refresh-Ahead managers, when the
    filter answers no for the key, [get] returns the outcome of the
    executor without a call to the storage, stores nothing and leaves the
    filter as it was, so the same holds for the next [get] of the key. *)
Theorem get_unmarked_key_skips_storage (k : string) (ex : Executor R)
    (opts : ReadWriteOptions) (b : BloomFilter.t) (w : World R) (factor : number) :
  BloomFilter.mightContain b (charCodes k) = false ->
  let w' := mkWorld (log w ++ [Logged Trace [Str (msgBloomMiss k)]; ExecutorRun])
                    (nowReads w) in
  ReadThroughManager.get storage clock deserialize updateReadThrough k ex opts
      (ReadThroughManager.mk (Some b) w) =
    (ex, ReadThroughManager.mk (Some b) w') /\
  WriteThroughManager.get storage deserialize updateWriteThrough k ex opts
      (WriteThroughManager.mk (Some b) w) =
    (ex, WriteThroughManager.mk (Some b) w') /\
  RefreshAheadManager.get storage clock deserialize updateRefreshAhead k ex opts
      (RefreshAheadManager.mk factor (Some b) w) =
    (ex, RefreshAheadManager.mk factor (Some b) w').
Proof.
  intros Hno w'. subst w'.
  unfold ReadThroughManager.get, WriteThroughManager.get, RefreshAheadManager.get,
    runExecutor, logger, bind, gets, emit, modify, lift.
  cbn. rewrite Hno. cbn. rewrite <- !app_assoc. cbn.
  destruct ex; repeat split; reflexivity.
Qed.

(** X23. The factors the Refresh-Ahead constructor accepts. For a factor
    [q] with [0 < q < 1] the constructor passes the range check and keeps
    [q]; without a factor, and for the factors 0 and NaN, it uses the
    default 0.8. What is left of the construction is the set-up of the
    Bloom filter. *)
Theorem constructor_accepts_factor_inside_range
    (newBloomFilter : number -> number -> Result (BloomFilter.t * string))
    (q : Q) (mo : ManagerOptions) (w : World R) :
  (0 < q)%Q -> (q < 1)%Q ->
  let built (factor : number) : Result (RefreshAheadManager.t R) :=
    match initBloomFilter newBloomFilter mo "RefreshAheadManager" w with
    | Ok (bf, w') => Ok (RefreshAheadManager.mk factor bf w')
    | Throw e => Throw e
    end in
  RefreshAheadManager.constructor newBloomFilter
      (RefreshAheadManager.mkOptions (Some (Fin q)) mo) w = built (Fin q) /\
  (forall given : option number,
     given = None \/ given = Some NaN \/ given = Some (Fin 0) ->
     RefreshAheadManager.constructor newBloomFilter
         (RefreshAheadManager.mkOptions given mo) w =
       built RefreshAheadManager.DEFAULT_REFRESH_AHEAD_FACTOR).
Proof.
  intros Hpos Hlt built. subst built. split.
  - unfold RefreshAheadManager.constructor, num_or, num_truthy, num_geb. cbn.
    assert (Hnz : Qeq_bool q 0 = false).
    { apply not_true_is_false. intros Heq. apply Qeq_bool_eq in Heq.
      rewrite Heq in Hpos. apply (Qlt_irrefl _ Hpos). }
    rewrite Hnz. cbn.
    assert (Hle0 : Qle_bool q (inject_Z 0) = false).
    { apply not_true_is_false. intros Hle. apply Qle_bool_iff in Hle.
      apply (Qlt_not_le _ _ Hpos). exact Hle. }
    assert (Hge1 : Qle_bool (inject_Z 1) q = false).
    { apply not_true_is_false. intros Hle. apply Qle_bool_iff in Hle.
      apply (Qlt_not_le _ _ Hlt). exact Hle. }
    rewrite Hle0, Hge1. reflexivity.
  - intros given [->|[->| ->]]; reflexivity.
Qed.

End Facts.

(** Managers with the filter of 64 bits over a storage that takes every
    write. *)
Lemma set_marks_key_witness :
  (forall bf, Some TierScenario.filter64 = Some bf -> well_formed bf) /\
  (ReadThroughManager.set (Scenario.storageWith None (Ok false)) "k" "v" None
     (ReadThroughManager.mk (Some TierScenario.filter64) Scenario.world0)).1
    = Ok (Scenario.written "k" "v") /\
  bloomPasses
    ((fun bf => BloomFilter.add bf (charCodes "k")) <$> Some TierScenario.filter64) "k".
Proof.
  assert (H1 : forall bf, Some TierScenario.filter64 = Some bf -> well_formed bf).
  { intros bf [= <-]. split; vm_compute; reflexivity. }
  split; [exact H1|].
  destruct (set_marks_key (Scenario.storageWith None (Ok false)) "k" "v" None
              (Some TierScenario.filter64) Scenario.world0
              RefreshAheadManager.DEFAULT_REFRESH_AHEAD_FACTOR H1)
    as (Hrt & _ & _ & Hmarked & _).
  split; [rewrite Hrt; reflexivity | exact Hmarked].
Defined.

(** The filter of 64 bits has seen no key. *)
Lemma get_unmarked_key_skips_storage_witness :
  BloomFilter.mightContain TierScenario.filter64 (charCodes "k") = false /\
  ReadThroughManager.get (Scenario.storageWith (Some (Scenario.written "k" "v")) (Ok false))
      Scenario.clock Scenario.deserialize Scenario.recompute "k" (Ok "fresh") noOptions
      (ReadThroughManager.mk (Some TierScenario.filter64) Scenario.world0) =
    (Ok "fresh",
     ReadThroughManager.mk (Some TierScenario.filter64)
       (mkWorld [Logged Trace [Str (msgBloomMiss "k")]; ExecutorRun] 0)).
Proof.
  assert (H1 : BloomFilter.mightContain TierScenario.filter64 (charCodes "k") = false)
    by (vm_compute; reflexivity).
  split; [exact H1|].
  exact (proj1 (get_unmarked_key_skips_storage
                  (Scenario.storageWith (Some (Scenario.written "k" "v")) (Ok false))
                  Scenario.clock Scenario.deserialize Scenario.recompute
                  Scenario.recompute Scenario.recompute "k" (Ok "fresh") noOptions
                  TierScenario.filter64 Scenario.world0
                  RefreshAheadManager.DEFAULT_REFRESH_AHEAD_FACTOR H1)).
Defined.

(** The factor 1/2. *)
Lemma constructor_accepts_factor_inside_range_witness :
  (0 < 1 # 2)%Q /\ (1 # 2 < 1)%Q /\
  RefreshAheadManager.constructor Scenario.newBloomFilter
      (RefreshAheadManager.mkOptions (Some (Fin (1 # 2))) (mkManagerOptions false None))
      Scenario.world0 =
    Ok (RefreshAheadManager.mk (Fin (1 # 2)) None (Scenario.world0 : World string)).
Proof.
  assert (H1 : (0 < 1 # 2)%Q) by reflexivity.
  assert (H2 : (1 # 2 < 1)%Q) by reflexivity.
  split; [exact H1|]. split; [exact H2|].
  exact (proj1 (constructor_accepts_factor_inside_range (R := string)
                  Scenario.newBloomFilter (1 # 2) (mkManagerOptions false None)
                  Scenario.world0 H1 H2)).
Defined.

End SingleTierMore.
